(** * wikipedia-npov-classifier: the feature-extraction pipeline

    A shallow embedding of [extractFeatures.ts] (retry controller, risk
    scorer, revision-history fetcher, diff retriever, distribution
    statistics, feature assembler), of the command line driver [cli.ts]
    ([doInBatches], [fetchRevisions], [fetchSubstantialRandomArticles], the
    handler of [extract-features]) and of [train.ts]
    ([mergeRevisionsAndLabels], [evaluate]), with the properties the
    specification states about them and further properties of the code.

    Conventions of the embedding:
    - a JavaScript [number] is a type [num] with the arithmetic of the class
      [JsNumber]; it is instantiated at IEEE-754 binary64 (module [F64],
      Rocq's primitive floats, which evaluate) and at the extended real line
      (module [Exact], no rounding, for the algebraic laws);
    - a function that can throw returns a [completion];
    - the network is data: each upstream exchange is a value of an inductive
      type describing what [fetch] and [response.json()] did;
    - an array that is mutated in place lives in a [heap], addressed by
      location, so that aliases see the mutation;
    - [console.log] and [console.error] write nothing that the program reads
      back and are left out. *)

From Stdlib Require Import ZArith List String Ascii Lia Permutation Sorted.
From Stdlib Require Import PrimFloat Uint63.
From Stdlib Require Floats.
From Stdlib Require Import Reals Lra.
From stdpp Require Import base option list gmap strings pretty.
Import ListNotations.

Local Open Scope string_scope.
Local Open Scope list_scope.

(** ** JavaScript numbers *)

(** The operations on [number] that the pipeline uses. [num_gt0 v] is the
    test [v > 0], false on NaN: it is how [Array.prototype.sort] reads the
    result of a comparator. *)
Class JsNumber (num : Type) := {
  num_of_Z : Z -> num;
  num_nan : num;
  num_add : num -> num -> num;
  num_sub : num -> num -> num;
  num_mul : num -> num -> num;
  num_div : num -> num -> num;
  num_sqrt : num -> num;
  num_gt0 : num -> bool
}.

(** An array length as a number. *)
Definition num_of_nat {num} `{!JsNumber num} (n : nat) : num := num_of_Z (Z.of_nat n).

(** [Math.pow(x, 2)]: the square. *)
Definition Math_pow2 {num} `{!JsNumber num} (x : num) : num := num_mul x x.

Module F64.

(** Integers enter binary64 through the unsigned 63-bit conversion, with
    the sign put back; exact below 2^53. *)
Definition of_Z (z : Z) : float :=
  match z with
  | Z0 => PrimFloat.zero
  | Zpos _ => PrimFloat.of_uint63 (Uint63.of_Z z)
  | Zneg p => PrimFloat.opp (PrimFloat.of_uint63 (Uint63.of_Z (Zpos p)))
  end.

#[global] Instance binary64 : JsNumber float := {|
  num_of_Z := of_Z;
  num_nan := PrimFloat.nan;
  num_add := PrimFloat.add;
  num_sub := PrimFloat.sub;
  num_mul := PrimFloat.mul;
  num_div := PrimFloat.div;
  num_sqrt := PrimFloat.sqrt;
  num_gt0 := fun v => PrimFloat.ltb PrimFloat.zero v
|}.

End F64.

Module Exact.

(** The extended real line with NaN: binary64 without rounding and
    without the sign of zero. *)
Inductive xreal : Type :=
| Fin (r : R)
| PInf
| NInf
| NaN.

Definition xopp (a : xreal) : xreal :=
  match a with
  | Fin r => Fin (- r)
  | PInf => NInf
  | NInf => PInf
  | NaN => NaN
  end.

Definition xadd (a b : xreal) : xreal :=
  match a, b with
  | NaN, _ | _, NaN => NaN
  | Fin x, Fin y => Fin (x + y)
  | PInf, NInf | NInf, PInf => NaN
  | PInf, _ | _, PInf => PInf
  | NInf, _ | _, NInf => NInf
  end.

Definition xsub (a b : xreal) : xreal := xadd a (xopp b).

(** The sign of a real, as an infinity, NaN for zero. *)
Definition inf_of_sign (r : R) : xreal :=
  if Rlt_dec 0 r then PInf else if Rlt_dec r 0 then NInf else NaN.

Definition xmul (a b : xreal) : xreal :=
  match a, b with
  | NaN, _ | _, NaN => NaN
  | Fin x, Fin y => Fin (x * y)
  | Fin x, PInf | PInf, Fin x => inf_of_sign x
  | Fin x, NInf | NInf, Fin x => inf_of_sign (- x)
  | PInf, PInf | NInf, NInf => PInf
  | PInf, NInf | NInf, PInf => NInf
  end.

Definition xdiv (a b : xreal) : xreal :=
  match a, b with
  | NaN, _ | _, NaN => NaN
  | Fin x, Fin y => if Req_dec_T y 0 then inf_of_sign x else Fin (x / y)
  | Fin _, (PInf | NInf) => Fin 0
  | PInf, Fin y => if Rlt_dec y 0 then NInf else PInf
  | NInf, Fin y => if Rlt_dec y 0 then PInf else NInf
  | (PInf | NInf), (PInf | NInf) => NaN
  end.

Definition xsqrt (a : xreal) : xreal :=
  match a with
  | Fin r => if Rlt_dec r 0 then NaN else Fin (sqrt r)
  | PInf => PInf
  | NInf | NaN => NaN
  end.

Definition xgt0 (a : xreal) : bool :=
  match a with
  | Fin r => if Rlt_dec 0 r then true else false
  | PInf => true
  | NInf | NaN => false
  end.

#[global] Instance exact : JsNumber xreal := {|
  num_of_Z := fun z => Fin (IZR z);
  num_nan := NaN;
  num_add := xadd;
  num_sub := xsub;
  num_mul := xmul;
  num_div := xdiv;
  num_sqrt := xsqrt;
  num_gt0 := xgt0
|}.

End Exact.

(** ** Values, objects, completions *)

(** The JavaScript values that reach a feature record. *)
Inductive value (num : Type) : Type :=
| VUndefined
| VNull
| VNumber (n : num)
| VString (s : string).
Arguments VUndefined {num}.
Arguments VNull {num}.
Arguments VNumber {num} n.
Arguments VString {num} s.

(** A plain object: its own enumerable properties in creation order. *)
Definition object (num : Type) : Type := list (string * value num).

(** [o[k] = v]: an existing property keeps its place, a new one goes last. *)
Fixpoint obj_set {num} (k : string) (v : value num) (o : object num) : object num :=
  match o with
  | [] => [(k, v)]
  | (k', v') :: o' =>
      if String.eqb k k' then (k, v) :: o' else (k', v') :: obj_set k v o'
  end.

(** [o[k]], [undefined] for a missing property. *)
Fixpoint obj_get {num} (k : string) (o : object num) : value num :=
  match o with
  | [] => VUndefined
  | (k', v') :: o' => if String.eqb k k' then v' else obj_get k o'
  end.

(** An object literal [{k1: v1, ..., ...s}] : properties are defined left to
    right, a spread copies the properties of its source in order. *)
Definition obj_literal {num} (props : list (string * value num)) : object num :=
  fold_left (fun o kv => obj_set kv.1 kv.2 o) props [].

Definition obj_keys {num} (o : object num) : list string := map fst o.

(** [a[i]]: an element, [undefined] out of range. *)
Definition array_get {num} (a : list num) (i : nat) : value num :=
  match a !! i with
  | Some x => VNumber x
  | None => VUndefined
  end.

(** What the program throws. *)
Inductive error : Type :=
| InvalidRevisionUrl        (* 'Invalid revision URL: missing title ...' *)
| UnexpectedApiStructure    (* 'Unexpected API response structure ...' *)
| UnexpectedDiffFormat      (* 'Unexpected diff format' *)
| RateLimitExceeded         (* 'Rate limit exceeded. Maximum retries reached.' *)
| TypeError                 (* a property read or written on undefined or null *)
| TransportError            (* fetch rejected *)
| ParseError.               (* response.json() rejected *)

(** How a call ends: with a value or with a thrown error. *)
Inductive completion (A : Type) : Type :=
| Normal (a : A)
| Throw (e : error).
Arguments Normal {A} a.
Arguments Throw {A} e.

#[global] Instance completion_ret : MRet completion := fun A a => Normal a.
#[global] Instance completion_bind : MBind completion := fun A B k c =>
  match c with
  | Normal a => k a
  | Throw e => Throw e
  end.

(** ** Arrays *)

Section Arrays.
Context {A B : Type}.

(** [a.reduce((acc, x, index) => f(acc, x, index), init)]. *)
Definition reduce_indexed (f : B -> A -> nat -> B) (init : B) (a : list A) : B :=
  fold_left (fun acc ix => f acc ix.2 ix.1) (zip (seq 0 (length a)) a) init.

(** One step of a stable insertion: [x], which stood before every element
    of the sorted [l], goes behind the elements the comparator puts
    strictly before it. *)
Fixpoint sort_insert (comparefn : A -> A -> bool) (x : A) (l : list A) : list A :=
  match l with
  | [] => [x]
  | y :: l' =>
      if comparefn x y then y :: sort_insert comparefn x l' else x :: y :: l'
  end.

Definition stable_sort (comparefn : A -> A -> bool) (a : list A) : list A :=
  foldr (sort_insert comparefn) [] a.

End Arrays.

(** [a.sort(comparefn)] on numbers: a stable sort that places [y] before [x]
    when [comparefn(x, y) > 0]. The comparators of this program are
    consistent on finite numbers, where every stable sort returns this same
    array. *)
Definition Array_sort {num} `{!JsNumber num} (comparefn : num -> num -> num)
    (a : list num) : list num :=
  stable_sort (fun x y => num_gt0 (comparefn x y)) a.

(** ** The heap of number arrays *)

(** Locations are indices into the list of the arrays allocated so far. *)
Abbreviation loc := nat (only parsing).
Abbreviation heap num := (list (list num)) (only parsing).

Section Heap.
Context {num : Type}.

Definition heap_read (h : heap num) (l : loc) : list num := default [] (h !! l).
Definition heap_write (h : heap num) (l : loc) (a : list num) : heap num := <[l := a]> h.
(** A new array gets the next free location. *)
Definition heap_alloc (h : heap num) (a : list num) : loc * heap num :=
  (length h, h ++ [a]).

End Heap.

(** ** Revisions and the statistics over them *)

Record Revision (num : Type) : Type := mkRevision {
  revisionUrl : string;
  articleUrl : string;
  userName : string;
  userId : Z;
  timestamp : num;      (* unix timestamp of the revision time *)
  diff : option string  (* [None] is null *)
}.
Arguments mkRevision {num}.
Arguments revisionUrl {num}.
Arguments articleUrl {num}.
Arguments userName {num}.
Arguments userId {num}.
Arguments timestamp {num}.
Arguments diff {num}.

Section Statistics.
Context {num : Type} `{!JsNumber num}.

(** [calculateAverageTimeBetweenRevisions]. An index of at least 1 has a
    predecessor in the array, so the default of the lookup is not
    reached. *)
Definition calculateAverageTimeBetweenRevisions (revisions : list (Revision num)) : num :=
  if decide (length revisions < 2) then num_of_Z 0
  else
    num_div
      (reduce_indexed
         (fun acc revision index =>
            match index with
            | O => acc
            | S index' =>
                let timeBetweenRevisions :=
                  num_sub (timestamp revision)
                          (timestamp (default revision (revisions !! index'))) in
                num_add acc timeBetweenRevisions
            end)
         (num_of_Z 0) revisions)
      (num_of_nat (length revisions)).

(** The five properties of the statistics object, in the order of the
    object literal; their names are computed from the base name. *)
Definition stats_object (baseFeatureName : string)
    (average : num) (median q1 q3 : value num) (stdDev : num) : object num :=
  obj_literal
    [ (baseFeatureName +:+ "Average", VNumber average);
      (baseFeatureName +:+ "Median", median);
      (baseFeatureName +:+ "Q1", q1);
      (baseFeatureName +:+ "Q3", q3);
      (baseFeatureName +:+ "StdDev", VNumber stdDev) ].

(** [extractDistributionStatistics]. [nums] is a reference: [nums.sort]
    writes the sorted array back to it and returns the same reference, so
    [sortedNums] is an alias of [nums] and the second [reduce] runs over
    the sorted array. The indices [Math.floor(length / 2)] and the like are
    computed on integers: a length is below 2^32, where the binary64
    quotient and its floor are exact. *)
Definition extractDistributionStatistics (baseFeatureName : string) (nums : loc)
    (h : heap num) : object num * heap num :=
  let average :=
    num_div (fold_left (fun acc n => num_add acc n) (heap_read h nums) (num_of_Z 0))
            (num_of_nat (length (heap_read h nums))) in
  let h := heap_write h nums
             (Array_sort (fun a b => num_sub a b) (heap_read h nums)) in
  let sortedNums := nums in
  let median := array_get (heap_read h sortedNums)
                  (length (heap_read h sortedNums) / 2) in
  let q1 := array_get (heap_read h sortedNums)
              (length (heap_read h sortedNums) / 4) in
  let q3 := array_get (heap_read h sortedNums)
              (length (heap_read h sortedNums) * 3 / 4) in
  let stdDev :=
    num_sqrt
      (num_div
         (fold_left (fun acc n => num_add acc (Math_pow2 (num_sub n average)))
                    (heap_read h nums) (num_of_Z 0))
         (num_of_nat (length (heap_read h nums)))) in
  (stats_object baseFeatureName average median q1 q3 stdDev, h).

(** [differences]: [nums.slice(1).map((num, ind) => num - nums[ind])]. A
    missing [nums[ind]] would be [undefined], and the difference NaN. *)
Definition differences (nums : list num) : list num :=
  imap (fun ind n => num_sub n (default num_nan (nums !! ind))) (drop 1 nums).

End Statistics.

(** ** The retry and rate-limit controller *)

Definition rateLimitExceededWaitTimeSeconds : Z := 10.
Definition getDiffs : bool := false.

(** What a run does to the outside: requests and timed waits
    (milliseconds), in order. *)
Inductive event : Type :=
| EvFetch (url : string)
| EvSleep (ms : Z).

Definition fetch_count (tr : list event) : nat :=
  foldr (fun ev acc => match ev with EvFetch _ => S acc | EvSleep _ => acc end) 0 tr.

Definition slept_ms (tr : list event) : Z :=
  foldr (fun ev acc => match ev with EvFetch _ => acc | EvSleep ms => (ms + acc)%Z end) 0%Z tr.

(** One exchange with an upstream: [fetch] rejects and [response] stays
    undefined, or there is a response with a status whose [json()] resolves
    to a payload or rejects. *)
Inductive exchange (payload : Type) : Type :=
| FetchRejects (e : error)
| Responds (status : Z) (body : completion payload).
Arguments FetchRejects {payload} e.
Arguments Responds {payload} status body.

Section Controller.
Context {payload : Type}.

(** The process: its response cache and what it did so far. *)
Record world : Type := mkWorld {
  cache : gmap string payload;
  trace : list event
}.

(** The upstream answers a request for [url] by what it is and by how many
    requests the process made before it. *)
Variable upstream : string -> nat -> exchange payload.

Definition do_fetch (url : string) (w : world) : exchange payload * world :=
  (upstream url (fetch_count (trace w)),
   mkWorld (cache w) (trace w ++ [EvFetch url])).

Definition do_sleep (ms : Z) (w : world) : world :=
  mkWorld (cache w) (trace w ++ [EvSleep ms]).

Definition cache_set (url : string) (data : payload) (w : world) : world :=
  mkWorld (<[url := data]> (cache w)) (trace w).

(** [fetchWithRetry]. The retry count is a natural number: every caller
    leaves it at its default of 3 and the recursion counts it down. *)
Fixpoint fetchWithRetry (url : string) (retryCount : nat) (w : world)
    : completion payload * world :=
  match cache w !! url with
  | Some data => (Normal data, w)
  | None =>
      let '(x, w) := do_fetch url w in
      match x with
      | FetchRejects e => (Throw e, w)
      | Responds status (Normal data) => (Normal data, cache_set url data w)
      | Responds status (Throw e) =>
          if (status =? 429)%Z then
            match retryCount with
            | O => (Throw RateLimitExceeded, w)
            | S retryCount' =>
                fetchWithRetry url retryCount'
                  (do_sleep (rateLimitExceededWaitTimeSeconds * 1000) w)
            end
          else (Throw e, w)
      end
  end.

End Controller.
Arguments world payload : clear implicits.

(** ** The risk scorer *)

Definition riskApiUrl : string :=
  "https://api.wikimedia.org/service/lw/inference/v1/models/revertrisk-language-agnostic:predict".

(** The parsed reply of the risk endpoint, as far as the scorer reads it:
    the path [data.output.probabilities] exists or not, and below it the
    property [true]. *)
Inductive risk_payload (num : Type) : Type :=
| RiskNoProbabilities
| RiskProbabilities (true_ : value num).
Arguments RiskNoProbabilities {num}.
Arguments RiskProbabilities {num} true_.

Section RiskScorer.
Context {num : Type} `{!JsNumber num}.

(** The endpoint answers by the revision id posted and by the number of
    the attempt. *)
Variable endpoint : Z -> nat -> exchange (risk_payload num).

(** The [try] block of one turn of the loop. [Normal None] is the
    [continue] after a rate-limit response, which has already waited. *)
Definition risk_try (revisionId : Z) (attempt : nat)
    : completion (option (value num)) * list event :=
  match endpoint revisionId attempt with
  | FetchRejects e => (Throw e, [EvFetch riskApiUrl])
  | Responds status body =>
      if (status =? 429)%Z then
        (Normal None,
         [EvFetch riskApiUrl; EvSleep (rateLimitExceededWaitTimeSeconds * 1000)])
      else
        (data ← body;
         match data with
         | RiskNoProbabilities => Throw TypeError
         | RiskProbabilities p => Normal (Some p)
         end,
         [EvFetch riskApiUrl])
  end.

(** The [while (retryCount > 0)] loop; both the [continue] path and the
    [catch] block decrement the count. *)
Fixpoint risk_loop (revisionId : Z) (retryCount : nat) (attempt : nat)
    (tr : list event) : completion (value num) * list event :=
  match retryCount with
  | O => (Normal (VNumber (num_of_Z 0)), tr)
  | S retryCount' =>
      let '(c, evs) := risk_try revisionId attempt in
      match c with
      | Normal (Some p) => (Normal p, tr ++ evs)
      | Normal None => risk_loop revisionId retryCount' (S attempt) (tr ++ evs)
      | Throw _ => risk_loop revisionId retryCount' (S attempt) (tr ++ evs)
      end
  end.

Definition fetchRevertRiskScore (revisionId : Z) (retryCount : nat)
    : completion (value num) * list event :=
  risk_loop revisionId retryCount 0 [].

End RiskScorer.

(** ** The diff retriever *)

(** The rest of [s] behind its first [n] characters. *)
Fixpoint string_drop (n : nat) (s : string) : string :=
  match n, s with
  | O, _ => s
  | S n', String _ s' => string_drop n' s'
  | S _, EmptyString => EmptyString
  end.

(** [(s.match(/p/g) || []).length] for a literal, non-empty pattern [p]:
    the matches are counted from left to right and the scan resumes behind
    a match, [skip] characters further. *)
Fixpoint count_matches_from (p : string) (skip : nat) (s : string) : nat :=
  match s with
  | EmptyString => 0
  | String _ s' =>
      match skip with
      | S skip' => count_matches_from p skip' s'
      | O =>
          if String.prefix p s
          then S (count_matches_from p (String.length p - 1) s')
          else count_matches_from p 0 s'
      end
  end.

Definition count_matches (p s : string) : nat := count_matches_from p 0 s.

(** The text before and the text behind the first occurrence of [p]. *)
Fixpoint split_at_first (p s : string) : option (string * string) :=
  if String.prefix p s then Some (EmptyString, string_drop (String.length p) s)
  else
    match s with
    | EmptyString => None
    | String c s' =>
        match split_at_first p s' with
        | Some (before, behind) => Some (String c before, behind)
        | None => None
        end
    end.

(** [s.match(/<pre>([\s\S]*?)<\/pre>/)], its first group: the match starts
    at the leftmost opening tag that has a closing tag behind it, and the
    lazy group ends at the first closing tag. A closing tag behind a later
    opening tag is also behind the leftmost one, so the leftmost opening tag
    decides. [None] is the null of a failed match. *)
Definition match_pre_block (s : string) : option string :=
  '(_, behind) ← split_at_first "<pre>" s;
  '(inner, _) ← split_at_first "</pre>" behind;
  Some inner.

(** The parsed reply of the compare request, as far as the retriever reads
    it: [data.compare] is missing, or present with its property ['*']. *)
Inductive compare_payload : Type :=
| NoCompare
| Compare (star : option string).

(** [fetchDiffFromRevId], from the completion of its
    [fetchWithRetry(apiUrl)]. The non-null assertion on the second match
    leaves no check behind: a null match throws at the index. *)
Definition fetchDiffFromRevId (reply : completion compare_payload) : completion string :=
  data ← reply;
  match data with
  | NoCompare => Throw UnexpectedApiStructure
  | Compare None => Throw TypeError
  | Compare (Some diffText) =>
      if decide (count_matches "<pre>" diffText ≠ 1) then Throw UnexpectedDiffFormat
      else
        match match_pre_block diffText with
        | None => Throw TypeError
        | Some unifiedDiff => Normal unifiedDiff
        end
  end.

(** The search parameters of a revision URL; [None] is the null of a
    missing parameter. *)
Record RevisionUrl : Type := mkRevisionUrl {
  title : option string;
  oldid : option string
}.

(** [!s] for a string or null: null and the empty string are falsy. *)
Definition truthy (s : option string) : option string :=
  match s with
  | Some EmptyString | None => None
  | Some s => Some s
  end.

Definition fetchDiffFromUrl (revisionUrl : RevisionUrl)
    (reply : completion compare_payload) : completion string :=
  match truthy (title revisionUrl), truthy (oldid revisionUrl) with
  | Some _, Some _ => fetchDiffFromRevId reply
  | _, _ => Throw InvalidRevisionUrl
  end.

(** ** The revision-history fetcher *)

(** A revision as the history API lists it; the timestamp is the number
    that [new Date(...).getTime() / 1000] makes of it. *)
Record ApiRevision (num : Type) : Type := mkApiRevision {
  revid : Z;
  user : string;
  userid : Z;
  api_timestamp : num
}.
Arguments mkApiRevision {num}.
Arguments revid {num}.
Arguments user {num}.
Arguments userid {num}.
Arguments api_timestamp {num}.

(** The completion of [fetchWithRetry(apiUrl)] for a history request:
    it throws, or the payload has no [query.pages], or it has a first page
    with or without a [revisions] list; a continuation marker comes with
    the reply to the request it leads to. *)
#[warnings="-register-all"]
Inductive history_reply (num : Type) : Type :=
| HistoryThrows (e : error)
| HistoryNoPages
| HistoryPage (revisions : option (list (ApiRevision num)))
              (continuation : option (history_reply num)).
Arguments HistoryThrows {num} e.
Arguments HistoryNoPages {num}.
Arguments HistoryPage {num} revisions continuation.

Section HistoryFetcher.
Context {num : Type}.
Variable encodeURIComponent : string -> string.

(** The record pushed for a revision of the page. [getDiffs] is the constant
    [false], so its [diff] is null. *)
Definition revision_of_api (title : string) (revision : ApiRevision num) : Revision num :=
  {| revisionUrl := "https://en.wikipedia.org/w/index.php?title="
                    +:+ encodeURIComponent title +:+ "&oldid=" +:+ pretty (revid revision);
     articleUrl := "https://en.wikipedia.org/wiki/" +:+ encodeURIComponent title;
     userName := user revision;
     userId := userid revision;
     timestamp := api_timestamp revision;
     diff := None |}.

(** [r.diff = d]. *)
Definition set_diff (r : Revision num) (d : option string) : Revision num :=
  {| revisionUrl := revisionUrl r; articleUrl := articleUrl r;
     userName := userName r; userId := userId r;
     timestamp := timestamp r; diff := d |}.

(** [fetchPastRevisions], from the replies to its history requests and to
    the diff request of the locator (the same at every depth of the
    recursion: it is cached once it succeeds, and the first failure ends
    the call). The right-hand side of [revisions[0].diff = await ...] is
    evaluated before the assignment throws on an empty array. *)
Fixpoint fetchPastRevisions (revisionUrl : RevisionUrl) (reply : history_reply num)
    (diffReply : completion compare_payload) : completion (list (Revision num)) :=
  match truthy (title revisionUrl) with
  | None => Throw InvalidRevisionUrl
  | Some title =>
      match reply with
      | HistoryThrows e => Throw e
      | HistoryNoPages => Throw UnexpectedApiStructure
      | HistoryPage None _ => Throw TypeError
      | HistoryPage (Some page_revisions) continuation =>
          let revisions := map (revision_of_api title) page_revisions in
          nextRevisions ←
            match continuation with
            | Some reply' => fetchPastRevisions revisionUrl reply' diffReply
            | None => Normal []
            end;
          let revisions := rev (revisions ++ nextRevisions) in
          if negb getDiffs then
            diffText ← fetchDiffFromUrl revisionUrl diffReply;
            match revisions with
            | [] => Throw TypeError
            | r :: revisions' => Normal (set_diff r (Some diffText) :: revisions')
            end
          else Normal revisions
      end
  end.

End HistoryFetcher.

(** ** The feature assembler *)

Section FeatureAssembler.
Context {num : Type} `{!JsNumber num}.
Variable encodeURIComponent : string -> string.

(** [extractFeatures], from the replies of the three upstreams. The two
    arrays of gaps are fresh arrays of a heap of its own, which nothing
    else refers to. With an empty history every [filter] runs over the
    empty array without calling its callback, the statistics are computed
    and dropped, and reading [thisRevision.userId] for the risk scorer
    throws. *)
Definition extractFeatures (revisionUrl : RevisionUrl)
    (history : history_reply num) (diffReply : completion compare_payload)
    (endpoint : Z -> nat -> exchange (risk_payload num))
    : completion (object num) :=
  pastRevisions ← fetchPastRevisions encodeURIComponent revisionUrl history diffReply;
  match pastRevisions !! 0 with
  | None => Throw TypeError
  | Some thisRevision =>
      let pastRevisionsCount := length pastRevisions in
      let timesBetweenRevisions :=
        rev (differences (map timestamp pastRevisions)) in
      let timesBetweenUserRevisions :=
        rev (differences
               (map timestamp
                  (filter (fun revision => userId revision = userId thisRevision)
                          pastRevisions))) in
      let '(l1, h) := heap_alloc [] timesBetweenRevisions in
      let '(l2, h) := heap_alloc h timesBetweenUserRevisions in
      let '(timesBetweenRevisionsStats, h) :=
        extractDistributionStatistics "timeBetweenRevisions" l1 h in
      let '(timesBetweenUserRevisionsStats, h) :=
        extractDistributionStatistics "timeBetweenUserRevisions" l2 h in
      let averageTimeBetweenRevisions :=
        calculateAverageTimeBetweenRevisions pastRevisions in
      let pastRevisionsAuthoredByUser :=
        length (filter (fun revision => userId revision = userId thisRevision)
                       pastRevisions) in
      let averageTimeBetweenUserAuthoredRevisions :=
        calculateAverageTimeBetweenRevisions
          (filter (fun revision => userId revision = userId thisRevision)
                  pastRevisions) in
      revertRiskModelScore ←
        (fetchRevertRiskScore endpoint (userId thisRevision) 3).1;
      let percPastRevisionsAuthored :=
        num_div (num_of_nat pastRevisionsAuthoredByUser)
                (num_of_nat pastRevisionsCount) in
      let diffText :=
        match diff thisRevision with
        | Some d => VString d
        | None => VNull
        end in
      Normal
        (obj_literal
           ([ ("authorUserName", VString (userName thisRevision));
              ("pastRevisionsCount", VNumber (num_of_nat pastRevisionsCount));
              ("averageTimeBetweenRevisions", VNumber averageTimeBetweenRevisions);
              ("pastRevisionsAuthoredByUser",
               VNumber (num_of_nat pastRevisionsAuthoredByUser));
              ("revertRiskModelScore", revertRiskModelScore);
              ("percPastRevisionsAuthored", VNumber percPastRevisionsAuthored);
              ("averageTimeBetweenUserAuthoredRevisions",
               VNumber averageTimeBetweenUserAuthoredRevisions);
              ("diffText", diffText) ]
            ++ timesBetweenRevisionsStats
            ++ timesBetweenUserRevisionsStats))
  end.

End FeatureAssembler.

(** ** Batches *)

(** How [doInBatches] ends. [Diverges] stands for a loop that is still
    running when the fuel is spent. *)
Inductive batch_outcome (T R : Type) : Type :=
| Returns (result : list R) (batches : list (list T))
| Rejects (e : error)
| Diverges.
Arguments Returns {T R} result batches.
Arguments Rejects {T R} e.
Arguments Diverges {T R}.

Section Batches.
Context {T R : Type}.

(** [await Promise.all(promises)]: the values in the order of the
    promises, or a rejection. Which rejection wins is a matter of time;
    the leftmost stands for it. *)
Fixpoint Promise_all (promises : list (completion R)) : completion (list R) :=
  match promises with
  | [] => Normal []
  | p :: promises' =>
      r ← p;
      rs ← Promise_all promises';
      Normal (r :: rs)
  end.

(** The [for] loop of [doInBatches], one turn for each unit of fuel; next
    to the result it keeps the batches it issued. [ts.slice(i, i + n)] is
    [take n (drop i ts)]. *)
Fixpoint doInBatches_loop (fuel : nat) (fn : T -> completion R) (maxBatchSize : nat)
    (ts : list T) (i : nat) (result : list R) (batches : list (list T))
    : batch_outcome T R :=
  match fuel with
  | O => Diverges
  | S fuel' =>
      if decide (i < length ts) then
        let batch := take maxBatchSize (drop i ts) in
        let promises := map (fun t => fn t) batch in
        match Promise_all promises with
        | Normal values =>
            doInBatches_loop fuel' fn maxBatchSize ts (i + maxBatchSize)
              (result ++ values) (batches ++ [batch])
        | Throw e => Rejects e
        end
      else Returns result batches
  end.

(** [doInBatches]. With a batch size of at least 1 the index passes the
    length within [length ts] turns and one more turn leaves the loop. *)
Definition doInBatches (fn : T -> completion R) (maxBatchSize : nat) (ts : list T)
    : batch_outcome T R :=
  doInBatches_loop (S (length ts)) fn maxBatchSize ts 0 [] [].

End Batches.

(** ** Truthiness *)

(** [!!v] for a number: 0, -0 and NaN are falsy. It is what [v || d] and
    [v ? a : b] look at. *)
Class JsTruthy (num : Type) := num_truthy : num -> bool.

#[global] Instance binary64_truthy : JsTruthy float :=
  fun v => negb (PrimFloat.is_nan v || PrimFloat.eqb v PrimFloat.zero).

#[global] Instance exact_truthy : JsTruthy Exact.xreal :=
  fun v =>
    match v with
    | Exact.Fin r => if Req_dec_T r 0 then false else true
    | Exact.PInf | Exact.NInf => true
    | Exact.NaN => false
    end.

(** [!!v] for a value: [undefined], [null], the empty string and the falsy
    numbers are falsy. *)
Definition value_truthy {num} `{!JsTruthy num} (v : value num) : bool :=
  match v with
  | VUndefined | VNull => false
  | VNumber n => num_truthy n
  | VString s => negb (String.eqb s "")
  end.

(** ** Training and evaluation ([train.ts]) *)

Definition featureList : list string :=
  [ "averageTimeBetweenRevisions"; "revertRiskModelScore"; "percPastRevisionsAuthored";
    "timeBetweenRevisionsAverage"; "" ].

(** [list.includes(key)] on strings. *)
Definition includes (list : list string) (key : string) : bool :=
  existsb (String.eqb key) list.

(** The [switch] on [label.label], the encoding of the three labels. *)
Definition label_number (label : string) : Z :=
  if String.eqb label "INCREASES npov" then 1
  else if String.eqb label "DECREASES npov" then (-1)
  else 0.

Section Training.
Context {num : Type} `{!JsNumber num} `{!JsTruthy num}.

(** [Number(s)] for a string, which is what a cell of a CSV record is. *)
Variable Number_of_string : string -> num.

(** [Number(v)]. *)
Definition Number (v : value num) : num :=
  match v with
  | VUndefined => num_nan
  | VNull => num_of_Z 0
  | VNumber n => n
  | VString s => Number_of_string s
  end.

(** [mergeRevisionsAndLabels]: for each record the numbers of the
    properties that [featureList] names, in the order of the properties of
    the record ([for (const key in revision)]), and the labels encoded. *)
Definition mergeRevisionsAndLabels (revisions : list (object num)) (labels : list string)
    : list (list num) * list Z :=
  let features :=
    map (fun revision =>
           fold_left
             (fun featureArray key =>
                if negb (includes featureList key) then featureArray
                else featureArray ++ [Number (obj_get key revision)])
             (obj_keys revision) [])
        revisions in
  let featureLabels := map label_number labels in
  (features, featureLabels).

Record ClassStats : Type := mkClassStats {
  precision : num;
  recall : num;
  f1Score : num
}.

Record Stats : Type := mkStats {
  overallAccuracy : num;
  classStats : gmap Z ClassStats
}.

(** [x || 0]. *)
Definition or_zero (x : num) : num := if num_truthy x then x else num_of_Z 0.

(** The three counters of a class after the loop over the indices of
    [predictions]; [numericalLabels[i]] is [undefined] behind the end of the
    labels, which equals no class. *)
Definition class_counts (classVal : Z) (predictions numericalLabels : list Z)
    : nat * nat * nat :=
  fold_left
    (fun '(truePositives, falsePositives, falseNegatives) i =>
       let truePositives :=
         if decide (predictions !! i = Some classVal /\ numericalLabels !! i = Some classVal)
         then S truePositives else truePositives in
       let falsePositives :=
         if decide (predictions !! i = Some classVal /\ numericalLabels !! i <> Some classVal)
         then S falsePositives else falsePositives in
       let falseNegatives :=
         if decide (predictions !! i <> Some classVal /\ numericalLabels !! i = Some classVal)
         then S falseNegatives else falseNegatives in
       (truePositives, falsePositives, falseNegatives))
    (seq 0 (length predictions)) (0, 0, 0).

Definition class_stats (classVal : Z) (predictions numericalLabels : list Z) : ClassStats :=
  let '(truePositives, falsePositives, falseNegatives) :=
    class_counts classVal predictions numericalLabels in
  let precision :=
    or_zero (num_div (num_of_nat truePositives)
                     (num_add (num_of_nat truePositives) (num_of_nat falsePositives))) in
  let recall :=
    or_zero (num_div (num_of_nat truePositives)
                     (num_add (num_of_nat truePositives) (num_of_nat falseNegatives))) in
  let f1Score :=
    if num_gt0 (num_add precision recall)
    then num_div (num_mul (num_of_Z 2) (num_mul precision recall))
                 (num_add precision recall)
    else num_of_Z 0 in
  {| precision := precision; recall := recall; f1Score := f1Score |}.

(** [evaluate]. The decision tree [dt] is its [predict], from the feature
    rows to the predicted classes. *)
Definition evaluate (dt : list (list num) -> list Z) (revisions : list (object num))
    (labels : list string) : Stats :=
  let '(features, featureLabels) := mergeRevisionsAndLabels revisions labels in
  let predictions := dt features in
  let numericalLabels := map label_number labels in
  let classes := [1; -1; 0]%Z in
  let correct :=
    reduce_indexed
      (fun correct pred index =>
         if decide (Some pred = numericalLabels !! index) then S correct else correct)
      0 predictions in
  {| overallAccuracy := num_div (num_of_nat correct) (num_of_nat (length predictions));
     classStats :=
       fold_left
         (fun classStats classVal =>
            <[classVal := class_stats classVal predictions numericalLabels]> classStats)
         classes ∅ |}.

End Training.
Arguments ClassStats num : clear implicits.
Arguments Stats num : clear implicits.
Arguments mkClassStats {num}.
Arguments mkStats {num}.
Arguments precision {num}.
Arguments recall {num}.
Arguments f1Score {num}.
Arguments overallAccuracy {num}.
Arguments classStats {num}.

(** ** The command line driver ([cli.ts]) *)

Module Cli.

(** The [Revision] of the driver: a row of the revisions file. *)
Record Revision : Type := mkRevision {
  revisionUrl : string;
  articleUrl : string;
  diffUrl : string
}.

(** [ArticleMetadata]; [None] is the [undefined] of a property that the
    reply did not have. *)
Record ArticleMetadata : Type := mkArticleMetadata {
  title : option string;
  url : option string;
  length : option Z
}.

End Cli.

(** [s.split('/').pop()]: what follows the last ['/'] of [s], all of [s]
    when it has none. [current] is the segment that is being read. *)
Fixpoint split_pop_from (current s : string) : string :=
  match s with
  | EmptyString => current
  | String c s' =>
      if Ascii.eqb c "/" then split_pop_from EmptyString s'
      else split_pop_from (current +:+ String c EmptyString) s'
  end.

Definition split_pop (s : string) : string := split_pop_from EmptyString s.

(** [fetchRevisions], from what its [try] block meets: [Throw] when the
    request is rejected or the reply has no [query.pages], [Normal None] for
    a page without a [revisions] list, else the revision ids of the page in
    the order of the reply. A revision id of 0 is falsy. *)
Definition fetchRevisions (articleUrl : string) (reply : completion (option (list Z)))
    : list Cli.Revision :=
  let pageTitle := split_pop articleUrl in
  match reply with
  | Normal (Some revisions) =>
      imap
        (fun index revid_ =>
           let revisionUrl :=
             "https://en.wikipedia.org/w/index.php?title=" +:+ pageTitle
             +:+ "&oldid=" +:+ pretty revid_ in
           let prevRevisionId := revisions !! (index + 1) in
           let diffUrl :=
             match prevRevisionId with
             | Some prev =>
                 if (prev =? 0)%Z then ""
                 else "https://en.wikipedia.org/w/index.php?title=" +:+ pageTitle
                      +:+ "&type=revision&diff=" +:+ pretty revid_
                      +:+ "&oldid=" +:+ pretty prev
             | None => ""
             end in
           Cli.mkRevision revisionUrl articleUrl diffUrl)
        revisions
  | Normal None | Throw _ => []
  end.

Section RandomArticles.

(** The answer to the [k]-th request for ten random articles: the request
    is rejected or the reply has no [query.random], or it lists titles. *)
Variable random_reply : nat -> completion (list string).

(** What [fetchArticleMetadata] returns for a title at its [m]-th call:
    [None] is the null of a failed request. *)
Variable fetchArticleMetadata : nat -> string -> option Cli.ArticleMetadata.

(** [metadata && metadata.length >= minLength]. *)
Definition substantial (minLength : Z) (metadata : option Cli.ArticleMetadata) : bool :=
  match metadata with
  | Some metadata =>
      match Cli.length metadata with
      | Some articleLength => (minLength <=? articleLength)%Z
      | None => false
      end
  | None => false
  end.

(** The [for] loop over one reply; [m] counts the calls of
    [fetchArticleMetadata]. *)
Fixpoint scan_random_articles (n minLength : Z) (randomArticles : list string)
    (substantialArticles : list Cli.ArticleMetadata) (m : nat)
    : list Cli.ArticleMetadata * nat :=
  match randomArticles with
  | [] => (substantialArticles, m)
  | article :: randomArticles' =>
      if decide (n <= Z.of_nat (length substantialArticles))%Z
      then (substantialArticles, m)
      else
        let metadata := fetchArticleMetadata m article in
        let substantialArticles :=
          match metadata with
          | Some found =>
              if substantial minLength metadata
              then substantialArticles ++ [found] else substantialArticles
          | None => substantialArticles
          end in
        scan_random_articles n minLength randomArticles' substantialArticles (S m)
  end.

(** The [while] loop of [fetchSubstantialRandomArticles], one turn for each
    unit of fuel; [None] stands for a loop that is still running when the
    fuel is spent. [n] is an integer. *)
Fixpoint fetchSubstantialRandomArticles_loop (fuel : nat) (n minLength : Z)
    (substantialArticles : list Cli.ArticleMetadata) (k m : nat)
    : option (list Cli.ArticleMetadata) :=
  match fuel with
  | O => None
  | S fuel' =>
      if decide (Z.of_nat (length substantialArticles) < n)%Z then
        match random_reply k with
        | Normal randomArticles =>
            let '(substantialArticles, m) :=
              scan_random_articles n minLength randomArticles substantialArticles m in
            fetchSubstantialRandomArticles_loop fuel' n minLength substantialArticles (S k) m
        | Throw _ => Some substantialArticles
        end
      else Some substantialArticles
  end.

Definition fetchSubstantialRandomArticles (fuel : nat) (n minLength : Z)
    : option (list Cli.ArticleMetadata) :=
  fetchSubstantialRandomArticles_loop fuel n minLength [] 0 0.

End RandomArticles.

Section FeatureTable.
Context {num : Type} `{!JsNumber num} `{!JsTruthy num}.

(** [v || '']. *)
Definition or_empty (v : value num) : value num :=
  if value_truthy v then v else VString "".

(** The rows of the features file, from the [Map] of the feature sets. A
    key of the map is what [revisions[ind]] is: a string, or [undefined]
    ([None]) behind the end of the array. [Object.keys] of a missing feature
    set and a property read on one throw. *)
Definition features_table (revisions : list string)
    (features : gmap (option string) (object num))
    : completion (list (list (value num))) :=
  match features !! (revisions !! 0) with
  | None => Throw TypeError
  | Some first =>
      let featureNames := obj_keys first in
      rows ←
        mapM (fun revision =>
                cells ←
                  mapM (fun featureName =>
                          match features !! Some revision with
                          | None => Throw TypeError
                          | Some featureSet =>
                              Normal (or_empty (obj_get featureName featureSet))
                          end)
                       featureNames;
                Normal (VString revision :: cells))
             revisions;
      Normal ((VString "revisionUrl" :: map VString featureNames) :: rows)
  end.

(** The handler of [extract-features] that runs the extractions in batches
    of 5; [fn] is [extractFeatures] with its upstreams. [None] stands for a
    run that does not end. *)
Definition extract_features_in_batches (fn : string -> completion (object num))
    (revisions : list string) : option (completion (list (list (value num)))) :=
  match doInBatches fn 5 revisions with
  | Returns results _ =>
      let '(features, _) :=
        fold_left
          (fun '(features, ind) featureSet =>
             (<[revisions !! ind := featureSet]> features, S ind))
          results (∅, 0) in
      Some (features_table revisions features)
  | Rejects e => Some (Throw e)
  | Diverges => None
  end.

(** The handler of [extract-features] that runs one extraction after the
    other. *)
Definition extract_features_one_by_one (fn : string -> completion (object num))
    (revisions : list string) : completion (list (list (value num))) :=
  features ←
    fold_left
      (fun acc revision =>
         features ← acc;
         featureSet ← fn revision;
         Normal (<[Some revision := featureSet]> features))
      revisions (Normal ∅);
  features_table revisions features.

End FeatureTable.

(** * The vocabulary of the properties *)

(** ** Statistics of a sample *)

(** The sum of a sample, its arithmetic mean and its population standard
    deviation, as the specification words them. *)
Definition Rsum (xs : list R) : R := foldr Rplus 0%R xs.

Definition arithmetic_mean (xs : list R) : R := (Rsum xs / INR (length xs))%R.

Definition population_std_dev (xs : list R) : R :=
  sqrt (Rsum (map (fun x => (x - arithmetic_mean xs) * (x - arithmetic_mean xs))%R xs)
        / INR (length xs)).

(** [y] goes before [x]: the comparator [(a, b) => a - b] on finite numbers. *)
Definition Rgtb (x y : R) : bool := if Rlt_dec y x then true else false.

(** ** Batches *)

(** The sizes of the batches for [n] inputs: full batches and, when [n] is
    no multiple of the batch size, a last smaller one. *)
Definition batch_sizes (n maxBatchSize : nat) : list nat :=
  replicate (n / maxBatchSize) maxBatchSize
  ++ (if decide (n mod maxBatchSize = 0) then [] else [n mod maxBatchSize]).

(** ** Upstreams and traces *)

(** An upstream that signals its rate limit with status 429 and a body
    that is valid JSON. *)
Definition json_rate_limiter : string -> nat -> exchange string :=
  fun _ _ => Responds 429 (Normal "too many requests").

(** The response is a rate-limit signal. *)
Definition rate_limited {payload} (x : exchange payload) : bool :=
  match x with
  | Responds status _ => (status =? 429)%Z
  | FetchRejects _ => false
  end.

(** The score an exchange delivers, if it delivers one. *)
Definition score_of {num} (x : exchange (risk_payload num)) : option (value num) :=
  match x with
  | Responds status (Normal (RiskProbabilities p)) =>
      if (status =? 429)%Z then None else Some p
  | _ => None
  end.

(** What one attempt does: a request, and a wait of 10 seconds behind a
    rate-limit signal. *)
Definition attempt_events {payload} (x : exchange payload) : list event :=
  if rate_limited x then [EvFetch riskApiUrl; EvSleep 10000] else [EvFetch riskApiUrl].

(** A wait between any two attempts, as the specification words it: no
    request directly behind a request. *)
Fixpoint waits_between_attempts (tr : list event) : bool :=
  match tr with
  | EvFetch _ :: ((EvFetch _ :: _) as tr') => false
  | _ :: tr' => waits_between_attempts tr'
  | [] => true
  end.

(** The events of the attempts [k], ..., [k + n - 1] on an endpoint. *)
Definition attempts_trace {num} (endpoint : Z -> nat -> exchange (risk_payload num))
    (revisionId : Z) (k n : nat) : list event :=
  concat (map (fun j => attempt_events (endpoint revisionId j)) (seq k n)).

(** How many of these attempts meet a rate-limit signal. *)
Definition rate_limited_count {num} (endpoint : Z -> nat -> exchange (risk_payload num))
    (revisionId : Z) (k n : nat) : nat :=
  length (List.filter (fun j => rate_limited (endpoint revisionId j)) (seq k n)).

(** An endpoint that cannot be reached: every [fetch] rejects. *)
Definition unreachable_endpoint : Z -> nat -> exchange (risk_payload float) :=
  fun _ _ => FetchRejects TransportError.

(** ** Histories *)

(** Newest first: the timestamps do not increase along the array. *)
Fixpoint newest_first (timestamps : list float) : bool :=
  match timestamps with
  | a :: (b :: _) as timestamps' => PrimFloat.leb b a && newest_first timestamps'
  | _ => true
  end.

Definition timestamps_of (c : completion (list (Revision float))) : completion (list float) :=
  revisions ← c; Normal (map timestamp revisions).

(** The locator and the diff reply of the evaluations. *)
Definition a_revision_url : RevisionUrl := mkRevisionUrl (Some "T") (Some "3").
Definition a_diff_reply : completion compare_payload :=
  Normal (Compare (Some "<pre>-a</pre>")).

(** A history of one page, newest revision first, as the API lists it. *)
Definition two_revisions : history_reply float :=
  HistoryPage (Some [mkApiRevision 2 "A" 7 200%float; mkApiRevision 1 "B" 8 100%float]) None.

(** A history of three pages, newest revision first in each page, each
    page older than the one before. *)
Definition three_pages : history_reply float :=
  HistoryPage (Some [mkApiRevision 9 "A" 7 9%float; mkApiRevision 8 "A" 7 8%float;
                     mkApiRevision 7 "A" 7 7%float])
    (Some (HistoryPage (Some [mkApiRevision 6 "A" 7 6%float; mkApiRevision 5 "A" 7 5%float;
                              mkApiRevision 4 "A" 7 4%float])
       (Some (HistoryPage (Some [mkApiRevision 3 "A" 7 3%float; mkApiRevision 2 "A" 7 2%float;
                                 mkApiRevision 1 "A" 7 1%float]) None)))).

(** ** Feature records *)

(** The field names of a feature record, in the order of the record. *)
Definition feature_names : list string :=
  [ "authorUserName"; "pastRevisionsCount"; "averageTimeBetweenRevisions";
    "pastRevisionsAuthoredByUser"; "revertRiskModelScore";
    "percPastRevisionsAuthored"; "averageTimeBetweenUserAuthoredRevisions";
    "diffText";
    "timeBetweenRevisionsAverage"; "timeBetweenRevisionsMedian";
    "timeBetweenRevisionsQ1"; "timeBetweenRevisionsQ3";
    "timeBetweenRevisionsStdDev";
    "timeBetweenUserRevisionsAverage"; "timeBetweenUserRevisionsMedian";
    "timeBetweenUserRevisionsQ1"; "timeBetweenUserRevisionsQ3";
    "timeBetweenUserRevisionsStdDev" ].

(** The ten distribution fields among them. *)
Definition distribution_names : list string := drop 8 feature_names.

(** The statistics of the sample of the gaps 100 and 150, on binary64. *)
Definition gaps_100_150_stats : object float :=
  (extractDistributionStatistics "timeBetweenUserRevisions" 0 [[100; 150]%float]).1.

(** ** Runs of the retry controller *)

(** What a run of [fetchWithRetry] that met [n] rate-limit signals did:
    [n] requests, each followed by a wait of 10 seconds, and one more
    request. *)
Definition retry_trace (url : string) (n : nat) : list event :=
  concat (replicate n [EvFetch url; EvSleep 10000]) ++ [EvFetch url].

(** Every request of a trace goes to [url]. *)
Definition fetches_only (url : string) (tr : list event) : Prop :=
  Forall (fun ev => match ev with EvFetch u => u = url | EvSleep _ => True end) tr.

(** An upstream that signals its rate limit, with a body that does not
    parse, to the first [n] requests and then answers with the payload
    ["ok"]. *)
Definition recovering_upstream (n : nat) : string -> nat -> exchange string :=
  fun _ k => if decide (k < n) then Responds 429 (Throw ParseError)
             else Responds 200 (Normal "ok").

(** An endpoint that signals its rate limit to the first attempt, fails
    the second and delivers the score 0.25 from the third attempt on. *)
Definition late_endpoint : Z -> nat -> exchange (risk_payload float) :=
  fun _ attempt =>
    match attempt with
    | 0 => Responds 429 (Throw ParseError)
    | 1 => FetchRejects TransportError
    | _ => Responds 200 (Normal (RiskProbabilities (VNumber 0.25%float)))
    end.

(** A history of several pages: the replies to the requests for [pages],
    each with a continuation marker, and then [last], the reply to the
    request the last marker leads to. *)
Fixpoint history_chain {num} (pages : list (list (ApiRevision num)))
    (last : history_reply num) : history_reply num :=
  match pages with
  | [] => last
  | page :: pages' => HistoryPage (Some page) (Some (history_chain pages' last))
  end.

(** A function that rejects on [7] and resolves with the square elsewhere. *)
Definition square_but_7 (t : nat) : completion nat :=
  if decide (t = 7) then Throw TransportError else Normal (t * t).



(** ** Evaluation on exact numbers *)

(** The quotient of two counters, with [|| 0] behind it: [a / (a + b)], and
    0 when there is nothing to divide. *)
Definition ratio (a b : nat) : R :=
  if decide (a = 0) then 0%R else (INR a / INR (a + b))%R.

(** The harmonic mean of the evaluation, 0 when both numbers are 0. *)
Definition harmonic (p r : R) : R :=
  if Rlt_dec 0 (p + r) then (2 * (p * r) / (p + r))%R else 0%R.

(** The character [c] occurs in [s]. *)
Fixpoint string_mem (c : ascii) (s : string) : bool :=
  match s with
  | EmptyString => false
  | String c' s' => Ascii.eqb c c' || string_mem c s'
  end.

(** A supply of random articles in which every reply lists the short
    article ["B"] and the long article ["A"]. *)
Definition two_random_articles : nat -> completion (list string) :=
  fun _ => Normal ["B"; "A"].

Definition metadata_by_title : nat -> string -> option Cli.ArticleMetadata :=
  fun _ title =>
    Some (Cli.mkArticleMetadata (Some title) (Some ("https://en.wikipedia.org/wiki/" +:+ title))
            (Some (if String.eqb title "A" then 30000 else 10)%Z)).

(** What is true of the array of articles all along. *)
Definition collected (n minLength : Z) (articles : list Cli.ArticleMetadata) : Prop :=
  Forall (fun article => exists articleLength,
            Cli.length article = Some articleLength /\ (minLength <= articleLength)%Z)
         articles /\
  (Z.of_nat (length articles) <= Z.max 0 n)%Z.

(** An extractor that fails on no URL: its record has the two fields
    [a], the length of the URL, and [b], always 0. *)
Definition length_features (revision : string) : object float :=
  [("a", VNumber (F64.of_Z (Z.of_nat (String.length revision)))); ("b", VNumber 0%float)].

(** ** Samples on which binary64 rounds *)

(** The binary64 number next to one tenth. *)
Definition tenth : float := (1 / 10)%float.

(** Three times that number: the sum of the three rounds up. *)
Definition three_tenths : list float := [tenth; tenth; tenth].


(** The numbers 2^53, 1 and 1 in two orders: added to 2^53 a 1 is lost,
    added to each other first the two are kept. *)
Definition big_first : list float := [9007199254740992; 1; 1]%float.
Definition big_last : list float := [1; 1; 9007199254740992]%float.

(** * Properties *)

(** ** Sorting *)

Section SortFacts.
Context {A : Type}.
Implicit Types (comparefn : A -> A -> bool) (l : list A).

Lemma sort_insert_perm comparefn x l :
  Permutation (sort_insert comparefn x l) (x :: l).
Proof.
  induction l as [|y l IH]; simpl; [reflexivity|].
  destruct (comparefn x y); [|reflexivity].
  rewrite IH. apply perm_swap.
Qed.

Lemma stable_sort_perm comparefn l : Permutation (stable_sort comparefn l) l.
Proof.
  induction l as [|x l IH]; simpl; [reflexivity|].
  rewrite sort_insert_perm. by constructor.
Qed.

Lemma stable_sort_length comparefn l : length (stable_sort comparefn l) = length l.
Proof. apply Permutation_length, stable_sort_perm. Qed.

(** A comparator that decides a total relation sorts by it. *)
Section Ordered.
Variables (comparefn : A -> A -> bool) (le : A -> A -> Prop).
Hypothesis comparefn_false : forall x y, comparefn x y = false -> le x y.
Hypothesis comparefn_true : forall x y, comparefn x y = true -> le y x.

Lemma sort_insert_HdRel y x l :
  HdRel le y l -> le y x -> HdRel le y (sort_insert comparefn x l).
Proof using Type.
  intros Hl Hx. destruct l as [|z l]; simpl; [by constructor|].
  destruct (comparefn x z); constructor; [by inversion Hl | done].
Qed.

Lemma sort_insert_sorted x l :
  Sorted le l -> Sorted le (sort_insert comparefn x l).
Proof using comparefn_false comparefn_true.
  induction 1 as [|y l Hs IH Hd]; simpl; [repeat constructor|].
  destruct (comparefn x y) eqn:E.
  - constructor; [done|]. apply sort_insert_HdRel; auto.
  - repeat constructor; auto.
Qed.

Lemma stable_sort_sorted l : Sorted le (stable_sort comparefn l).
Proof using comparefn_false comparefn_true.
  induction l as [|x l IH]; simpl; [constructor|].
  by apply sort_insert_sorted.
Qed.
End Ordered.

End SortFacts.

Lemma stable_sort_map {A B} (f : A -> B) (c : A -> A -> bool) (c' : B -> B -> bool) l :
  (forall x y, c' (f x) (f y) = c x y) ->
  stable_sort c' (map f l) = map f (stable_sort c l).
Proof.
  intros Hc. induction l as [|x l IH]; simpl; [done|].
  rewrite IH. generalize (stable_sort c l) as s.
  induction s as [|y s IHs]; simpl; [done|].
  rewrite Hc. destruct (c x y); simpl; by rewrite ?IHs.
Qed.

(** A sample has one ascending arrangement. *)
Lemma sorted_perm_unique (l1 l2 : list R) :
  Sorted Rle l1 -> Sorted Rle l2 -> Permutation l1 l2 -> l1 = l2.
Proof.
  intros H1 H2. apply Sorted_StronglySorted in H1, H2;
    try (intros x y z; apply Rle_trans).
  revert l2 H2. induction H1 as [|a l1 Hs1 IH Ha]; intros l2 H2 Hp.
  - by apply Permutation_nil in Hp.
  - destruct H2 as [|b l2 Hs2 Hb].
    + symmetry in Hp. by apply Permutation_nil in Hp.
    + assert (a = b) as ->.
      { assert (In a (b :: l2)) as [->|Hin]
          by (eapply Permutation_in; [exact Hp|by left]); [done|].
        assert (In b (a :: l1)) as [->|Hin']
          by (eapply Permutation_in; [symmetry; exact Hp|by left]); [done|].
        rewrite Forall_forall in Ha, Hb.
        apply Rle_antisym;
          [apply Ha, list_elem_of_In, Hin' | apply Hb, list_elem_of_In, Hin]. }
      f_equal. apply IH; [done|]. by apply Permutation_cons_inv in Hp.
Qed.

(** ** The heap *)

Lemma heap_read_lookup {num} (h : heap num) l a : h !! l = Some a -> heap_read h l = a.
Proof. unfold heap_read. by intros ->. Qed.

Lemma heap_read_write {num} (h : heap num) l a b :
  h !! l = Some a -> heap_read (heap_write h l b) l = b.
Proof.
  intros H. unfold heap_read, heap_write.
  rewrite list_lookup_insert_eq; [done|]. by eapply lookup_lt_Some.
Qed.

Lemma heap_write_other {num} (h : heap num) l l' b :
  l <> l' -> heap_write h l b !! l' = h !! l'.
Proof. intros H. by apply list_lookup_insert_ne. Qed.

(** ** The property names of a statistics object *)

Lemma append_inj_r (p a b : string) : p +:+ a = p +:+ b -> a = b.
Proof. induction p as [|c p IH]; simpl; [done|]. intros [=]. auto. Qed.

Lemma append_eqb_r (p a b : string) : String.eqb (p +:+ a) (p +:+ b) = String.eqb a b.
Proof.
  destruct (String.eqb_spec a b) as [->|Hne].
  - apply String.eqb_refl.
  - apply String.eqb_neq. intros H. by apply append_inj_r in H.
Qed.

(** The five names differ for every base name, so the literal keeps all
    five properties in their order. *)
Lemma stats_object_eq {num} `{!JsNumber num} base (average : num) median q1 q3 stdDev :
  stats_object base average median q1 q3 stdDev
  = [ (base +:+ "Average", VNumber average);
      (base +:+ "Median", median);
      (base +:+ "Q1", q1);
      (base +:+ "Q3", q3);
      (base +:+ "StdDev", VNumber stdDev) ].
Proof.
  unfold stats_object, obj_literal. simpl.
  repeat (rewrite !append_eqb_r; simpl). reflexivity.
Qed.

(** On every number type: the average is the left-to-right sum over the
    length, the median and the quartiles are the elements at the three
    positions of the array that the sort leaves, a rearrangement of the
    sample, and the sort is written back to the location of the sample. *)
Lemma extractDistributionStatistics_any_number {num} `{!JsNumber num} base nums
    (h : heap num) (sample : list num) :
  h !! nums = Some sample ->
  Permutation (Array_sort (fun a b => num_sub a b) sample) sample /\
  extractDistributionStatistics base nums h
  = let sorted := Array_sort (fun a b => num_sub a b) sample in
    let average :=
      num_div (fold_left (fun acc n => num_add acc n) sample (num_of_Z 0))
              (num_of_nat (length sample)) in
    ([ (base +:+ "Average", VNumber average);
       (base +:+ "Median", array_get sorted (length sample / 2));
       (base +:+ "Q1", array_get sorted (length sample / 4));
       (base +:+ "Q3", array_get sorted (length sample * 3 / 4));
       (base +:+ "StdDev",
        VNumber
          (num_sqrt
             (num_div
                (fold_left (fun acc n => num_add acc (Math_pow2 (num_sub n average)))
                           sorted (num_of_Z 0))
                (num_of_nat (length sample))))) ],
     heap_write h nums sorted).
Proof.
  intros Hh. split; [apply stable_sort_perm|].
  unfold extractDistributionStatistics.
  rewrite (heap_read_lookup _ _ _ Hh), (heap_read_write _ _ _ _ Hh).
  unfold Array_sort. rewrite stable_sort_length, stats_object_eq. done.
Qed.

(** ** The statistics on exact numbers *)

Section ExactFacts.
Import Exact.

Lemma map_Fin_inj (xs ys : list R) : map Fin xs = map Fin ys -> xs = ys.
Proof.
  revert ys. induction xs as [|x xs IH]; intros [|y ys]; simpl; try done.
  intros [= -> E]. f_equal. by apply IH.
Qed.

Lemma Rsum_perm xs ys : Permutation xs ys -> Rsum xs = Rsum ys.
Proof.
  induction 1; unfold Rsum in *; simpl; lra.
Qed.

Lemma Rsum_squares_nonneg (f : R -> R) xs : (0 <= Rsum (map (fun x => f x * f x) xs))%R.
Proof.
  induction xs as [|x xs IH]; unfold Rsum in *; simpl; [lra|].
  pose proof (Rle_0_sqr (f x)) as H. unfold Rsqr in H. lra.
Qed.

Lemma exact_reduce_sum xs a :
  fold_left (fun acc n => num_add acc n) (map Fin xs) (Fin a) = Fin (a + Rsum xs).
Proof.
  revert a. induction xs as [|x xs IH]; intros a; simpl.
  - f_equal. unfold Rsum; simpl. lra.
  - rewrite IH. f_equal. unfold Rsum; simpl. lra.
Qed.

Lemma exact_reduce_squares avg xs a :
  fold_left (fun acc n => num_add acc (Math_pow2 (num_sub n (Fin avg))))
            (map Fin xs) (Fin a)
  = Fin (a + Rsum (map (fun x => (x - avg) * (x - avg))%R xs)).
Proof.
  revert a. induction xs as [|x xs IH]; intros a; simpl.
  - f_equal. unfold Rsum; simpl. lra.
  - rewrite IH. f_equal. unfold Rsum; simpl. lra.
Qed.

Lemma exact_div_length (s : R) (n : nat) :
  n <> 0 -> num_div (Fin s) (num_of_nat n) = Fin (s / INR n).
Proof.
  intros Hn. unfold num_of_nat. simpl. rewrite <- INR_IZR_INZ.
  destruct (Req_dec_T (INR n) 0) as [E|_]; [|done].
  exfalso. by apply (not_0_INR n).
Qed.

Lemma exact_comparator x y : num_gt0 (num_sub (Fin x) (Fin y)) = Rgtb x y.
Proof.
  unfold Rgtb. simpl.
  destruct (Rlt_dec 0 (x + - y)), (Rlt_dec y x); try done; lra.
Qed.

Lemma exact_sort xs :
  Array_sort (fun a b => num_sub a b) (map Fin xs) = map Fin (stable_sort Rgtb xs).
Proof. apply stable_sort_map, exact_comparator. Qed.

Lemma Rgtb_sorted xs : Sorted Rle (stable_sort Rgtb xs).
Proof.
  apply stable_sort_sorted; intros x y; unfold Rgtb;
    destruct (Rlt_dec y x); intros; try done; lra.
Qed.

Lemma exact_array_get xs i :
  i < length xs -> array_get (map Fin xs) i = VNumber (Fin (nth i xs 0%R)).
Proof.
  intros Hi. unfold array_get. rewrite list_lookup_fmap.
  destruct (xs !! i) as [x|] eqn:E.
  - simpl. do 2 f_equal. symmetry. by apply nth_lookup_Some with (d := 0%R) in E.
  - apply lookup_ge_None in E. lia.
Qed.

End ExactFacts.

(** What [extractDistributionStatistics] returns and leaves in the heap for
    a sample of finite numbers, in closed form. *)
Lemma distribution_statistics_closed_form base (xs : list R) (nums : loc)
    (h : heap Exact.xreal) :
  xs <> [] ->
  h !! nums = Some (map Exact.Fin xs) ->
  let sorted := stable_sort Rgtb xs in
  extractDistributionStatistics base nums h
  = ([ (base +:+ "Average", VNumber (Exact.Fin (arithmetic_mean xs)));
       (base +:+ "Median", VNumber (Exact.Fin (nth (length xs / 2) sorted 0%R)));
       (base +:+ "Q1", VNumber (Exact.Fin (nth (length xs / 4) sorted 0%R)));
       (base +:+ "Q3", VNumber (Exact.Fin (nth (length xs * 3 / 4) sorted 0%R)));
       (base +:+ "StdDev", VNumber (Exact.Fin (population_std_dev xs))) ],
     heap_write h nums (map Exact.Fin sorted)).
Proof.
  intros Hne Hh sorted.
  assert (length xs <> 0) as Hlen by (destruct xs; simpl; [done|lia]).
  assert (length sorted = length xs) as Hsl by apply stable_sort_length.
  unfold extractDistributionStatistics.
  rewrite (heap_read_lookup _ _ _ Hh), exact_sort.
  rewrite (heap_read_write _ _ _ _ Hh). fold sorted.
  rewrite !length_map, Hsl, stats_object_eq.
  change (@num_of_Z Exact.xreal _ 0) with (Exact.Fin 0).
  rewrite !exact_reduce_sum, !exact_div_length by done.
  rewrite !exact_reduce_squares, !exact_div_length by done.
  rewrite !exact_array_get by
    (rewrite Hsl; first [apply Nat.div_lt; lia | apply Nat.Div0.div_lt_upper_bound; lia]).
  replace (0 + Rsum xs)%R with (Rsum xs) by lra.
  fold (arithmetic_mean xs).
  rewrite (Rsum_perm (map _ sorted) (map (fun x => (x - arithmetic_mean xs)
                                               * (x - arithmetic_mean xs))%R xs))
    by apply Permutation_map, stable_sort_perm.
  f_equal. repeat f_equal.
  simpl. rewrite Rplus_0_l.
  destruct (Rlt_dec _ 0) as [Hneg|_]; [|done].
  exfalso. revert Hneg. apply Rle_not_lt.
  apply Rmult_le_pos; [apply (Rsum_squares_nonneg (fun x => x - arithmetic_mean xs)%R)|].
  left. apply Rinv_0_lt_compat, lt_0_INR. lia.
Qed.




(** C5. The function is total, so no sample makes it throw. On a sample of
    one finite number the average, the median and both quartiles are that
    number and the standard deviation is 0; on the empty sample the average
    and the standard deviation are NaN (and the positional statistics are
    undefined), on exact numbers and on binary64 alike. *)
Theorem extractDistributionStatistics_degenerate base :
  (forall x : R,
     (extractDistributionStatistics base 0 [[Exact.Fin x]]).1
     = [ (base +:+ "Average", VNumber (Exact.Fin x));
         (base +:+ "Median", VNumber (Exact.Fin x));
         (base +:+ "Q1", VNumber (Exact.Fin x));
         (base +:+ "Q3", VNumber (Exact.Fin x));
         (base +:+ "StdDev", VNumber (Exact.Fin 0)) ]) /\
  (extractDistributionStatistics base 0 [[]]).1
  = [ (base +:+ "Average", VNumber Exact.NaN);
      (base +:+ "Median", VUndefined);
      (base +:+ "Q1", VUndefined);
      (base +:+ "Q3", VUndefined);
      (base +:+ "StdDev", VNumber Exact.NaN) ] /\
  (extractDistributionStatistics base 0 [[]]).1
  = [ (base +:+ "Average", VNumber PrimFloat.nan);
      (base +:+ "Median", VUndefined);
      (base +:+ "Q1", VUndefined);
      (base +:+ "Q3", VUndefined);
      (base +:+ "StdDev", VNumber PrimFloat.nan) ].
Proof.
  split; [|split].
  - intros x.
    rewrite (distribution_statistics_closed_form base [x] 0 [[Exact.Fin x]])
      by done.
    simpl. unfold population_std_dev, arithmetic_mean, Rsum. simpl.
    replace ((x + 0) / 1)%R with x by lra.
    replace (((x - x) * (x - x) + 0) / 1)%R with 0%R by lra.
    by rewrite sqrt_0.
  - unfold extractDistributionStatistics. rewrite stats_object_eq. simpl.
    unfold Exact.inf_of_sign.
    destruct (Req_dec_T _ 0) as [_|Hne]; [|by destruct Hne].
    destruct (Rlt_dec 0 0) as [Hlt|_]; [lra|]. reflexivity.
  - unfold extractDistributionStatistics. rewrite stats_object_eq. reflexivity.
Qed.

(** C9. The sort is done on the caller's array: after the call the location
    passed in holds the sample sorted ascending, every other array is
    untouched, and unless the sample was ascending already the caller's
    array has changed. *)
Theorem extractDistributionStatistics_sorts_in_place base (xs : list R) (nums : loc)
    (h : heap Exact.xreal) :
  h !! nums = Some (map Exact.Fin xs) ->
  exists sorted : list R,
    Permutation sorted xs /\ Sorted Rle sorted /\
    (extractDistributionStatistics base nums h).2 !! nums = Some (map Exact.Fin sorted) /\
    (forall l : loc, l <> nums ->
       (extractDistributionStatistics base nums h).2 !! l = h !! l) /\
    (~ Sorted Rle xs ->
       (extractDistributionStatistics base nums h).2 !! nums <> h !! nums).
Proof.
  intros Hh. exists (stable_sort Rgtb xs).
  assert ((extractDistributionStatistics base nums h).2
          = heap_write h nums (map Exact.Fin (stable_sort Rgtb xs))) as ->.
  { unfold extractDistributionStatistics. simpl.
    by rewrite (heap_read_lookup _ _ _ Hh), exact_sort. }
  assert (heap_write h nums (map Exact.Fin (stable_sort Rgtb xs)) !! nums
          = Some (map Exact.Fin (stable_sort Rgtb xs))) as Hw.
  { apply list_lookup_insert_eq. by eapply lookup_lt_Some. }
  split; [apply stable_sort_perm|]. split; [apply Rgtb_sorted|].
  split; [done|]. split.
  - intros l Hl. by apply heap_write_other.
  - intros Hns. rewrite Hw, Hh. intros [= E]. apply Hns.
    apply map_Fin_inj in E. rewrite <- E. apply Rgtb_sorted.
Qed.

(** The array 3, 1, 2 at location 0. *)
Lemma extractDistributionStatistics_sorts_in_place_witness :
  [map Exact.Fin [3; 1; 2]%R] !! 0 = Some (map Exact.Fin [3; 1; 2]%R) /\
  exists sorted : list R,
    Permutation sorted [3; 1; 2]%R /\ Sorted Rle sorted /\
    (extractDistributionStatistics "t" 0 [map Exact.Fin [3; 1; 2]%R]).2 !! 0
    = Some (map Exact.Fin sorted) /\
    (forall l : loc, l <> 0 ->
       (extractDistributionStatistics "t" 0 [map Exact.Fin [3; 1; 2]%R]).2 !! l
       = [map Exact.Fin [3; 1; 2]%R] !! l) /\
    (~ Sorted Rle [3; 1; 2]%R ->
       (extractDistributionStatistics "t" 0 [map Exact.Fin [3; 1; 2]%R]).2 !! 0
       <> [map Exact.Fin [3; 1; 2]%R] !! 0).
Proof.
  split; [reflexivity|].
  apply (extractDistributionStatistics_sorts_in_place "t" [3; 1; 2]%R 0
           [map Exact.Fin [3; 1; 2]%R]).
  reflexivity.
Defined.

(** ** Batches *)

Lemma batch_sizes_step n b :
  0 < b -> 0 < n -> batch_sizes n b = (n `min` b) :: batch_sizes (n - b) b.
Proof.
  intros Hb Hn. unfold batch_sizes.
  destruct (decide (b <= n)) as [Hle|Hgt].
  - remember (n - b) as m eqn:Hm.
    assert (n = m + 1 * b) as -> by lia.
    rewrite Nat.div_add, Nat.Div0.mod_add by lia.
    replace (m / b + 1) with (S (m / b)) by lia.
    simpl. f_equal. lia.
  - rewrite (Nat.div_small n b), (Nat.mod_small n b) by lia.
    replace (n - b) with 0 by lia.
    rewrite Nat.Div0.div_0_l, Nat.Div0.mod_0_l. simpl.
    destruct (decide (n = 0)); [lia|].
    f_equal. lia.
Qed.

Lemma batch_sizes_length n b :
  0 < b -> length (batch_sizes n b) = (n + b - 1) / b.
Proof.
  intros Hb. unfold batch_sizes.
  rewrite length_app, length_replicate.
  pose proof (Nat.div_mod_eq n b) as Hdm.
  pose proof (Nat.mod_upper_bound n b ltac:(lia)) as Hm.
  destruct (decide (n mod b = 0)) as [E|E]; simpl.
  - apply (Nat.div_unique _ _ _ (b - 1)); lia.
  - apply (Nat.div_unique _ _ _ (n mod b - 1)); lia.
Qed.

Lemma batch_sizes_full n b k s :
  batch_sizes n b !! k = Some s -> S k < length (batch_sizes n b) -> s = b.
Proof.
  unfold batch_sizes. intros Hk Hlt.
  rewrite length_app, length_replicate in Hlt.
  assert (k < n / b) as Hkn by (destruct (decide (n mod b = 0)); simpl in Hlt; lia).
  rewrite lookup_app_l in Hk by (by rewrite length_replicate).
  apply lookup_replicate in Hk. by destruct Hk.
Qed.

Section BatchFacts.
Context {T R : Type}.
Variables (fn : T -> completion R) (g : T -> R).

Lemma Promise_all_resolved (batch : list T) :
  (forall t, t ∈ batch -> fn t = Normal (g t)) ->
  Promise_all (map (fun t => fn t) batch) = Normal (map g batch).
Proof using Type.
  induction batch as [|t batch IH]; intros H; simpl; [done|].
  rewrite H by left. simpl. rewrite IH; [done|].
  intros t' Ht'. apply H. by right.
Qed.

(** The loop from index [i] on, with fuel for the turns that are left. *)
Lemma doInBatches_loop_returns (b : nat) (ts : list T) :
  0 < b ->
  (forall t, t ∈ ts -> fn t = Normal (g t)) ->
  forall fuel i result batches,
    length ts - i < fuel ->
    exists bs,
      doInBatches_loop fuel fn b ts i result batches
      = Returns (result ++ map g (drop i ts)) (batches ++ bs) /\
      concat bs = drop i ts /\
      map length bs = batch_sizes (length ts - i) b.
Proof using Type.
  intros Hb Hfn. induction fuel as [|fuel IH]; intros i result batches Hfuel; [lia|].
  simpl. destruct (decide (i < length ts)) as [Hi|Hi].
  - rewrite Promise_all_resolved.
    2: { intros t Ht. apply Hfn. by eapply subseteq_drop, subseteq_take. }
    destruct (IH (i + b) (result ++ map g (take b (drop i ts)))
                 (batches ++ [take b (drop i ts)]) ltac:(lia))
      as (bs & -> & Hcat & Hlen).
    exists (take b (drop i ts) :: bs). split; [|split].
    + f_equal.
      * rewrite <- app_assoc, <- map_app. do 2 f_equal.
        rewrite <- drop_drop, take_drop. done.
      * by rewrite <- app_assoc.
    + simpl. rewrite Hcat, <- drop_drop. apply take_drop.
    + simpl. rewrite Hlen, length_take, length_drop.
      rewrite (batch_sizes_step (length ts - i) b) by lia.
      f_equal; [lia|]. f_equal. lia.
  - exists []. rewrite drop_ge by lia. simpl.
    rewrite !app_nil_r. split; [done|]. split; [done|].
    replace (length ts - i) with 0 by lia.
    unfold batch_sizes. rewrite Nat.Div0.div_0_l, Nat.Div0.mod_0_l. done.
Qed.

End BatchFacts.

Lemma batch_sizes_bounds n b k s :
  0 < b -> batch_sizes n b !! k = Some s -> 0 < s <= b.
Proof.
  unfold batch_sizes. intros Hb Hk.
  apply lookup_app_Some in Hk as [Hk|[_ Hk]].
  - apply lookup_replicate in Hk as [-> _]. lia.
  - pose proof (Nat.mod_upper_bound n b ltac:(lia)).
    destruct (decide (n mod b = 0)); [done|].
    apply list_lookup_singleton_Some in Hk as [_ <-]. lia.
Qed.

(** C10. With a batch size of at least 1 and a function that resolves on
    every input, [doInBatches] returns; the batches it issued are the input
    cut in order into ceil(|ts| / size) pieces, each of the given size but
    for a last one that may be smaller (sizes 5, 5, 2 for 12 inputs in
    batches of 5); and the result has the length of the input with [fn] of
    the i-th input at index i. *)
Theorem doInBatches_batches_and_order {T R : Type} (fn : T -> completion R)
    (g : T -> R) (maxBatchSize : nat) (ts : list T) :
  0 < maxBatchSize ->
  (forall t, t ∈ ts -> fn t = Normal (g t)) ->
  exists result batches,
    doInBatches fn maxBatchSize ts = Returns result batches /\
    concat batches = ts /\
    length batches = (length ts + maxBatchSize - 1) / maxBatchSize /\
    (forall k batch, batches !! k = Some batch ->
       0 < length batch <= maxBatchSize /\
       (S k < length batches -> length batch = maxBatchSize)) /\
    (length ts = 12 -> maxBatchSize = 5 -> map length batches = [5; 5; 2]) /\
    length result = length ts /\
    (forall i t, ts !! i = Some t -> result !! i = Some (g t)).
Proof.
  intros Hb Hfn.
  destruct (doInBatches_loop_returns fn g maxBatchSize ts Hb Hfn
              (S (length ts)) 0 [] [] ltac:(lia)) as (bs & Hrun & Hcat & Hsizes).
  rewrite drop_0, Nat.sub_0_r in *. simpl in Hrun.
  exists (map g ts), bs. split; [exact Hrun|]. split; [exact Hcat|].
  assert (length bs = length (batch_sizes (length ts) maxBatchSize)) as Hlen
    by (by rewrite <- Hsizes, length_map).
  split; [by rewrite Hlen, batch_sizes_length|]. split.
  { intros k batch Hk.
    assert (batch_sizes (length ts) maxBatchSize !! k = Some (length batch)) as Hs
      by (by rewrite <- Hsizes, list_lookup_fmap, Hk).
    split; [by eapply batch_sizes_bounds|].
    rewrite Hlen. intros Hlt. by eapply batch_sizes_full. }
  split; [intros E1 E2; by rewrite Hsizes, E1, E2|].
  split; [apply length_map|].
  intros i t Hi. by rewrite list_lookup_fmap, Hi.
Qed.

(** Twelve numbers squared in batches of five. *)
Lemma doInBatches_batches_and_order_witness :
  (0 < 5 /\ forall t, t ∈ seq 0 12 -> (fun t : nat => Normal (t * t)) t = Normal (t * t)) /\
  exists result batches,
    doInBatches (fun t : nat => Normal (t * t)) 5 (seq 0 12) = Returns result batches /\
    concat batches = seq 0 12 /\
    length batches = (length (seq 0 12) + 5 - 1) / 5 /\
    (forall k batch, batches !! k = Some batch ->
       0 < length batch <= 5 /\ (S k < length batches -> length batch = 5)) /\
    (length (seq 0 12) = 12 -> 5 = 5 -> map length batches = [5; 5; 2]) /\
    length result = length (seq 0 12) /\
    (forall i t, seq 0 12 !! i = Some t -> result !! i = Some (t * t)).
Proof.
  split; [split; [lia | reflexivity]|].
  apply (doInBatches_batches_and_order (fun t : nat => Normal (t * t))
           (fun t => t * t) 5 (seq 0 12)); [lia | reflexivity].
Defined.

(** A batch size of 0 never advances the index: on a non-empty input the
    loop outlasts every amount of fuel. *)
Lemma doInBatches_loop_size_0 {T R : Type} (fn : T -> completion R) (ts : list T)
    fuel i result batches :
  i < length ts -> doInBatches_loop fuel fn 0 ts i result batches = Diverges.
Proof.
  intros Hi. revert result batches.
  induction fuel as [|fuel IH]; intros result batches; simpl; [done|].
  destruct (decide (i < length ts)); [|done].
  rewrite Nat.add_0_r. apply IH.
Qed.

(** ** The retry and rate-limit controller *)

Section ControllerFacts.
Context {payload : Type}.
Variable upstream : string -> nat -> exchange payload.
Implicit Types (w : world payload) (url : string).

(** A cached payload is returned as it is: no request, no wait, no change
    to the process. *)
Lemma fetchWithRetry_cache_hit url retryCount w data :
  cache w !! url = Some data ->
  fetchWithRetry upstream url retryCount w = (Normal data, w).
Proof using Type. intros H. destruct retryCount; simpl; by rewrite H. Qed.

(** A rejected [fetch] propagates at once. *)
Lemma fetchWithRetry_fetch_rejects url retryCount w e :
  cache w !! url = None ->
  upstream url (fetch_count (trace w)) = FetchRejects e ->
  fetchWithRetry upstream url retryCount w
  = (Throw e, mkWorld (cache w) (trace w ++ [EvFetch url])).
Proof using Type. intros Hc Hx. destruct retryCount; simpl; by rewrite Hc, Hx. Qed.

(** So does a body that does not parse, under any status but 429. *)
Lemma fetchWithRetry_parse_failure url retryCount w status e :
  cache w !! url = None ->
  upstream url (fetch_count (trace w)) = Responds status (Throw e) ->
  status <> 429%Z ->
  fetchWithRetry upstream url retryCount w
  = (Throw e, mkWorld (cache w) (trace w ++ [EvFetch url])).
Proof using Type.
  intros Hc Hx Hs. apply Z.eqb_neq in Hs.
  destruct retryCount; simpl; by rewrite Hc, Hx, Hs.
Qed.

(** A body that parses is cached and returned, whatever the status. *)
Lemma fetchWithRetry_parsed url retryCount w status data :
  cache w !! url = None ->
  upstream url (fetch_count (trace w)) = Responds status (Normal data) ->
  fetchWithRetry upstream url retryCount w
  = (Normal data, mkWorld (<[url := data]> (cache w)) (trace w ++ [EvFetch url])).
Proof using Type. intros Hc Hx. destruct retryCount; simpl; by rewrite Hc, Hx. Qed.

(** A 429 whose body does not parse is waited out for 10 seconds and
    retried while the count lasts. *)
Lemma fetchWithRetry_rate_limited_retry url retryCount w e :
  cache w !! url = None ->
  upstream url (fetch_count (trace w)) = Responds 429 (Throw e) ->
  fetchWithRetry upstream url (S retryCount) w
  = fetchWithRetry upstream url retryCount
      (mkWorld (cache w) (trace w ++ [EvFetch url; EvSleep 10000])).
Proof using Type.
  intros Hc Hx. simpl. rewrite Hc, Hx. simpl.
  unfold do_sleep. simpl. by rewrite <- app_assoc.
Qed.

Lemma fetchWithRetry_rate_limited_last url w e :
  cache w !! url = None ->
  upstream url (fetch_count (trace w)) = Responds 429 (Throw e) ->
  fetchWithRetry upstream url 0 w
  = (Throw RateLimitExceeded, mkWorld (cache w) (trace w ++ [EvFetch url])).
Proof using Type. intros Hc Hx. simpl. by rewrite Hc, Hx. Qed.

End ControllerFacts.

Lemma fetch_count_app tr1 tr2 : fetch_count (tr1 ++ tr2) = fetch_count tr1 + fetch_count tr2.
Proof.
  induction tr1 as [|[?|?] tr1 IH]; simpl; [done| |]; by rewrite IH.
Qed.

Lemma slept_ms_app tr1 tr2 : slept_ms (tr1 ++ tr2) = (slept_ms tr1 + slept_ms tr2)%Z.
Proof.
  induction tr1 as [|[?|?] tr1 IH]; simpl; [done| |]; rewrite IH; lia.
Qed.

(** An upstream that answers the first request of a fresh process with 429
    and an unparseable body four times in a row: three waits of 10
    seconds, four requests, and the rate-limit error. *)
Lemma fetchWithRetry_rate_limit_exhausted {payload : Type}
    (upstream : string -> nat -> exchange payload) url :
  (forall k, k < 4 -> upstream url k = Responds 429 (Throw ParseError)) ->
  fetchWithRetry upstream url 3 (mkWorld ∅ [])
  = (Throw RateLimitExceeded,
     mkWorld ∅ [EvFetch url; EvSleep 10000; EvFetch url; EvSleep 10000;
                EvFetch url; EvSleep 10000; EvFetch url]).
Proof.
  intros H.
  rewrite (fetchWithRetry_rate_limited_retry upstream url 2 _ ParseError)
    by (try apply lookup_empty; apply H; simpl; lia).
  rewrite (fetchWithRetry_rate_limited_retry upstream url 1 _ ParseError)
    by (try apply lookup_empty; apply H; simpl; lia).
  rewrite (fetchWithRetry_rate_limited_retry upstream url 0 _ ParseError)
    by (try apply lookup_empty; apply H; simpl; lia).
  rewrite (fetchWithRetry_rate_limited_last upstream url _ ParseError)
    by (try apply lookup_empty; apply H; simpl; lia).
  reflexivity.
Qed.

(** C7, which the code does not meet. The status of a response is
    looked at only after its body failed to parse: a rate-limit response
    (status 429) whose body is valid JSON is neither waited out nor
    retried; its payload is cached and returned, and the next call for the
    same URL gets it from the cache without a request. *)
Theorem fetchWithRetry_rate_limit_with_json_body :
  fetchWithRetry json_rate_limiter "u" 3 (mkWorld ∅ [])
  = (Normal "too many requests",
     mkWorld (<["u" := "too many requests"]> ∅) [EvFetch "u"]) /\
  fetchWithRetry json_rate_limiter "u" 3
    (mkWorld (<["u" := "too many requests"]> ∅) [EvFetch "u"])
  = (Normal "too many requests",
     mkWorld (<["u" := "too many requests"]> ∅) [EvFetch "u"]) /\
  slept_ms [EvFetch "u"] = 0%Z /\ fetch_count [EvFetch "u"] = 1.
Proof.
  split; [|split; [|done]].
  - apply (fetchWithRetry_parsed json_rate_limiter "u" 3 (mkWorld ∅ []) 429); [|done].
    apply lookup_empty.
  - apply fetchWithRetry_cache_hit. apply lookup_insert_eq.
Qed.

(** ** The risk scorer *)

Section RiskFacts.
Context {num : Type} `{!JsNumber num}.
Variable endpoint : Z -> nat -> exchange (risk_payload num).
Variable revisionId : Z.

Lemma risk_loop_step retryCount k tr :
  risk_loop endpoint revisionId (S retryCount) k tr
  = match score_of (endpoint revisionId k) with
    | Some p => (Normal p, tr ++ attempt_events (endpoint revisionId k))
    | None => risk_loop endpoint revisionId retryCount (S k)
                (tr ++ attempt_events (endpoint revisionId k))
    end.
Proof using Type.
  simpl. unfold risk_try, score_of, attempt_events, rate_limited.
  destruct (endpoint revisionId k) as [e|status [[|p]|e]]; simpl; try done;
    destruct (status =? 429)%Z; done.
Qed.

(** The loop ends normally after [n] attempts, at most [retryCount]; if
    none of the [retryCount] attempts delivers a score, it makes them all
    and returns 0. *)
Lemma risk_loop_spec retryCount k tr :
  exists v n,
    n <= retryCount /\
    risk_loop endpoint revisionId retryCount k tr
    = (Normal v, tr ++ attempts_trace endpoint revisionId k n) /\
    ((forall j, k <= j < k + retryCount -> score_of (endpoint revisionId j) = None) ->
     v = VNumber (num_of_Z 0) /\ n = retryCount).
Proof using Type.
  revert k tr. induction retryCount as [|rc IH]; intros k tr.
  - exists (VNumber (num_of_Z 0)), 0. simpl.
    unfold attempts_trace. simpl. by rewrite app_nil_r.
  - rewrite risk_loop_step.
    destruct (score_of (endpoint revisionId k)) as [p|] eqn:E.
    + exists p, 1. split; [lia|]. split.
      * unfold attempts_trace. simpl. by rewrite app_nil_r.
      * intros H. rewrite H in E by lia. done.
    + destruct (IH (S k) (tr ++ attempt_events (endpoint revisionId k)))
        as (v & n & Hn & Hrun & Hnone).
      exists v, (S n). split; [lia|]. split.
      * rewrite Hrun. unfold attempts_trace. simpl. by rewrite <- app_assoc.
      * intros H. destruct Hnone as [-> ->]; [|done].
        intros j Hj. apply H. lia.
Qed.

Lemma attempts_trace_fetch_count k n :
  fetch_count (attempts_trace endpoint revisionId k n) = n.
Proof using Type.
  unfold attempts_trace. revert k. induction n as [|n IH]; intros k; simpl; [done|].
  rewrite fetch_count_app, IH. unfold attempt_events.
  by destruct (rate_limited _).
Qed.

Lemma attempts_trace_slept k n :
  slept_ms (attempts_trace endpoint revisionId k n)
  = (10000 * Z.of_nat (rate_limited_count endpoint revisionId k n))%Z.
Proof using Type.
  unfold attempts_trace, rate_limited_count. revert k.
  induction n as [|n IH]; intros k; simpl; [done|].
  rewrite slept_ms_app, IH. unfold attempt_events.
  destruct (rate_limited _); simpl; lia.
Qed.

Lemma rate_limited_count_all k n :
  (forall j, k <= j < k + n -> rate_limited (endpoint revisionId j) = true) ->
  rate_limited_count endpoint revisionId k n = n.
Proof using Type.
  unfold rate_limited_count. revert k. induction n as [|n IH]; intros k H; simpl; [done|].
  rewrite H by lia. simpl. rewrite IH; [done|]. intros j Hj. apply H. lia.
Qed.

Lemma rate_limited_no_score j :
  rate_limited (endpoint revisionId j) = true -> score_of (endpoint revisionId j) = None.
Proof using Type.
  unfold rate_limited, score_of.
  destruct (endpoint revisionId j) as [e|status [[|p]|e]]; try done.
  by intros ->.
Qed.

End RiskFacts.

(** C6, amended. For every behaviour of the endpoint the scorer returns
    normally, after at most 3 attempts; each attempt is one request, and a
    wait of 10 seconds follows a rate-limit response and nothing else (a
    thrown failure is retried at once); when no attempt delivers a score
    the result is 0; and three rate-limit responses in a row give 0 after
    3 waits, 30 seconds in all. *)
Theorem fetchRevertRiskScore_best_effort {num : Type} `{!JsNumber num}
    (endpoint : Z -> nat -> exchange (risk_payload num)) (revisionId : Z) :
  exists v attempts,
    attempts <= 3 /\
    fetchRevertRiskScore endpoint revisionId 3
    = (Normal v, attempts_trace endpoint revisionId 0 attempts) /\
    fetch_count (attempts_trace endpoint revisionId 0 attempts) = attempts /\
    slept_ms (attempts_trace endpoint revisionId 0 attempts)
    = (10000 * Z.of_nat (rate_limited_count endpoint revisionId 0 attempts))%Z /\
    ((forall j, j < 3 -> score_of (endpoint revisionId j) = None) ->
     v = VNumber (num_of_Z 0) /\ attempts = 3) /\
    ((forall j, j < 3 -> rate_limited (endpoint revisionId j) = true) ->
     v = VNumber (num_of_Z 0) /\ attempts = 3 /\
     slept_ms (attempts_trace endpoint revisionId 0 attempts) = 30000%Z).
Proof.
  destruct (risk_loop_spec endpoint revisionId 3 0 []) as (v & n & Hn & Hrun & Hnone).
  exists v, n. split; [done|]. split; [exact Hrun|].
  split; [apply attempts_trace_fetch_count|].
  split; [apply attempts_trace_slept|]. split.
  - intros H. apply Hnone. intros j Hj. apply H. lia.
  - intros H. destruct Hnone as [-> ->].
    { intros j Hj. apply rate_limited_no_score, H. lia. }
    split; [done|]. split; [done|].
    rewrite attempts_trace_slept, rate_limited_count_all; [done|].
    intros j Hj. apply H. lia.
Qed.

(** C6 as the specification states it fails on an unreachable endpoint:
    the three attempts follow each other with no wait in between. *)
Lemma fetchRevertRiskScore_retries_at_once :
  fetchRevertRiskScore unreachable_endpoint 1 3
  = (Normal (VNumber 0%float),
     [EvFetch riskApiUrl; EvFetch riskApiUrl; EvFetch riskApiUrl]) /\
  waits_between_attempts (fetchRevertRiskScore unreachable_endpoint 1 3).2 = false /\
  slept_ms (fetchRevertRiskScore unreachable_endpoint 1 3).2 = 0%Z.
Proof. repeat split. Qed.

(** The rate-limit scenario on binary64: three 429 responses, three waits
    of 10 seconds, the default 0. *)
Example F64_rate_limit_scenario :
  fetchRevertRiskScore
    (fun _ _ => Responds 429 (Throw ParseError) : exchange (risk_payload float)) 1 3
  = (Normal (VNumber 0%float),
     [EvFetch riskApiUrl; EvSleep 10000; EvFetch riskApiUrl; EvSleep 10000;
      EvFetch riskApiUrl; EvSleep 10000]).
Proof. reflexivity. Qed.

(** ** The revision-history fetcher *)

Section HistoryFacts.
Context {num : Type}.
Variable encodeURIComponent : string -> string.

(** A single page, no continuation: the revisions in the reverse of the
    order of the page, the diff of the locator on the first of them. *)
Lemma fetchPastRevisions_single_page revisionUrl t
    (page : list (ApiRevision num)) diffReply d :
  truthy (title revisionUrl) = Some t ->
  fetchDiffFromUrl revisionUrl diffReply = Normal d ->
  fetchPastRevisions encodeURIComponent revisionUrl
    (HistoryPage (Some page) None) diffReply
  = match rev (map (revision_of_api encodeURIComponent t) page) with
    | [] => Throw TypeError
    | r :: revisions => Normal (set_diff r (Some d) :: revisions)
    end.
Proof using Type.
  intros Ht Hd. simpl. rewrite Ht. simpl. rewrite app_nil_r, Hd. done.
Qed.

(** In particular the timestamps come out in the reverse of the order of
    the page. *)
Lemma fetchPastRevisions_single_page_timestamps revisionUrl t
    (page : list (ApiRevision num)) diffReply d :
  truthy (title revisionUrl) = Some t ->
  fetchDiffFromUrl revisionUrl diffReply = Normal d ->
  page <> [] ->
  exists revisions,
    fetchPastRevisions encodeURIComponent revisionUrl
      (HistoryPage (Some page) None) diffReply = Normal revisions /\
    map timestamp revisions = rev (map api_timestamp page).
Proof using Type.
  intros Ht Hd Hne.
  rewrite (fetchPastRevisions_single_page _ t _ _ d Ht Hd).
  assert (map timestamp (rev (map (revision_of_api encodeURIComponent t) page))
          = rev (map api_timestamp page)) as Hts.
  { rewrite <- map_rev, map_map, <- map_rev. done. }
  destruct (rev (map (revision_of_api encodeURIComponent t) page))
    as [|r revisions] eqn:E.
  - apply (f_equal (@length _)) in E. rewrite length_rev, length_map in E.
    destruct page; simpl in E; [done|lia].
  - eexists. split; [done|]. simpl. by rewrite <- Hts.
Qed.

End HistoryFacts.

(** C1, which the code does not meet. A page that lists the newest
    revision first comes back reversed, with the oldest revision at index
    0; over several pages every depth of the recursion reverses again and
    the order is neither descending nor ascending. *)
Theorem fetchPastRevisions_not_newest_first :
  timestamps_of (fetchPastRevisions (fun s => s) a_revision_url two_revisions a_diff_reply)
  = Normal [100; 200]%float /\
  newest_first [100; 200]%float = false /\
  timestamps_of (fetchPastRevisions (fun s => s) a_revision_url three_pages a_diff_reply)
  = Normal [6; 5; 4; 1; 2; 3; 7; 8; 9]%float /\
  newest_first [6; 5; 4; 1; 2; 3; 7; 8; 9]%float = false.
Proof. repeat split. Qed.

(** ** The feature assembler *)

Lemma filter_same_author {num} (u : Z) (l : list (Revision num)) :
  Forall (fun r => userId r = u) l -> filter (fun r => userId r = u) l = l.
Proof.
  induction 1 as [|r l Hr Hl IH]; [done|].
  rewrite filter_cons_True by done. by rewrite IH.
Qed.

(** The risk scorer ends normally, whatever the endpoint does. *)
Lemma fetchRevertRiskScore_normal {num} `{!JsNumber num}
    (endpoint : Z -> nat -> exchange (risk_payload num)) revisionId retryCount :
  exists v, (fetchRevertRiskScore endpoint revisionId retryCount).1 = Normal v.
Proof.
  destruct (risk_loop_spec endpoint revisionId retryCount 0 []) as (v & n & _ & Hrun & _).
  exists v. unfold fetchRevertRiskScore. by rewrite Hrun.
Qed.

Lemma fetchDiffFromUrl_ok revisionUrl t o diffReply :
  truthy (title revisionUrl) = Some t ->
  truthy (oldid revisionUrl) = Some o ->
  fetchDiffFromUrl revisionUrl diffReply = fetchDiffFromRevId diffReply.
Proof. intros Ht Ho. unfold fetchDiffFromUrl. by rewrite Ht, Ho. Qed.

(** Whenever the assembler returns, the record has the eighteen fields of
    [feature_names], in that order. *)
Lemma extractFeatures_field_names {num} `{!JsNumber num} encodeURIComponent
    revisionUrl (history : history_reply num) diffReply endpoint features :
  extractFeatures encodeURIComponent revisionUrl history diffReply endpoint
  = Normal features ->
  obj_keys features = feature_names.
Proof.
  unfold extractFeatures.
  destruct (fetchPastRevisions _ _ _ _) as [pastRevisions|e]; [|done].
  cbn [mbind completion_bind].
  destruct (pastRevisions !! 0) as [thisRevision|]; [|done].
  destruct (fetchRevertRiskScore_normal endpoint (userId thisRevision) 3) as [v Hv].
  cbv zeta. unfold heap_alloc, extractDistributionStatistics. cbv zeta.
  rewrite Hv. cbn [mbind completion_bind].
  intros [= <-]. reflexivity.
Qed.

(** Runs the assembler on a history of one page whose revisions all have
    the author of the first one, up to the call of the risk scorer: [Ht]
    gives the title of the locator, [Hd] the diff that is retrieved. *)
Ltac assemble_single_page Ht Hd :=
  unfold extractFeatures;
  rewrite (fetchPastRevisions_single_page _ _ _ _ _ _ Ht Hd);
  cbn [rev map app mbind completion_bind lookup list_lookup];
  cbn -[filter extractDistributionStatistics fetchRevertRiskScore
        calculateAverageTimeBetweenRevisions obj_literal
        PrimFloat.sub PrimFloat.div PrimFloat.add];
  rewrite !filter_same_author by (repeat constructor).

(** C2, amended. For every history of exactly one revision, delivered on
    one page, with a locator
    that has its title and id and a diff that is retrieved, the assembler
    returns a record; it has the same field names as every record the
    assembler returns for any other history; both averages of time between
    revisions are 0; and in both distributions the average and the standard
    deviation are NaN and the median and the quartiles are undefined. *)
Theorem extractFeatures_single_revision encodeURIComponent revisionUrl t o diffReply d
    (endpoint : Z -> nat -> exchange (risk_payload float)) (r : ApiRevision float) :
  truthy (title revisionUrl) = Some t ->
  truthy (oldid revisionUrl) = Some o ->
  fetchDiffFromRevId diffReply = Normal d ->
  exists features,
    extractFeatures encodeURIComponent revisionUrl (HistoryPage (Some [r]) None)
      diffReply endpoint = Normal features /\
    obj_keys features = feature_names /\
    (forall revisionUrl' history' diffReply' endpoint' features',
       extractFeatures encodeURIComponent revisionUrl' history' diffReply' endpoint'
       = Normal features' ->
       obj_keys features' = obj_keys features) /\
    obj_get "pastRevisionsCount" features = VNumber 1%float /\
    obj_get "averageTimeBetweenRevisions" features = VNumber 0%float /\
    obj_get "averageTimeBetweenUserAuthoredRevisions" features = VNumber 0%float /\
    map (fun k => obj_get k features) distribution_names
    = [ VNumber PrimFloat.nan; VUndefined; VUndefined; VUndefined; VNumber PrimFloat.nan;
        VNumber PrimFloat.nan; VUndefined; VUndefined; VUndefined; VNumber PrimFloat.nan ].
Proof.
  intros Ht Ho Hd.
  assert (fetchDiffFromUrl revisionUrl diffReply = Normal d) as Hd'
    by (by rewrite (fetchDiffFromUrl_ok _ t o)).
  assert (exists features,
            extractFeatures encodeURIComponent revisionUrl (HistoryPage (Some [r]) None)
              diffReply endpoint = Normal features /\
            obj_get "pastRevisionsCount" features = VNumber 1%float /\
            obj_get "averageTimeBetweenRevisions" features = VNumber 0%float /\
            obj_get "averageTimeBetweenUserAuthoredRevisions" features = VNumber 0%float /\
            map (fun k => obj_get k features) distribution_names
            = [ VNumber PrimFloat.nan; VUndefined; VUndefined; VUndefined;
                VNumber PrimFloat.nan;
                VNumber PrimFloat.nan; VUndefined; VUndefined; VUndefined;
                VNumber PrimFloat.nan ])
    as (features & Hrun & Hvalues).
  { assemble_single_page Ht Hd'.
    destruct (fetchRevertRiskScore_normal endpoint (userid r) 3) as [v ->].
    eexists. split; [reflexivity|]. vm_compute. repeat split. }
  exists features. split; [exact Hrun|].
  pose proof (extractFeatures_field_names _ _ _ _ _ _ Hrun) as Hnames.
  split; [exact Hnames|]. split; [|exact Hvalues].
  intros revisionUrl' history' diffReply' endpoint' features' Hrun'.
  rewrite Hnames. by eapply extractFeatures_field_names.
Qed.

(** C2 as the specification states it fails on a history without
    revisions: the fetcher
    throws when it writes the diff to the first element of the empty
    array, and so does it when the page has no revision list at all. *)
Lemma extractFeatures_empty_history_throws :
  extractFeatures (fun s => s) a_revision_url (HistoryPage (Some []) None)
    a_diff_reply unreachable_endpoint = Throw TypeError /\
  extractFeatures (fun s => s) a_revision_url (HistoryPage None None)
    a_diff_reply unreachable_endpoint = Throw TypeError.
Proof. split; reflexivity. Qed.

(** A history of one revision behind an endpoint that cannot be reached. *)
Lemma extractFeatures_single_revision_witness :
  (truthy (title a_revision_url) = Some "T" /\
   truthy (oldid a_revision_url) = Some "3" /\
   fetchDiffFromRevId a_diff_reply = Normal "-a") /\
  exists features,
    extractFeatures (fun s => s) a_revision_url
      (HistoryPage (Some [mkApiRevision 1 "A" 7 100%float]) None)
      a_diff_reply unreachable_endpoint = Normal features /\
    obj_keys features = feature_names /\
    (forall revisionUrl' history' diffReply' endpoint' features',
       extractFeatures (fun s => s) revisionUrl' history' diffReply' endpoint'
       = Normal features' ->
       obj_keys features' = obj_keys features) /\
    obj_get "pastRevisionsCount" features = VNumber 1%float /\
    obj_get "averageTimeBetweenRevisions" features = VNumber 0%float /\
    obj_get "averageTimeBetweenUserAuthoredRevisions" features = VNumber 0%float /\
    map (fun k => obj_get k features) distribution_names
    = [ VNumber PrimFloat.nan; VUndefined; VUndefined; VUndefined; VNumber PrimFloat.nan;
        VNumber PrimFloat.nan; VUndefined; VUndefined; VUndefined; VNumber PrimFloat.nan ].
Proof.
  split; [repeat split|].
  apply (extractFeatures_single_revision (fun s => s) a_revision_url "T" "3"
           a_diff_reply "-a" unreachable_endpoint (mkApiRevision 1 "A" 7 100%float));
    reflexivity.
Defined.

(** C3. A history of three revisions by one author at the times 0, 100 and
    250, listed by the API on one page with the newest first: the record
    has a count of 3 past revisions, 3 of them by the author, a share of 1,
    an average time between revisions of (100 + 150) / 3, which lies
    between 83.33 and 83.34, and for the author's gaps the statistics of
    the sample of 100 and 150: average 125, median 150, first quartile
    100, third quartile 150, standard deviation 25. *)
Theorem extractFeatures_three_revisions_one_author encodeURIComponent revisionUrl t o
    diffReply d (endpoint : Z -> nat -> exchange (risk_payload float))
    (A id3 id2 id1 : Z) (name3 name2 name1 : string) :
  truthy (title revisionUrl) = Some t ->
  truthy (oldid revisionUrl) = Some o ->
  fetchDiffFromRevId diffReply = Normal d ->
  exists features,
    extractFeatures encodeURIComponent revisionUrl
      (HistoryPage (Some [ mkApiRevision id3 name3 A 250%float;
                           mkApiRevision id2 name2 A 100%float;
                           mkApiRevision id1 name1 A 0%float ]) None)
      diffReply endpoint = Normal features /\
    obj_get "pastRevisionsCount" features = VNumber 3%float /\
    obj_get "pastRevisionsAuthoredByUser" features = VNumber 3%float /\
    obj_get "percPastRevisionsAuthored" features = VNumber 1%float /\
    obj_get "averageTimeBetweenRevisions" features = VNumber ((100 + 150) / 3)%float /\
    PrimFloat.ltb (8333 / 100) ((100 + 150) / 3) = true /\
    PrimFloat.ltb ((100 + 150) / 3) (8334 / 100) = true /\
    map (fun k => obj_get k features) (drop 13 feature_names)
    = map (fun k => obj_get k gaps_100_150_stats) (drop 13 feature_names) /\
    map (fun k => obj_get k features) (drop 13 feature_names)
    = [ VNumber 125%float; VNumber 150%float; VNumber 100%float; VNumber 150%float;
        VNumber 25%float ].
Proof.
  intros Ht Ho Hd.
  assert (fetchDiffFromUrl revisionUrl diffReply = Normal d) as Hd'
    by (by rewrite (fetchDiffFromUrl_ok _ t o)).
  assemble_single_page Ht Hd'.
  destruct (fetchRevertRiskScore_normal endpoint A 3) as [v ->].
  eexists. split; [reflexivity|]. vm_compute. repeat split.
Qed.

(** The three revisions of author 7, the risk endpoint out of reach. *)
Lemma extractFeatures_three_revisions_one_author_witness :
  (truthy (title a_revision_url) = Some "T" /\
   truthy (oldid a_revision_url) = Some "3" /\
   fetchDiffFromRevId a_diff_reply = Normal "-a") /\
  exists features,
    extractFeatures (fun s => s) a_revision_url
      (HistoryPage (Some [ mkApiRevision 3 "A" 7 250%float;
                           mkApiRevision 2 "A" 7 100%float;
                           mkApiRevision 1 "A" 7 0%float ]) None)
      a_diff_reply unreachable_endpoint = Normal features /\
    obj_get "pastRevisionsCount" features = VNumber 3%float /\
    obj_get "pastRevisionsAuthoredByUser" features = VNumber 3%float /\
    obj_get "percPastRevisionsAuthored" features = VNumber 1%float /\
    obj_get "averageTimeBetweenRevisions" features = VNumber ((100 + 150) / 3)%float /\
    PrimFloat.ltb (8333 / 100) ((100 + 150) / 3) = true /\
    PrimFloat.ltb ((100 + 150) / 3) (8334 / 100) = true /\
    map (fun k => obj_get k features) (drop 13 feature_names)
    = map (fun k => obj_get k gaps_100_150_stats) (drop 13 feature_names) /\
    map (fun k => obj_get k features) (drop 13 feature_names)
    = [ VNumber 125%float; VNumber 150%float; VNumber 100%float; VNumber 150%float;
        VNumber 25%float ].
Proof.
  split; [repeat split|].
  apply (extractFeatures_three_revisions_one_author (fun s => s) a_revision_url "T" "3"
           a_diff_reply "-a" unreachable_endpoint 7 3 2 1 "A" "A" "A");
    reflexivity.
Defined.

(** ** The diff retriever *)

Lemma prefix_append (p b : string) : String.prefix p (p +:+ b) = true.
Proof.
  induction p as [|c p IH]; simpl; [by destruct b|].
  destruct (Ascii.ascii_dec c c); [done|congruence].
Qed.

Lemma string_drop_append (p b : string) : string_drop (String.length p) (p +:+ b) = b.
Proof. induction p as [|c p IH]; simpl; done. Qed.

Lemma split_at_first_eq (p s : string) :
  split_at_first p s
  = if String.prefix p s then Some (EmptyString, string_drop (String.length p) s)
    else match s with
         | EmptyString => None
         | String c s' =>
             match split_at_first p s' with
             | Some (before, behind) => Some (String c before, behind)
             | None => None
             end
         end.
Proof. by destruct s. Qed.

Lemma count_matches_from_eq (p : string) c (s : string) :
  count_matches_from p 0 (String c s)
  = if String.prefix p (String c s)
    then S (count_matches_from p (String.length p - 1) s)
    else count_matches_from p 0 s.
Proof. done. Qed.

(** [split_at_first] finds an occurrence that no other one precedes. *)
Lemma split_at_first_append (p a b : string) :
  (forall k, k < String.length a ->
     String.prefix p (string_drop k (a +:+ p +:+ b)) = false) ->
  split_at_first p (a +:+ p +:+ b) = Some (a, b).
Proof.
  induction a as [|c a IH]; intros H.
  - change (EmptyString +:+ p +:+ b) with (p +:+ b).
    by rewrite split_at_first_eq, prefix_append, string_drop_append.
  - pose proof (H 0 ltac:(simpl; lia)) as H0.
    change (String.prefix p (String c (a +:+ p +:+ b)) = false) in H0.
    change (String c a +:+ p +:+ b) with (String c (a +:+ p +:+ b)).
    rewrite split_at_first_eq, H0, IH; [done|].
    intros k Hk. apply (H (S k)). simpl. lia.
Qed.

(** A text that holds the pattern has at least one match. *)
Lemma count_matches_occurrence (p a b : string) :
  p <> EmptyString -> 1 <= count_matches_from p 0 (a +:+ p +:+ b).
Proof.
  intros Hp. induction a as [|c a IH].
  - change (EmptyString +:+ p +:+ b) with (p +:+ b).
    destruct p as [|c p]; [done|].
    change (String c p +:+ b) with (String c (p +:+ b)).
    rewrite count_matches_from_eq.
    change (String c (p +:+ b)) with (String c p +:+ b).
    rewrite prefix_append. lia.
  - change (String c a +:+ p +:+ b) with (String c (a +:+ p +:+ b)).
    rewrite count_matches_from_eq.
    destruct (String.prefix p (String c (a +:+ p +:+ b))); lia.
Qed.

Lemma prefix_cons_inv x (p : string) y (s : string) :
  String.prefix (String x p) (String y s) = true -> x = y /\ String.prefix p s = true.
Proof.
  change (String.prefix (String x p) (String y s))
    with (if Ascii.ascii_dec x y then String.prefix p s else false).
  by destruct (Ascii.ascii_dec x y).
Qed.

(** The opening tag does not overlap itself: behind a match, the next one
    starts at least five characters further. *)
Lemma pre_tag_no_overlap (a rest : string) :
  String.prefix "<pre>" (a +:+ "<pre>" +:+ rest) = true ->
  a = EmptyString \/ 5 <= String.length a.
Proof.
  intros H.
  destruct a as [|c0 [|c1 [|c2 [|c3 [|c4 a]]]]];
    [by left|exfalso..|right; simpl; lia];
    cbn [String.append] in H;
    repeat (apply prefix_cons_inv in H as [? H]; subst); done.
Qed.

(** With exactly one match of the opening tag, no occurrence precedes a
    given one. *)
Lemma pre_tag_single_is_first (a rest : string) :
  count_matches "<pre>" (a +:+ "<pre>" +:+ rest) = 1 ->
  forall k, k < String.length a ->
    String.prefix "<pre>" (string_drop k (a +:+ "<pre>" +:+ rest)) = false.
Proof.
  unfold count_matches. induction a as [|c a IH]; intros Hc k Hk; [simpl in Hk; lia|].
  change (String c a +:+ "<pre>" +:+ rest) with (String c (a +:+ "<pre>" +:+ rest)) in *.
  rewrite count_matches_from_eq in Hc.
  destruct (String.prefix "<pre>" (String c (a +:+ "<pre>" +:+ rest))) eqn:E.
  - exfalso.
    destruct (pre_tag_no_overlap (String c a) rest E) as [?|Hlen]; [done|].
    destruct a as [|c1 [|c2 [|c3 [|c4 a]]]]; simpl in Hlen; try lia.
    simpl in Hc.
    pose proof (count_matches_occurrence "<pre>" a rest ltac:(done)). simpl in *. lia.
  - destruct k as [|k]; [done|].
    simpl. apply IH; [done|]. simpl in Hk. lia.
Qed.

(** A wrong number of opening tags is the format error. *)
Lemma fetchDiffFromRevId_wrong_count (diffText : string) :
  count_matches "<pre>" diffText <> 1 ->
  fetchDiffFromRevId (Normal (Compare (Some diffText))) = Throw UnexpectedDiffFormat.
Proof.
  intros H. unfold fetchDiffFromRevId. simpl.
  by destruct (decide (count_matches "<pre>" diffText <> 1)).
Qed.

(** One opening tag and a closing tag behind it: the text between the
    opening tag and the first closing tag behind it, as it is. *)
Lemma fetchDiffFromRevId_single_block (before inner behind : string) :
  count_matches "<pre>" (before +:+ "<pre>" +:+ inner +:+ "</pre>" +:+ behind) = 1 ->
  (forall k, k < String.length inner ->
     String.prefix "</pre>" (string_drop k (inner +:+ "</pre>" +:+ behind)) = false) ->
  fetchDiffFromRevId
    (Normal (Compare (Some (before +:+ "<pre>" +:+ inner +:+ "</pre>" +:+ behind))))
  = Normal inner.
Proof.
  intros Hc Hinner. unfold fetchDiffFromRevId. simpl.
  destruct (decide (_ <> 1)) as [Hne|_]; [done|].
  unfold match_pre_block.
  rewrite (split_at_first_append "<pre>" before (inner +:+ "</pre>" +:+ behind))
    by (by apply pre_tag_single_is_first).
  simpl. by rewrite (split_at_first_append "</pre>" inner behind).
Qed.

(** C8, which the code does not meet. The check counts opening
    tags only, and the match that follows it is taken to succeed: a payload
    with one opening tag and no closing tag behind it has no block, passes
    the check, and fails at the index into the null match with a type
    error, not with the format error. *)
Theorem fetchDiffFromRevId_unterminated_block :
  count_matches "<pre>" "<pre>-a" = 1 /\
  match_pre_block "<pre>-a" = None /\
  fetchDiffFromRevId (Normal (Compare (Some "<pre>-a"))) = Throw TypeError /\
  fetchDiffFromRevId (Normal (Compare (Some "</pre><pre>-a"))) = Throw TypeError.
Proof. repeat split. Qed.

(** ** Runs of the retry controller *)

Lemma retry_trace_S url n :
  retry_trace url (S n) = [EvFetch url; EvSleep 10000] ++ retry_trace url n.
Proof. reflexivity. Qed.

Lemma retry_trace_fetch_count url n : fetch_count (retry_trace url n) = S n.
Proof. induction n as [|n IH]; [done|]. rewrite retry_trace_S. simpl. by rewrite IH. Qed.

Lemma retry_trace_slept url n : slept_ms (retry_trace url n) = (10000 * Z.of_nat n)%Z.
Proof.
  induction n as [|n IH]; [done|]. rewrite retry_trace_S.
  cbn [app slept_ms foldr]. fold (slept_ms (retry_trace url n)). rewrite IH. lia.
Qed.

Lemma retry_trace_waits url n : waits_between_attempts (retry_trace url n) = true.
Proof. induction n as [|n IH]; [done|]. rewrite retry_trace_S. simpl. exact IH. Qed.

Lemma retry_trace_fetches_only url n : fetches_only url (retry_trace url n).
Proof.
  induction n as [|n IH]; [by repeat constructor|].
  rewrite retry_trace_S. by repeat constructor.
Qed.

Section ControllerRuns.
Context {payload : Type}.
Variable upstream : string -> nat -> exchange payload.
Implicit Types (w : world payload) (url : string).

(** Every run of [fetchWithRetry], in one of three shapes: a cache hit, a
    payload fetched and cached, or an error with the cache as it was. *)
Lemma fetchWithRetry_run url retryCount w :
  (exists data, cache w !! url = Some data /\
     fetchWithRetry upstream url retryCount w = (Normal data, w)) \/
  (cache w !! url = None /\
   exists n, n <= retryCount /\
     ((exists data,
         fetchWithRetry upstream url retryCount w
         = (Normal data,
            mkWorld (<[url := data]> (cache w)) (trace w ++ retry_trace url n))) \/
      (exists e,
         fetchWithRetry upstream url retryCount w
         = (Throw e, mkWorld (cache w) (trace w ++ retry_trace url n))))).
Proof using Type.
  revert w. induction retryCount as [|rc IH]; intros w;
    (destruct (cache w !! url) as [data|] eqn:Hc;
     [left; exists data; split; [done|]; by apply fetchWithRetry_cache_hit|]);
    right; (split; [done|]);
    destruct (upstream url (fetch_count (trace w))) as [e|status [data|e]] eqn:Hx.
  - exists 0. split; [lia|]. right. exists e. by apply fetchWithRetry_fetch_rejects.
  - exists 0. split; [lia|]. left. exists data. by eapply fetchWithRetry_parsed.
  - exists 0. split; [lia|]. right. destruct (decide (status = 429%Z)) as [->|Hs].
    + exists RateLimitExceeded. by eapply fetchWithRetry_rate_limited_last.
    + exists e. by eapply fetchWithRetry_parse_failure.
  - exists 0. split; [lia|]. right. exists e. by apply fetchWithRetry_fetch_rejects.
  - exists 0. split; [lia|]. left. exists data. by eapply fetchWithRetry_parsed.
  - destruct (decide (status = 429%Z)) as [->|Hs].
    + rewrite (fetchWithRetry_rate_limited_retry upstream url rc w e Hc Hx).
      destruct (IH (mkWorld (cache w) (trace w ++ [EvFetch url; EvSleep 10000])))
        as [(data & Hhit & _)|(_ & n & Hn & Hrun)].
      { simpl in Hhit. congruence. }
      exists (S n). split; [lia|]. rewrite retry_trace_S.
      simpl in Hrun. rewrite <- !app_assoc in Hrun.
      destruct Hrun as [[data ->]|[e' ->]]; [left; by exists data|right; by exists e'].
    + exists 0. split; [lia|]. right. exists e. by eapply fetchWithRetry_parse_failure.
Qed.

End ControllerRuns.

(** X1. A payload that [fetchWithRetry] returned is returned again by every
    later call for the same URL, whatever the upstream does by then and
    whatever retry count is passed: the later call makes no request, waits
    for nothing and leaves the process as it was. *)
Theorem fetchWithRetry_returns_again {payload : Type}
    (upstream upstream' : string -> nat -> exchange payload) (url : string)
    (retryCount retryCount' : nat) (w w' : world payload) (data : payload) :
  fetchWithRetry upstream url retryCount w = (Normal data, w') ->
  fetchWithRetry upstream' url retryCount' w' = (Normal data, w').
Proof.
  intros Hrun. apply fetchWithRetry_cache_hit.
  destruct (fetchWithRetry_run upstream url retryCount w)
    as [(d & Hc & H)|(_ & n & _ & [[d H]|[e H]])];
    rewrite H in Hrun; try done; injection Hrun as <- <-; [done|].
  simpl. apply lookup_insert_eq.
Qed.

(** A first call that fetches, then a call behind an upstream that has gone
    away. *)
Lemma fetchWithRetry_returns_again_witness :
  fetchWithRetry (recovering_upstream 0) "u" 3 (mkWorld ∅ [])
  = (Normal "ok", mkWorld (<["u" := "ok"]> ∅) [EvFetch "u"]) /\
  fetchWithRetry (fun _ _ => FetchRejects TransportError) "u" 0
    (mkWorld (<["u" := "ok"]> ∅) [EvFetch "u"])
  = (Normal "ok", mkWorld (<["u" := "ok"]> ∅) [EvFetch "u"]).
Proof.
  assert (fetchWithRetry (recovering_upstream 0) "u" 3 (mkWorld ∅ [])
          = (Normal "ok", mkWorld (<["u" := "ok"]> ∅) [EvFetch "u"])) as H.
  { apply (fetchWithRetry_parsed (recovering_upstream 0) "u" 3 (mkWorld ∅ []) 200);
      [apply lookup_empty | reflexivity]. }
  split; [exact H|].
  exact (fetchWithRetry_returns_again (recovering_upstream 0)
           (fun _ _ => FetchRejects TransportError) "u" 3 0 _ _ "ok" H).
Defined.

(** X2. The cache is written by a successful fetch and by nothing else: a
    call that throws leaves the cache as it was, a call that returns leaves
    in it the returned payload under the URL asked for, and no call changes
    or removes the entry of another URL. *)
Theorem fetchWithRetry_cache_frame {payload : Type}
    (upstream : string -> nat -> exchange payload) (url : string) (retryCount : nat)
    (w : world payload) :
  match fetchWithRetry upstream url retryCount w with
  | (Throw _, w') => cache w' = cache w
  | (Normal data, w') =>
      cache w' !! url = Some data /\
      forall url', url' <> url -> cache w' !! url' = cache w !! url'
  end.
Proof.
  destruct (fetchWithRetry_run upstream url retryCount w)
    as [(d & Hc & ->)|(_ & n & _ & [[d ->]|[e ->]])]; [done| |done].
  simpl. split; [apply lookup_insert_eq|].
  intros url' Hne. by apply lookup_insert_ne.
Qed.

(** X3. Whatever the upstream does, a call with retry count [r] makes at
    most [r + 1] requests, all of them for the URL asked for, never two in a
    row without a wait between them, and waits 10 seconds for each request
    but the last: at most [10 r] seconds in all. A cache hit makes no request
    at all. What the process did before is kept. *)
Theorem fetchWithRetry_budget {payload : Type}
    (upstream : string -> nat -> exchange payload) (url : string) (retryCount : nat)
    (w : world payload) :
  exists events,
    trace (fetchWithRetry upstream url retryCount w).2 = trace w ++ events /\
    fetch_count events <= retryCount + 1 /\
    slept_ms events = (10000 * Z.max (Z.of_nat (fetch_count events) - 1) 0)%Z /\
    (slept_ms events <= 10000 * Z.of_nat retryCount)%Z /\
    waits_between_attempts events = true /\
    fetches_only url events /\
    (is_Some (cache w !! url) -> events = []).
Proof.
  destruct (fetchWithRetry_run upstream url retryCount w)
    as [(d & Hc & ->)|(Hc & n & Hn & Hrun)].
  - exists []. rewrite app_nil_r. repeat split; simpl; try done; try lia. constructor.
  - exists (retry_trace url n).
    assert (trace (fetchWithRetry upstream url retryCount w).2
            = trace w ++ retry_trace url n) as ->
      by (by destruct Hrun as [[d ->]|[e ->]]).
    rewrite retry_trace_fetch_count, retry_trace_slept.
    split; [done|]. split; [lia|]. split; [lia|]. split; [lia|].
    split; [apply retry_trace_waits|]. split; [apply retry_trace_fetches_only|].
    rewrite Hc. by intros [? ?].
Qed.

(** X4. Rate-limit signals whose body does not parse are waited out: when
    the first [n] requests of a call meet one, [n] being at most the retry
    count, and the next request is answered with a body that parses, the
    call returns that payload after [n] waits of 10 seconds and [n + 1]
    requests, and caches it. *)
Theorem fetchWithRetry_recovers {payload : Type}
    (upstream : string -> nat -> exchange payload) (url : string) (retryCount n : nat)
    (w : world payload) (status : Z) (data : payload) :
  cache w !! url = None ->
  n <= retryCount ->
  (forall j, j < n ->
     exists e, upstream url (fetch_count (trace w) + j) = Responds 429 (Throw e)) ->
  upstream url (fetch_count (trace w) + n) = Responds status (Normal data) ->
  fetchWithRetry upstream url retryCount w
  = (Normal data, mkWorld (<[url := data]> (cache w)) (trace w ++ retry_trace url n)) /\
  slept_ms (retry_trace url n) = (10000 * Z.of_nat n)%Z /\
  fetch_count (retry_trace url n) = n + 1.
Proof.
  intros Hc Hn Hlim Hok.
  split; [|split; [apply retry_trace_slept|rewrite retry_trace_fetch_count; lia]].
  revert retryCount w Hc Hn Hlim Hok.
  induction n as [|n IH]; intros retryCount w Hc Hn Hlim Hok.
  - rewrite Nat.add_0_r in Hok.
    by rewrite (fetchWithRetry_parsed upstream url retryCount w status data).
  - destruct retryCount as [|rc]; [lia|].
    destruct (Hlim 0 ltac:(lia)) as [e He]. rewrite Nat.add_0_r in He.
    rewrite (fetchWithRetry_rate_limited_retry upstream url rc w e Hc He).
    rewrite IH; simpl; try done; try lia.
    + rewrite retry_trace_S, <- app_assoc. done.
    + intros j Hj. rewrite fetch_count_app. simpl.
      destruct (Hlim (S j) ltac:(lia)) as [e' He']. exists e'.
      rewrite <- He'. f_equal. lia.
    + rewrite fetch_count_app. simpl. rewrite <- Hok. f_equal. lia.
Qed.

(** Two rate-limit signals, then the payload. *)
Lemma fetchWithRetry_recovers_witness :
  fetchWithRetry (recovering_upstream 2) "u" 3 (mkWorld ∅ [])
  = (Normal "ok",
     mkWorld (<["u" := "ok"]> ∅)
       [EvFetch "u"; EvSleep 10000; EvFetch "u"; EvSleep 10000; EvFetch "u"]) /\
  slept_ms (retry_trace "u" 2) = 20000%Z /\
  fetch_count (retry_trace "u" 2) = 3.
Proof.
  apply (fetchWithRetry_recovers (recovering_upstream 2) "u" 3 2 (mkWorld ∅ []) 200 "ok").
  - apply lookup_empty.
  - lia.
  - intros j Hj. exists ParseError. simpl. unfold recovering_upstream.
    destruct (decide (j < 2)); [done|lia].
  - reflexivity.
Defined.

(** X5. A rate limit that lasts through every retry ends the call with the
    rate-limit error: for every retry count [r], when each of the [r + 1]
    requests meets a rate-limit signal whose body does not parse, the call
    waits [r] times 10 seconds, throws, and leaves the cache as it was. *)
Theorem fetchWithRetry_rate_limit_lasts {payload : Type}
    (upstream : string -> nat -> exchange payload) (url : string) (retryCount : nat)
    (w : world payload) :
  cache w !! url = None ->
  (forall j, j <= retryCount ->
     exists e, upstream url (fetch_count (trace w) + j) = Responds 429 (Throw e)) ->
  fetchWithRetry upstream url retryCount w
  = (Throw RateLimitExceeded,
     mkWorld (cache w) (trace w ++ retry_trace url retryCount)) /\
  slept_ms (retry_trace url retryCount) = (10000 * Z.of_nat retryCount)%Z.
Proof.
  intros Hc Hlim. split; [|apply retry_trace_slept].
  revert w Hc Hlim. induction retryCount as [|rc IH]; intros w Hc Hlim.
  - destruct (Hlim 0 ltac:(lia)) as [e He]. rewrite Nat.add_0_r in He.
    by rewrite (fetchWithRetry_rate_limited_last upstream url w e).
  - destruct (Hlim 0 ltac:(lia)) as [e He]. rewrite Nat.add_0_r in He.
    rewrite (fetchWithRetry_rate_limited_retry upstream url rc w e Hc He).
    rewrite IH; simpl; try done.
    + rewrite retry_trace_S, <- app_assoc. done.
    + intros j Hj. rewrite fetch_count_app. simpl.
      destruct (Hlim (S j) ltac:(lia)) as [e' He']. exists e'.
      rewrite <- He'. f_equal. lia.
Qed.

(** A rate limit that outlasts a retry count of 5. *)
Lemma fetchWithRetry_rate_limit_lasts_witness :
  fetchWithRetry (recovering_upstream 6) "u" 5 (mkWorld ∅ [])
  = (Throw RateLimitExceeded, mkWorld ∅ ([] ++ retry_trace "u" 5)) /\
  slept_ms (retry_trace "u" 5) = 50000%Z.
Proof.
  apply (fetchWithRetry_rate_limit_lasts (recovering_upstream 6) "u" 5 (mkWorld ∅ [])).
  - apply lookup_empty.
  - intros j Hj. exists ParseError. simpl. unfold recovering_upstream.
    destruct (decide (j < 6)); [done|lia].
Defined.

(** ** The first score of the risk scorer *)

(** X6. The scorer returns the first score that an attempt delivers and
    stops there: when the attempts before attempt [k] deliver none (a
    rate-limit signal, a rejected request, an unusable body) and attempt [k]
    delivers one, [k] being below the retry count, the result is that score,
    after [k + 1] requests and no more. *)
Theorem fetchRevertRiskScore_first_score {num : Type} `{!JsNumber num}
    (endpoint : Z -> nat -> exchange (risk_payload num)) (revisionId : Z)
    (retryCount k : nat) (p : value num) :
  k < retryCount ->
  (forall j, j < k -> score_of (endpoint revisionId j) = None) ->
  score_of (endpoint revisionId k) = Some p ->
  fetchRevertRiskScore endpoint revisionId retryCount
  = (Normal p, attempts_trace endpoint revisionId 0 (S k)) /\
  fetch_count (attempts_trace endpoint revisionId 0 (S k)) = S k.
Proof.
  intros Hk Hnone Hp. split; [|apply attempts_trace_fetch_count].
  unfold fetchRevertRiskScore.
  assert (forall n start tr rc,
            n < rc ->
            (forall j, j < n -> score_of (endpoint revisionId (start + j)) = None) ->
            score_of (endpoint revisionId (start + n)) = Some p ->
            risk_loop endpoint revisionId rc start tr
            = (Normal p, tr ++ attempts_trace endpoint revisionId start (S n))) as Hloop.
  { clear. induction n as [|n IH]; intros start tr rc Hrc Hnone Hp;
      (destruct rc as [|rc]; [lia|]); rewrite risk_loop_step.
    - rewrite Nat.add_0_r in Hp. rewrite Hp.
      unfold attempts_trace. simpl. by rewrite app_nil_r.
    - pose proof (Hnone 0 ltac:(lia)) as H0. rewrite Nat.add_0_r in H0. rewrite H0.
      rewrite (IH (S start)); [| lia | |].
      + unfold attempts_trace. simpl. by rewrite <- app_assoc.
      + intros j Hj. replace (S start + j) with (start + S j) by lia. apply Hnone. lia.
      + by replace (S start + n) with (start + S n) by lia. }
  by rewrite (Hloop k 0 [] retryCount).
Qed.

(** A rate-limit signal, a rejected request, then the score 0.25. *)
Lemma fetchRevertRiskScore_first_score_witness :
  fetchRevertRiskScore late_endpoint 7 3
  = (Normal (VNumber 0.25%float), attempts_trace late_endpoint 7 0 3) /\
  fetch_count (attempts_trace late_endpoint 7 0 3) = 3.
Proof.
  apply (fetchRevertRiskScore_first_score late_endpoint 7 3 2 (VNumber 0.25%float)).
  - lia.
  - intros j Hj. destruct j as [|[|j]]; [reflexivity | reflexivity | lia].
  - reflexivity.
Defined.

(** ** What the diff retriever returns *)

Lemma prefix_split (p s : string) :
  String.prefix p s = true -> s = p +:+ string_drop (String.length p) s.
Proof.
  revert s. induction p as [|c p IH]; intros s H; [by destruct s|].
  destruct s as [|c' s]; [done|].
  apply prefix_cons_inv in H as [<- H].
  change (String c s = String c (p +:+ string_drop (String.length p) s)).
  f_equal. by apply IH.
Qed.

(** What [split_at_first] finds is an occurrence, and the first one. *)
Lemma split_at_first_sound (p s a b : string) :
  split_at_first p s = Some (a, b) ->
  s = a +:+ p +:+ b /\
  forall k, k < String.length a -> String.prefix p (string_drop k s) = false.
Proof.
  revert a. induction s as [|c s IH]; intros a H; rewrite split_at_first_eq in H.
  - destruct (String.prefix p EmptyString) eqn:E; [|done].
    injection H as <- <-. split; [by apply prefix_split|]. simpl. lia.
  - destruct (String.prefix p (String c s)) eqn:E.
    + injection H as <- <-. split; [by apply prefix_split|]. simpl. lia.
    + destruct (split_at_first p s) as [[before behind]|]; [|done].
      injection H as <- <-. destruct (IH before eq_refl) as [-> Hfirst].
      split; [done|]. intros [|k] Hk; [exact E|].
      simpl. apply Hfirst. simpl in Hk. lia.
Qed.

(** X7. The retriever returns nothing but the inside of the block: whenever
    it returns a text, the payload holds exactly one opening tag, the text
    stands between that tag and a closing tag, and no closing tag starts
    inside the returned text. *)
Theorem fetchDiffFromRevId_returns_block_only (reply : completion compare_payload)
    (unifiedDiff : string) :
  fetchDiffFromRevId reply = Normal unifiedDiff ->
  exists before behind,
    reply = Normal (Compare (Some (before +:+ "<pre>" +:+ unifiedDiff +:+ "</pre>" +:+ behind))) /\
    count_matches "<pre>" (before +:+ "<pre>" +:+ unifiedDiff +:+ "</pre>" +:+ behind) = 1 /\
    forall k, k < String.length unifiedDiff ->
      String.prefix "</pre>" (string_drop k (unifiedDiff +:+ "</pre>" +:+ behind)) = false.
Proof.
  unfold fetchDiffFromRevId.
  destruct reply as [[|[diffText|]]|e]; try done.
  cbn [mbind completion_bind].
  destruct (decide (count_matches "<pre>" diffText <> 1)) as [|Hc]; [done|].
  unfold match_pre_block.
  destruct (split_at_first "<pre>" diffText) as [[before rest]|] eqn:E1; [|done].
  cbn [mbind option_bind].
  destruct (split_at_first "</pre>" rest) as [[inner behind]|] eqn:E2; [|done].
  cbn [mbind option_bind]. intros [= <-].
  apply split_at_first_sound in E1 as [-> _].
  apply split_at_first_sound in E2 as [-> Hfirst].
  exists before, behind. split; [done|]. split; [|exact Hfirst].
  destruct (decide (count_matches "<pre>" (before +:+ "<pre>" +:+ inner +:+ "</pre>" +:+ behind) = 1));
    [done|]. by destruct Hc.
Qed.

Lemma fetchDiffFromRevId_returns_block_only_witness :
  fetchDiffFromRevId a_diff_reply = Normal "-a" /\
  exists before behind,
    a_diff_reply = Normal (Compare (Some (before +:+ "<pre>" +:+ "-a" +:+ "</pre>" +:+ behind))) /\
    count_matches "<pre>" (before +:+ "<pre>" +:+ "-a" +:+ "</pre>" +:+ behind) = 1 /\
    forall k, k < String.length "-a" ->
      String.prefix "</pre>" (string_drop k ("-a" +:+ "</pre>" +:+ behind)) = false.
Proof.
  split; [reflexivity|].
  apply (fetchDiffFromRevId_returns_block_only a_diff_reply "-a"). reflexivity.
Defined.

(** X8. For a locator with a title and a revision id, a payload with one
    opening tag and a closing tag behind it yields the text between the
    opening tag and the first closing tag behind it, character for
    character, whatever stands before the block and behind it. *)
Theorem fetchDiffFromUrl_inner_text (revisionUrl : RevisionUrl) (t o : string)
    (before inner behind : string) :
  truthy (title revisionUrl) = Some t ->
  truthy (oldid revisionUrl) = Some o ->
  count_matches "<pre>" (before +:+ "<pre>" +:+ inner +:+ "</pre>" +:+ behind) = 1 ->
  (forall k, k < String.length inner ->
     String.prefix "</pre>" (string_drop k (inner +:+ "</pre>" +:+ behind)) = false) ->
  fetchDiffFromUrl revisionUrl
    (Normal (Compare (Some (before +:+ "<pre>" +:+ inner +:+ "</pre>" +:+ behind))))
  = Normal inner.
Proof.
  intros Ht Ho Hc Hinner. rewrite (fetchDiffFromUrl_ok _ t o _ Ht Ho).
  by apply fetchDiffFromRevId_single_block.
Qed.

(** A block of two changes inside a table cell. *)
Lemma fetchDiffFromUrl_inner_text_witness :
  fetchDiffFromUrl a_revision_url
    (Normal (Compare (Some ("<td>" +:+ "<pre>" +:+ "-a+b" +:+ "</pre>" +:+ "</td>"))))
  = Normal "-a+b".
Proof.
  apply (fetchDiffFromUrl_inner_text a_revision_url "T" "3" "<td>" "-a+b" "</td>").
  - reflexivity.
  - reflexivity.
  - reflexivity.
  - intros k Hk. destruct k as [|[|[|[|k]]]]; try reflexivity. simpl in Hk. lia.
Defined.

(** ** Histories of several pages *)

Section HistoryChains.
Context {num : Type}.
Variable encodeURIComponent : string -> string.
Implicit Types (page : list (ApiRevision num)) (pages : list (list (ApiRevision num))).

Lemma set_diff_revision_of_api t (revision : ApiRevision num) :
  set_diff (revision_of_api encodeURIComponent t revision) None
  = revision_of_api encodeURIComponent t revision.
Proof using Type. done. Qed.

Lemma set_diff_set_diff (r : Revision num) d : set_diff (set_diff r d) None = set_diff r None.
Proof using Type. done. Qed.

(** The body of [fetchPastRevisions]. *)
Lemma fetchPastRevisions_eq revisionUrl (reply : history_reply num) diffReply :
  fetchPastRevisions encodeURIComponent revisionUrl reply diffReply
  = match truthy (title revisionUrl) with
    | None => Throw InvalidRevisionUrl
    | Some title =>
        match reply with
        | HistoryThrows e => Throw e
        | HistoryNoPages => Throw UnexpectedApiStructure
        | HistoryPage None _ => Throw TypeError
        | HistoryPage (Some page_revisions) continuation =>
            nextRevisions ←
              match continuation with
              | Some reply' =>
                  fetchPastRevisions encodeURIComponent revisionUrl reply' diffReply
              | None => Normal []
              end;
            diffText ← fetchDiffFromUrl revisionUrl diffReply;
            match rev (map (revision_of_api encodeURIComponent title) page_revisions
                       ++ nextRevisions) with
            | [] => Throw TypeError
            | r :: revisions' => Normal (set_diff r (Some diffText) :: revisions')
            end
        end
    end.
Proof using Type. by destruct reply. Qed.

(** One step of the recursion, for a page with a continuation. *)
Lemma fetchPastRevisions_continued revisionUrl t page (reply : history_reply num)
    diffReply d nextRevisions :
  truthy (title revisionUrl) = Some t ->
  fetchDiffFromUrl revisionUrl diffReply = Normal d ->
  fetchPastRevisions encodeURIComponent revisionUrl reply diffReply = Normal nextRevisions ->
  fetchPastRevisions encodeURIComponent revisionUrl
    (HistoryPage (Some page) (Some reply)) diffReply
  = match rev (map (revision_of_api encodeURIComponent t) page ++ nextRevisions) with
    | [] => Throw TypeError
    | r :: revisions => Normal (set_diff r (Some d) :: revisions)
    end.
Proof using Type.
  intros Ht Hd Hnext.
  rewrite (fetchPastRevisions_eq _ (HistoryPage (Some page) (Some reply))).
  rewrite Ht, Hnext. cbn [mbind completion_bind]. by rewrite Hd.
Qed.

Lemma fetchPastRevisions_chain revisionUrl t pages page diffReply d :
  truthy (title revisionUrl) = Some t ->
  fetchDiffFromUrl revisionUrl diffReply = Normal d ->
  page <> [] ->
  exists revisions,
    fetchPastRevisions encodeURIComponent revisionUrl
      (history_chain pages (HistoryPage (Some page) None)) diffReply
    = Normal revisions /\
    revisions <> [] /\
    Permutation (map (fun r => set_diff r None) revisions)
      (map (revision_of_api encodeURIComponent t) (concat pages ++ page)).
Proof using Type.
  intros Ht Hd Hne. induction pages as [|first pages IH].
  - simpl history_chain. rewrite (fetchPastRevisions_single_page _ _ t _ _ d Ht Hd).
    destruct (rev (map (revision_of_api encodeURIComponent t) page)) as [|r revisions] eqn:E.
    { apply (f_equal (@length _)) in E. rewrite length_rev, length_map in E.
      destruct page; simpl in E; [done|lia]. }
    eexists. split; [done|]. split; [done|].
    cbn [map concat app]. rewrite set_diff_set_diff.
    change (set_diff r None :: map (fun r => set_diff r None) revisions)
      with (map (fun r => set_diff r None) (r :: revisions)).
    rewrite <- E, <- map_rev, map_map.
    rewrite (map_ext _ _ (set_diff_revision_of_api t)).
    apply Permutation_map. symmetry. apply Permutation_rev.
  - destruct IH as (nextRevisions & Hnext & Hnonempty & Hperm).
    cbn [history_chain].
    rewrite (fetchPastRevisions_continued _ t _ _ _ d nextRevisions Ht Hd Hnext).
    destruct (rev (map (revision_of_api encodeURIComponent t) first ++ nextRevisions))
      as [|r revisions] eqn:E.
    { apply (f_equal (@length _)) in E. rewrite length_rev, length_app in E.
      destruct nextRevisions; simpl in E; [done|lia]. }
    eexists. split; [done|]. split; [done|].
    cbn [map]. rewrite set_diff_set_diff.
    change (set_diff r None :: map (fun r => set_diff r None) revisions)
      with (map (fun r => set_diff r None) (r :: revisions)).
    rewrite <- E, <- Permutation_rev, map_app, map_map.
    cbn [concat]. rewrite <- app_assoc, map_app.
    apply Permutation_app; [|exact Hperm].
    by rewrite (map_ext _ _ (set_diff_revision_of_api t)).
Qed.

(** A failure behind any number of pages is the failure of the call. *)
Lemma fetchPastRevisions_chain_throws revisionUrl pages (reply : history_reply num)
    diffReply e :
  fetchPastRevisions encodeURIComponent revisionUrl reply diffReply = Throw e ->
  fetchPastRevisions encodeURIComponent revisionUrl (history_chain pages reply) diffReply
  = Throw e.
Proof using Type.
  intros Hlast. induction pages as [|page pages IH]; [done|].
  cbn [history_chain].
  rewrite (fetchPastRevisions_eq _ (HistoryPage (Some page) _)), IH.
  destruct (truthy (title revisionUrl)) eqn:Ht; [done|].
  rewrite fetchPastRevisions_eq, Ht in Hlast. exact Hlast.
Qed.

End HistoryChains.

(** X9. Over a history of any number of pages no revision is lost and none
    is repeated: with a locator that has its title, a diff that is retrieved
    and a last page that lists a revision, the call returns, and apart from
    the diff it attaches, what it returns is a rearrangement of the records
    of all the revisions the pages list. *)
Theorem fetchPastRevisions_keeps_every_revision {num : Type}
    (encodeURIComponent : string -> string) (revisionUrl : RevisionUrl) (t : string)
    (pages : list (list (ApiRevision num))) (page : list (ApiRevision num))
    (diffReply : completion compare_payload) (d : string) :
  truthy (title revisionUrl) = Some t ->
  fetchDiffFromUrl revisionUrl diffReply = Normal d ->
  page <> [] ->
  exists revisions,
    fetchPastRevisions encodeURIComponent revisionUrl
      (history_chain pages (HistoryPage (Some page) None)) diffReply
    = Normal revisions /\
    length revisions = length (concat pages ++ page) /\
    Permutation (map (fun r => set_diff r None) revisions)
      (map (revision_of_api encodeURIComponent t) (concat pages ++ page)) /\
    Permutation (map timestamp revisions) (map api_timestamp (concat pages ++ page)).
Proof.
  intros Ht Hd Hne.
  destruct (fetchPastRevisions_chain encodeURIComponent revisionUrl t pages page
              diffReply d Ht Hd Hne) as (revisions & Hrun & _ & Hperm).
  exists revisions. split; [exact Hrun|].
  split; [|split; [exact Hperm|]].
  - apply Permutation_length in Hperm. by rewrite !length_map in Hperm.
  - apply (Permutation_map timestamp) in Hperm.
    by rewrite !map_map in Hperm.
Qed.

(** The three pages of nine revisions. *)
Lemma fetchPastRevisions_keeps_every_revision_witness :
  exists revisions,
    fetchPastRevisions (fun s => s) a_revision_url three_pages a_diff_reply
    = Normal revisions /\
    length revisions = 9 /\
    Permutation (map (fun r => set_diff r None) revisions)
      (map (revision_of_api (fun s => s) "T")
         (map (fun k => mkApiRevision k "A" 7 (F64.of_Z k)) [9; 8; 7; 6; 5; 4; 3; 2; 1]%Z)) /\
    Permutation (map timestamp revisions) [9; 8; 7; 6; 5; 4; 3; 2; 1]%float.
Proof.
  apply (fetchPastRevisions_keeps_every_revision (fun s => s) a_revision_url "T"
           [ [mkApiRevision 9 "A" 7 9%float; mkApiRevision 8 "A" 7 8%float;
              mkApiRevision 7 "A" 7 7%float];
             [mkApiRevision 6 "A" 7 6%float; mkApiRevision 5 "A" 7 5%float;
              mkApiRevision 4 "A" 7 4%float] ]
           [mkApiRevision 3 "A" 7 3%float; mkApiRevision 2 "A" 7 2%float;
            mkApiRevision 1 "A" 7 1%float]
           a_diff_reply "-a"); [reflexivity | reflexivity | discriminate].
Defined.

(** X10. On a history of one page the diff of the locator is attached to
    the revision at index 0 and to no other one: every other revision
    carries null. *)
Theorem fetchPastRevisions_diff_at_index_0 {num : Type}
    (encodeURIComponent : string -> string) (revisionUrl : RevisionUrl) (t : string)
    (page : list (ApiRevision num)) (diffReply : completion compare_payload) (d : string) :
  truthy (title revisionUrl) = Some t ->
  fetchDiffFromUrl revisionUrl diffReply = Normal d ->
  page <> [] ->
  exists revisions,
    fetchPastRevisions encodeURIComponent revisionUrl (HistoryPage (Some page) None)
      diffReply = Normal revisions /\
    forall i r, revisions !! i = Some r ->
      diff r = if decide (i = 0) then Some d else None.
Proof.
  intros Ht Hd Hne.
  rewrite (fetchPastRevisions_single_page _ _ t _ _ d Ht Hd).
  destruct (rev (map (revision_of_api encodeURIComponent t) page)) as [|r0 revisions] eqn:E.
  { apply (f_equal (@length _)) in E. rewrite length_rev, length_map in E.
    destruct page; simpl in E; [done|lia]. }
  eexists. split; [done|]. intros [|i] r Hi.
  - injection Hi as <-. done.
  - change ((r0 :: revisions) !! S i = Some r) in Hi.
    rewrite <- E, <- map_rev, list_lookup_fmap in Hi.
    destruct (rev page !! S i); [|done]. by injection Hi as <-.
Qed.

(** The page of two revisions. *)
Lemma fetchPastRevisions_diff_at_index_0_witness :
  exists revisions,
    fetchPastRevisions (fun s => s) a_revision_url two_revisions a_diff_reply
    = Normal revisions /\
    forall i r, revisions !! i = Some r ->
      diff r = if decide (i = 0) then Some "-a" else None.
Proof.
  apply (fetchPastRevisions_diff_at_index_0 (fun s => s) a_revision_url "T" _
           a_diff_reply "-a"); [reflexivity | reflexivity | discriminate].
Defined.

(** X11. A history is all or nothing: when the request behind any number
    of good pages fails (the request throws, the reply has no pages, the
    page has no revision list), the whole call throws that failure and
    returns none of the pages it had read; and so does a diff that cannot be
    retrieved. *)
Theorem fetchPastRevisions_all_or_nothing {num : Type}
    (encodeURIComponent : string -> string) (revisionUrl : RevisionUrl) (t : string)
    (pages : list (list (ApiRevision num))) (diffReply : completion compare_payload) :
  truthy (title revisionUrl) = Some t ->
  (forall e,
     fetchPastRevisions encodeURIComponent revisionUrl
       (history_chain pages (HistoryThrows e)) diffReply = Throw e) /\
  fetchPastRevisions encodeURIComponent revisionUrl
    (history_chain pages HistoryNoPages) diffReply = Throw UnexpectedApiStructure /\
  (forall continuation,
     fetchPastRevisions encodeURIComponent revisionUrl
       (history_chain pages (HistoryPage None continuation)) diffReply = Throw TypeError) /\
  (forall page e,
     fetchDiffFromUrl revisionUrl diffReply = Throw e ->
     fetchPastRevisions encodeURIComponent revisionUrl
       (history_chain pages (HistoryPage (Some page) None)) diffReply = Throw e).
Proof.
  intros Ht. repeat split; intros; apply fetchPastRevisions_chain_throws;
    rewrite fetchPastRevisions_eq, Ht; try done.
  cbn [mbind completion_bind]. by rewrite H.
Qed.

(** Two good pages in front of each failure, and a diff request that is
    rejected. *)
Lemma fetchPastRevisions_all_or_nothing_witness :
  (forall e,
     fetchPastRevisions (fun s => s) a_revision_url
       (history_chain [[mkApiRevision 2 "A" 7 2%float]; [mkApiRevision 1 "A" 7 1%float]]
          (HistoryThrows e)) (Throw TransportError) = Throw e) /\
  fetchPastRevisions (fun s => s) a_revision_url
    (history_chain [[mkApiRevision 2 "A" 7 2%float]; [mkApiRevision 1 "A" 7 1%float]]
       HistoryNoPages) (Throw TransportError) = Throw UnexpectedApiStructure /\
  (forall continuation,
     fetchPastRevisions (fun s => s) a_revision_url
       (history_chain [[mkApiRevision 2 "A" 7 2%float]; [mkApiRevision 1 "A" 7 1%float]]
          (HistoryPage None continuation)) (Throw TransportError) = Throw TypeError) /\
  fetchPastRevisions (fun s => s) a_revision_url
    (history_chain [[mkApiRevision 2 "A" 7 2%float]; [mkApiRevision 1 "A" 7 1%float]]
       (HistoryPage (Some [mkApiRevision 0 "A" 7 0%float]) None)) (Throw TransportError)
  = Throw TransportError.
Proof.
  destruct (fetchPastRevisions_all_or_nothing (fun s => s) a_revision_url "T"
              [[mkApiRevision 2 "A" 7 2%float]; [mkApiRevision 1 "A" 7 1%float]]
              (Throw TransportError) eq_refl) as (H1 & H2 & H3 & H4).
  split; [exact H1|]. split; [exact H2|]. split; [exact H3|].
  apply H4. reflexivity.
Defined.

(** ** Gaps, spans and statistics *)

(** X12. [differences] returns one gap for each pair of neighbours, in
    order: one element fewer than its argument (none for an argument of
    fewer than two elements), the gap at index [i] being the element at
    [i + 1] minus the element at [i]. *)
Theorem differences_of_neighbours {num : Type} `{!JsNumber num} (nums : list num) :
  length (differences nums) = length nums - 1 /\
  (length nums < 2 -> differences nums = []) /\
  forall i a b, nums !! i = Some a -> nums !! S i = Some b ->
    differences nums !! i = Some (num_sub b a).
Proof.
  unfold differences. split; [by rewrite length_imap, length_drop|]. split.
  - intros Hlen. destruct nums as [|a [|b nums]]; simpl in *; [done|done|lia].
  - intros i a b Ha Hb.
    rewrite list_lookup_imap, lookup_drop. simpl. rewrite Hb. simpl. by rewrite Ha.
Qed.

Section ExactStatistics.
Import Exact.

Lemma timestamp_lookup (revisions : list (Revision xreal)) (ts : list R) i r :
  map timestamp revisions = map Fin ts ->
  revisions !! i = Some r -> timestamp r = Fin (nth i ts 0%R).
Proof.
  intros H Hi.
  assert (map Fin ts !! i = Some (timestamp r)) as Hts
    by (by rewrite <- H, list_lookup_fmap, Hi).
  rewrite list_lookup_fmap in Hts.
  destruct (ts !! i) as [x|] eqn:E; [|done].
  injection Hts as <-. f_equal. symmetry. by apply nth_lookup_Some with (d := 0%R) in E.
Qed.

(** The sum of the gaps behind index [k] telescopes. *)
Lemma reduce_gaps_telescopes (revisions : list (Revision xreal)) (ts : list R) :
  map timestamp revisions = map Fin ts ->
  forall rest k a,
    drop (S k) revisions = rest ->
    k < length revisions ->
    fold_left
      (fun acc (ix : nat * Revision xreal) =>
         match ix.1 with
         | O => acc
         | S index' =>
             num_add acc
               (num_sub (timestamp ix.2) (timestamp (default ix.2 (revisions !! index'))))
         end)
      (zip (seq (S k) (length rest)) rest) (Fin a)
    = Fin (a + (nth (k + length rest) ts 0 - nth k ts 0))%R.
Proof.
  intros H. induction rest as [|r rest IH]; intros k a Hdrop Hk.
  - simpl. f_equal. rewrite Nat.add_0_r. lra.
  - assert (revisions !! S k = Some r) as Hr.
    { rewrite <- (Nat.add_0_r (S k)), <- lookup_drop, Hdrop. done. }
    assert (drop (S (S k)) revisions = rest) as Hdrop'.
    { rewrite (drop_S _ _ _ Hr) in Hdrop. by injection Hdrop. }
    destruct (revisions !! k) as [r'|] eqn:Hr';
      [|apply lookup_ge_None in Hr'; lia].
    cbn [length seq zip zip_with fold_left fst snd].
    rewrite Hr'. change (default r (Some r')) with r'.
    rewrite (timestamp_lookup _ _ _ _ H Hr), (timestamp_lookup _ _ _ _ H Hr').
    change (num_add (Fin a) (num_sub (Fin (nth (S k) ts 0%R)) (Fin (nth k ts 0%R))))
      with (Fin (a + (nth (S k) ts 0 + - nth k ts 0))%R).
    rewrite (IH (S k)); [|done|by eapply lookup_lt_Some].
    f_equal. replace (k + S (length rest)) with (S k + length rest) by lia. lra.
Qed.

Lemma last_is_nth (l : list R) : List.last l 0%R = nth (length l - 1) l 0%R.
Proof.
  induction l as [|x [|y l] IH]; [done|done|].
  change (List.last (x :: y :: l) 0%R) with (List.last (y :: l) 0%R).
  rewrite IH. simpl. by rewrite Nat.sub_0_r.
Qed.

Lemma Sorted_nth_le (l : list R) i j :
  Sorted Rle l -> i <= j -> j < length l -> (nth i l 0 <= nth j l 0)%R.
Proof.
  intros Hs. apply Sorted_StronglySorted in Hs; [|intros x y z; apply Rle_trans].
  revert i j. induction Hs as [|a l Hs IH Ha]; intros i j Hij Hj; [simpl in Hj; lia|].
  destruct i as [|i], j as [|j]; simpl in *; try lia; [lra| |apply IH; lia].
  rewrite Forall_forall in Ha. apply Ha, list_elem_of_In, nth_In. lia.
Qed.

Lemma Rsum_bounds (xs : list R) lo hi :
  (forall x, In x xs -> (lo <= x <= hi)%R) ->
  (lo * INR (length xs) <= Rsum xs <= hi * INR (length xs))%R.
Proof.
  induction xs as [|x xs IH]; intros H.
  - unfold Rsum. simpl. lra.
  - change (Rsum (x :: xs)) with (x + Rsum xs)%R.
    change (length (x :: xs)) with (S (length xs)). rewrite S_INR.
    destruct (H x ltac:(by left)). destruct IH; [intros; apply H; by right|]. lra.
Qed.

Lemma arithmetic_mean_bounds (xs : list R) lo hi :
  xs <> [] -> (forall x, In x xs -> (lo <= x <= hi)%R) ->
  (lo <= arithmetic_mean xs <= hi)%R.
Proof.
  intros Hne H. pose proof (Rsum_bounds xs lo hi H) as [Hlo Hhi].
  assert (0 < INR (length xs))%R as Hn
    by (apply lt_0_INR; destruct xs; simpl; [done|lia]).
  unfold arithmetic_mean. split.
  - apply Rmult_le_reg_r with (INR (length xs)); [done|].
    unfold Rdiv. rewrite Rmult_assoc, Rinv_l by lra. lra.
  - apply Rmult_le_reg_r with (INR (length xs)); [done|].
    unfold Rdiv. rewrite Rmult_assoc, Rinv_l by lra. lra.
Qed.

Lemma arithmetic_mean_perm xs ys :
  Permutation xs ys -> arithmetic_mean xs = arithmetic_mean ys.
Proof.
  intros Hp. unfold arithmetic_mean.
  by rewrite (Rsum_perm _ _ Hp), (Permutation_length Hp).
Qed.

Lemma population_std_dev_perm xs ys :
  Permutation xs ys -> population_std_dev xs = population_std_dev ys.
Proof.
  intros Hp. unfold population_std_dev.
  rewrite (arithmetic_mean_perm _ _ Hp), (Permutation_length Hp).
  by rewrite (Rsum_perm _ _ (Permutation_map _ Hp)).
Qed.

Lemma stable_sort_Rgtb_perm xs ys :
  Permutation xs ys -> stable_sort Rgtb xs = stable_sort Rgtb ys.
Proof.
  intros Hp. apply sorted_perm_unique; try apply Rgtb_sorted.
  rewrite stable_sort_perm, Hp. symmetry. apply stable_sort_perm.
Qed.

Lemma stable_sort_Rgtb_idem xs : stable_sort Rgtb (stable_sort Rgtb xs) = stable_sort Rgtb xs.
Proof. apply stable_sort_Rgtb_perm, stable_sort_perm. Qed.

(** The statistics of two arrangements of a sample. *)
Lemma distribution_statistics_perm base (xs ys : list R) (nums nums' : loc)
    (h h' : heap xreal) :
  Permutation xs ys ->
  h !! nums = Some (map Fin xs) ->
  h' !! nums' = Some (map Fin ys) ->
  (extractDistributionStatistics base nums h).1
  = (extractDistributionStatistics base nums' h').1.
Proof.
  intros Hp Hh Hh'. destruct xs as [|x xs].
  - apply Permutation_nil in Hp as ->.
    unfold extractDistributionStatistics. cbn [fst].
    rewrite (heap_read_lookup _ _ _ Hh), (heap_read_lookup _ _ _ Hh').
    by rewrite (heap_read_write _ _ _ _ Hh), (heap_read_write _ _ _ _ Hh').
  - assert (ys <> []) as Hne.
    { intros ->. symmetry in Hp. by apply Permutation_nil in Hp. }
    rewrite (distribution_statistics_closed_form base (x :: xs) nums h) by done.
    rewrite (distribution_statistics_closed_form base ys nums' h') by done.
    cbv zeta. cbn [fst].
    rewrite (stable_sort_Rgtb_perm _ _ Hp), (arithmetic_mean_perm _ _ Hp),
      (population_std_dev_perm _ _ Hp), (Permutation_length Hp). done.
Qed.

End ExactStatistics.

(** X13. On exact numbers the average time between revisions is the time
    from the first revision of the array to the last one, divided by the
    number of revisions (one more than the number of gaps); it is 0 for
    fewer than two revisions. The gaps telescope: the revisions in between
    do not matter. *)
Theorem calculateAverageTimeBetweenRevisions_span
    (revisions : list (Revision Exact.xreal)) (ts : list R) :
  map timestamp revisions = map Exact.Fin ts ->
  calculateAverageTimeBetweenRevisions revisions
  = if decide (length ts < 2) then Exact.Fin 0
    else Exact.Fin ((List.last ts 0 - hd 0 ts) / INR (length ts))%R.
Proof.
  intros H.
  assert (length revisions = length ts) as Hlen
    by (apply (f_equal (@length _)) in H; by rewrite !length_map in H).
  unfold calculateAverageTimeBetweenRevisions. rewrite Hlen.
  destruct (decide (length ts < 2)) as [|Hge]; [done|].
  destruct revisions as [|r0 revisions]; [simpl in Hlen; lia|].
  unfold reduce_indexed.
  cbn [length seq zip zip_with fold_left fst snd].
  change (@num_of_Z Exact.xreal _ 0) with (Exact.Fin 0).
  rewrite (reduce_gaps_telescopes (r0 :: revisions) ts H revisions 0 0%R);
    [|done|simpl; lia].
  rewrite exact_div_length by lia.
  rewrite last_is_nth. simpl in Hlen. rewrite <- Hlen.
  replace (S (length revisions) - 1) with (0 + length revisions) by lia.
  f_equal. f_equal. destruct ts; simpl; lra.
Qed.

(** Revisions at the times 0, 100 and 250: a span of 250 over 3 revisions. *)
Lemma calculateAverageTimeBetweenRevisions_span_witness :
  calculateAverageTimeBetweenRevisions
    (map (fun t => mkRevision "r" "a" "A" 7 (Exact.Fin t) None) [0; 100; 250]%R)
  = Exact.Fin ((250 - 0) / INR 3)%R.
Proof.
  rewrite (calculateAverageTimeBetweenRevisions_span _ [0; 100; 250]%R); [|reflexivity].
  destruct (decide (length [0; 100; 250]%R < 2)) as [Hlt|_]; [simpl in Hlt; lia|].
  reflexivity.
Defined.

(** X14. On every number type, binary64 included, the median and the two
    quartiles of a non-empty sample are elements of the sample. On exact
    numbers, for a non-empty sample of finite numbers, they are in the order
    first quartile, median, third quartile, the average lies between any
    bounds of the sample, and the standard deviation is not negative. On
    binary64 the average can leave the bounds by rounding: the average of
    three times the number next to one tenth is above that number. *)
Theorem extractDistributionStatistics_ordered base :
  (forall (num : Type) (number : JsNumber num) (sample : list num) (nums : loc)
          (h : heap num),
     sample <> [] ->
     h !! nums = Some sample ->
     exists (average median q1 q3 stdDev : num),
       (extractDistributionStatistics base nums h).1
       = [ (base +:+ "Average", VNumber average);
           (base +:+ "Median", VNumber median);
           (base +:+ "Q1", VNumber q1);
           (base +:+ "Q3", VNumber q3);
           (base +:+ "StdDev", VNumber stdDev) ] /\
       In q1 sample /\ In median sample /\ In q3 sample) /\
  (forall (xs : list R) (nums : loc) (h : heap Exact.xreal),
     xs <> [] ->
     h !! nums = Some (map Exact.Fin xs) ->
     exists average median q1 q3 stdDev : R,
       (extractDistributionStatistics base nums h).1
       = [ (base +:+ "Average", VNumber (Exact.Fin average));
           (base +:+ "Median", VNumber (Exact.Fin median));
           (base +:+ "Q1", VNumber (Exact.Fin q1));
           (base +:+ "Q3", VNumber (Exact.Fin q3));
           (base +:+ "StdDev", VNumber (Exact.Fin stdDev)) ] /\
       (q1 <= median <= q3)%R /\
       In q1 xs /\ In median xs /\ In q3 xs /\
       (0 <= stdDev)%R /\
       (forall lo hi, (forall x, In x xs -> (lo <= x <= hi)%R) ->
          (lo <= average <= hi)%R)) /\
  (exists average : float,
     obj_get "tAverage" (extractDistributionStatistics "t" 0 [three_tenths]).1
     = VNumber average /\
     Forall (fun x => PrimFloat.ltb x average = true) three_tenths).
Proof.
  split; [|split].
  - intros num number sample nums h Hne Hh.
    destruct (extractDistributionStatistics_any_number base nums h sample Hh)
      as [Hperm ->]. cbv zeta. cbn [fst].
    assert (0 < length sample) as Hlen by (destruct sample; simpl; [done|lia]).
    assert (forall i, i < length sample ->
              exists x, array_get (Array_sort (fun a b => num_sub a b) sample) i
                        = VNumber x /\ In x sample) as Hget.
    { intros i Hi. unfold array_get.
      destruct (Array_sort (fun a b => num_sub a b) sample !! i) as [x|] eqn:E.
      - exists x. split; [done|]. eapply Permutation_in; [exact Hperm|].
        apply list_elem_of_In. by eapply list_elem_of_lookup_2.
      - apply lookup_ge_None in E. rewrite (Permutation_length Hperm) in E. lia. }
    destruct (Hget (length sample / 2)) as (median & -> & Hm);
      [apply Nat.div_lt; lia|].
    destruct (Hget (length sample / 4)) as (q1 & -> & H1);
      [apply Nat.div_lt; lia|].
    destruct (Hget (length sample * 3 / 4)) as (q3 & -> & H3);
      [apply Nat.Div0.div_lt_upper_bound; lia|].
    by eexists _, median, q1, q3, _.
  - intros xs nums h Hne Hh.
    rewrite (distribution_statistics_closed_form base xs nums h Hne Hh). cbv zeta.
    assert (0 < length xs) as Hlen by (destruct xs; simpl; [done|lia]).
    assert (length (stable_sort Rgtb xs) = length xs) as Hsl by apply stable_sort_length.
    assert (length xs / 4 <= length xs / 2) as H12
      by (apply Nat.Div0.div_le_mono with (c := 4) in Hlen as ?;
          apply Nat.div_le_compat_l; lia).
    assert (length xs / 2 <= length xs * 3 / 4) as H23.
    { apply Nat.div_le_lower_bound; [lia|].
      pose proof (Nat.Div0.mul_div_le (length xs) 2). lia. }
    assert (length xs * 3 / 4 < length xs) as H3
      by (apply Nat.Div0.div_lt_upper_bound; lia).
    assert (forall i, i < length xs -> In (nth i (stable_sort Rgtb xs) 0%R) xs) as Hin.
    { intros i Hi. eapply Permutation_in; [apply stable_sort_perm|].
      apply nth_In. by rewrite Hsl. }
    eexists _, _, _, _, _. split; [reflexivity|].
    split; [split; apply Sorted_nth_le; try apply Rgtb_sorted; rewrite ?Hsl; lia|].
    split; [apply Hin; lia|]. split; [apply Hin; lia|]. split; [apply Hin; lia|].
    split; [apply sqrt_pos|].
    intros lo hi Hb. by apply arithmetic_mean_bounds.
  - eexists. split; [vm_compute; reflexivity|].
    repeat constructor.
Qed.

(** The sample 3, 1, 2, 5. *)
Lemma extractDistributionStatistics_ordered_witness :
  exists average median q1 q3 stdDev : R,
    (extractDistributionStatistics "t" 0 [map Exact.Fin [3; 1; 2; 5]%R]).1
    = [ ("t" +:+ "Average", VNumber (Exact.Fin average));
        ("t" +:+ "Median", VNumber (Exact.Fin median));
        ("t" +:+ "Q1", VNumber (Exact.Fin q1));
        ("t" +:+ "Q3", VNumber (Exact.Fin q3));
        ("t" +:+ "StdDev", VNumber (Exact.Fin stdDev)) ] /\
    (q1 <= median <= q3)%R /\
    In q1 [3; 1; 2; 5]%R /\ In median [3; 1; 2; 5]%R /\ In q3 [3; 1; 2; 5]%R /\
    (0 <= stdDev)%R /\
    (forall lo hi, (forall x, In x [3; 1; 2; 5]%R -> (lo <= x <= hi)%R) ->
       (lo <= average <= hi)%R).
Proof.
  apply (proj1 (proj2 (extractDistributionStatistics_ordered "t")) [3; 1; 2; 5]%R 0
           [map Exact.Fin [3; 1; 2; 5]%R]); [discriminate | reflexivity].
Defined.

(** X15. On exact numbers the statistics do not depend on the order of the
    sample: two arrays that hold the same finite numbers in different orders
    get the same statistics. On binary64 they do: the average is summed in
    the order of the caller, and the numbers 2^53, 1, 1 get a smaller average
    than the same numbers in the order 1, 1, 2^53, with the same median and
    quartiles. *)
Theorem extractDistributionStatistics_order_independent :
  (forall base (xs ys : list R) (nums nums' : loc) (h h' : heap Exact.xreal),
     Permutation xs ys ->
     h !! nums = Some (map Exact.Fin xs) ->
     h' !! nums' = Some (map Exact.Fin ys) ->
     (extractDistributionStatistics base nums h).1
     = (extractDistributionStatistics base nums' h').1) /\
  (Permutation big_first big_last /\
   exists average average' : float,
     obj_get "tAverage" (extractDistributionStatistics "t" 0 [big_first]).1
     = VNumber average /\
     obj_get "tAverage" (extractDistributionStatistics "t" 0 [big_last]).1
     = VNumber average' /\
     PrimFloat.ltb average average' = true /\
     map (fun k => obj_get k (extractDistributionStatistics "t" 0 [big_first]).1)
         ["tMedian"; "tQ1"; "tQ3"]
     = map (fun k => obj_get k (extractDistributionStatistics "t" 0 [big_last]).1)
           ["tMedian"; "tQ1"; "tQ3"]).
Proof.
  split.
  { intros base xs ys nums nums' h h' Hp Hh Hh'.
    by apply (distribution_statistics_perm base xs ys). }
  split.
  - unfold big_first, big_last.
    apply perm_trans with [1; 9007199254740992; 1]%float;
      [apply perm_swap | apply perm_skip, perm_swap].
  - eexists _, _. split; [vm_compute; reflexivity|].
    split; [vm_compute; reflexivity|]. split; vm_compute; reflexivity.
Qed.

(** The sample 3, 1, 2 and its rearrangement 2, 3, 1. *)
Lemma extractDistributionStatistics_order_independent_witness :
  (extractDistributionStatistics "t" 0 [map Exact.Fin [3; 1; 2]%R]).1
  = (extractDistributionStatistics "t" 1 [[]; map Exact.Fin [2; 3; 1]%R]).1.
Proof.
  apply (proj1 extractDistributionStatistics_order_independent "t"
           [3; 1; 2]%R [2; 3; 1]%R
           0 1 [map Exact.Fin [3; 1; 2]%R] [[]; map Exact.Fin [2; 3; 1]%R]);
    [|reflexivity|reflexivity].
  apply perm_trans with [1; 3; 2]%R; [apply perm_swap|].
  apply perm_trans with [1; 2; 3]%R; [apply perm_skip, perm_swap|].
  apply perm_trans with [2; 1; 3]%R; [apply perm_swap|apply perm_skip, perm_swap].
Defined.

(** X16. On exact numbers a second call on the same array finds it sorted
    and leaves it as it is: it returns the statistics of the first call and
    the heap of the first call. On binary64 the second call adds up the
    sorted array where the first added up the array of the caller, so its
    average can differ: for the numbers 2^53, 1, 1 the second call leaves
    the array as the first call left it and returns a greater average. *)
Theorem extractDistributionStatistics_again :
  (forall base (xs : list R) (nums : loc) (h : heap Exact.xreal),
     h !! nums = Some (map Exact.Fin xs) ->
     extractDistributionStatistics base nums (extractDistributionStatistics base nums h).2
     = extractDistributionStatistics base nums h) /\
  ((extractDistributionStatistics "t" 0
      (extractDistributionStatistics "t" 0 [big_first]).2).2
   = (extractDistributionStatistics "t" 0 [big_first]).2 /\
   exists average average' : float,
     obj_get "tAverage" (extractDistributionStatistics "t" 0 [big_first]).1
     = VNumber average /\
     obj_get "tAverage"
       (extractDistributionStatistics "t" 0
          (extractDistributionStatistics "t" 0 [big_first]).2).1
     = VNumber average' /\
     PrimFloat.ltb average average' = true).
Proof.
  split.
  - intros base xs nums h Hh.
    assert ((extractDistributionStatistics base nums h).2
            = heap_write h nums (map Exact.Fin (stable_sort Rgtb xs))) as Hh1.
    { unfold extractDistributionStatistics. simpl.
      by rewrite (heap_read_lookup _ _ _ Hh), exact_sort. }
    assert (heap_write h nums (map Exact.Fin (stable_sort Rgtb xs)) !! nums
            = Some (map Exact.Fin (stable_sort Rgtb xs))) as Hw.
    { apply list_lookup_insert_eq. by eapply lookup_lt_Some. }
    apply injective_projections.
    + rewrite Hh1.
      apply (distribution_statistics_perm base (stable_sort Rgtb xs) xs); try done.
      apply stable_sort_perm.
    + rewrite !Hh1.
      unfold extractDistributionStatistics. cbn [snd].
      rewrite (heap_read_lookup _ _ _ Hw), exact_sort, stable_sort_Rgtb_idem.
      unfold heap_write. by rewrite list_insert_insert_eq.
  - split; [vm_compute; reflexivity|].
    eexists _, _. split; [vm_compute; reflexivity|].
    split; vm_compute; reflexivity.
Qed.

(** The array 3, 1, 2 at location 0. *)
Lemma extractDistributionStatistics_again_witness :
  extractDistributionStatistics "t" 0
    (extractDistributionStatistics "t" 0 [map Exact.Fin [3; 1; 2]%R]).2
  = extractDistributionStatistics "t" 0 [map Exact.Fin [3; 1; 2]%R].
Proof.
  apply (proj1 extractDistributionStatistics_again "t" [3; 1; 2]%R 0
           [map Exact.Fin [3; 1; 2]%R]).
  reflexivity.
Defined.

(** ** Feature records *)

Lemma obj_get_set {num} (k k' : string) (v : value num) (o : object num) :
  obj_get k (obj_set k' v o) = if String.eqb k k' then v else obj_get k o.
Proof.
  induction o as [|[k0 v0] o IH]; simpl; [done|].
  destruct (String.eqb_spec k' k0) as [->|Hne]; simpl; [by destruct (String.eqb k k0)|].
  rewrite IH.
  destruct (String.eqb_spec k k0) as [->|]; [|done].
  by destruct (String.eqb_spec k0 k').
Qed.

(** A property of a literal has the value of its last definition. *)
Lemma obj_get_fold {num} (k : string) (props : list (string * value num)) (o : object num) :
  obj_get k (fold_left (fun o kv => obj_set kv.1 kv.2 o) props o)
  = fold_left (fun v kv => if String.eqb k kv.1 then kv.2 else v) props (obj_get k o).
Proof.
  revert o. induction props as [|[k' v'] props IH]; intros o; simpl; [done|].
  by rewrite IH, obj_get_set.
Qed.

(** The eight fields in front of the statistics, read back from a
    record. *)
Lemma feature_record_get {num} `{!JsNumber num} (v1 v2 v3 v4 v5 v6 v7 v8 : value num)
    (a1 : num) (m1 q11 q31 : value num) (d1 a2 : num) (m2 q12 q32 : value num) (d2 : num) :
  map (fun k =>
         obj_get k
           (obj_literal
              ([ ("authorUserName", v1); ("pastRevisionsCount", v2);
                 ("averageTimeBetweenRevisions", v3);
                 ("pastRevisionsAuthoredByUser", v4);
                 ("revertRiskModelScore", v5); ("percPastRevisionsAuthored", v6);
                 ("averageTimeBetweenUserAuthoredRevisions", v7); ("diffText", v8) ]
               ++ stats_object "timeBetweenRevisions" a1 m1 q11 q31 d1
               ++ stats_object "timeBetweenUserRevisions" a2 m2 q12 q32 d2)))
      (take 8 feature_names)
  = [v1; v2; v3; v4; v5; v6; v7; v8].
Proof. rewrite !stats_object_eq. reflexivity. Qed.

Section HistoryResults.
Context {num : Type}.
Variable encodeURIComponent : string -> string.

(** What the fetcher returns has a first element, which carries the diff
    that was retrieved. *)
Lemma fetchPastRevisions_first revisionUrl (history : history_reply num) diffReply
    pastRevisions :
  fetchPastRevisions encodeURIComponent revisionUrl history diffReply = Normal pastRevisions ->
  exists thisRevision d,
    pastRevisions !! 0 = Some thisRevision /\
    fetchDiffFromUrl revisionUrl diffReply = Normal d /\
    diff thisRevision = Some d.
Proof using Type.
  rewrite fetchPastRevisions_eq.
  destruct (truthy (title revisionUrl)) as [t|]; [|done].
  destruct history as [e| |[page|] continuation]; try done.
  destruct (match continuation with
            | Some reply' => fetchPastRevisions encodeURIComponent revisionUrl reply' diffReply
            | None => Normal []
            end) as [nextRevisions|e]; [|done].
  cbn [mbind completion_bind].
  destruct (fetchDiffFromUrl revisionUrl diffReply) as [d|e]; [|done].
  cbn [mbind completion_bind].
  destruct (rev _) as [|r revisions]; [done|].
  intros [= <-]. by exists (set_diff r (Some d)), d.
Qed.

End HistoryResults.

(** The two ways the assembler ends: with the failure of the history
    fetcher, or with a record in which the endpoint decides the score and
    nothing else. *)
Lemma extractFeatures_shape {num : Type} `{!JsNumber num}
    (encodeURIComponent : string -> string) (revisionUrl : RevisionUrl)
    (history : history_reply num) (diffReply : completion compare_payload) :
  (exists e,
     fetchPastRevisions encodeURIComponent revisionUrl history diffReply = Throw e /\
     forall endpoint,
       extractFeatures encodeURIComponent revisionUrl history diffReply endpoint
       = Throw e) \/
  (exists pastRevisions front back,
     fetchPastRevisions encodeURIComponent revisionUrl history diffReply
     = Normal pastRevisions /\
     forall endpoint, exists score,
       extractFeatures encodeURIComponent revisionUrl history diffReply endpoint
       = Normal (obj_literal (front ++ ("revertRiskModelScore", score) :: back))).
Proof.
  unfold extractFeatures.
  destruct (fetchPastRevisions encodeURIComponent revisionUrl history diffReply)
    as [pastRevisions|e] eqn:F; [right|left; by exists e].
  destruct (fetchPastRevisions_first _ _ _ _ _ F) as (thisRevision & d & H0 & _).
  cbn [mbind completion_bind]. rewrite H0. unfold heap_alloc. cbv beta iota zeta.
  destruct (extractDistributionStatistics "timeBetweenRevisions" _ _) as [stats1 h1].
  destruct (extractDistributionStatistics "timeBetweenUserRevisions" _ _) as [stats2 h2].
  eexists pastRevisions, [_; _; _; _], ([_; _; _] ++ stats1 ++ stats2).
  split; [done|]. intros endpoint.
  destruct (fetchRevertRiskScore_normal endpoint (userId thisRevision) 3) as [v Hv].
  exists v. rewrite Hv. reflexivity.
Qed.

(** X17. The risk endpoint decides one field and nothing else: behind two
    different endpoints the assembler either throws the same error, or
    returns two records with the same field names that agree on every field
    but [revertRiskModelScore]. *)
Theorem extractFeatures_endpoint_decides_score_only {num : Type} `{!JsNumber num}
    (encodeURIComponent : string -> string) (revisionUrl : RevisionUrl)
    (history : history_reply num) (diffReply : completion compare_payload)
    (endpoint endpoint' : Z -> nat -> exchange (risk_payload num)) :
  match extractFeatures encodeURIComponent revisionUrl history diffReply endpoint,
        extractFeatures encodeURIComponent revisionUrl history diffReply endpoint' with
  | Normal features, Normal features' =>
      obj_keys features = obj_keys features' /\
      forall k, k <> "revertRiskModelScore" -> obj_get k features = obj_get k features'
  | Throw e, Throw e' => e = e'
  | _, _ => False
  end.
Proof.
  destruct (extractFeatures_shape encodeURIComponent revisionUrl history diffReply)
    as [(e & _ & H)|(pastRevisions & front & back & _ & H)].
  - by rewrite !H.
  - destruct (H endpoint) as [v Hv], (H endpoint') as [v' Hv'].
    pose proof (extractFeatures_field_names _ _ _ _ _ _ Hv) as Hk.
    pose proof (extractFeatures_field_names _ _ _ _ _ _ Hv') as Hk'.
    rewrite Hv, Hv'. split; [by rewrite Hk, Hk'|].
    intros k Hne. apply String.eqb_neq in Hne.
    unfold obj_literal. rewrite !obj_get_fold, !fold_left_app.
    cbn [fold_left fst snd]. by rewrite Hne.
Qed.

(** X18. The assembler fails exactly when the history fetcher fails, and
    with the same error: neither the statistics nor the risk scorer nor an
    empty history (which the fetcher never returns) make it throw. *)
Theorem extractFeatures_throws_with_fetcher {num : Type} `{!JsNumber num}
    (encodeURIComponent : string -> string) (revisionUrl : RevisionUrl)
    (history : history_reply num) (diffReply : completion compare_payload)
    (endpoint : Z -> nat -> exchange (risk_payload num)) :
  (forall e,
     extractFeatures encodeURIComponent revisionUrl history diffReply endpoint = Throw e
     <-> fetchPastRevisions encodeURIComponent revisionUrl history diffReply = Throw e) /\
  ((exists features,
      extractFeatures encodeURIComponent revisionUrl history diffReply endpoint
      = Normal features)
   <-> exists pastRevisions,
         fetchPastRevisions encodeURIComponent revisionUrl history diffReply
         = Normal pastRevisions).
Proof.
  destruct (extractFeatures_shape encodeURIComponent revisionUrl history diffReply)
    as [(e0 & F & H)|(pastRevisions & front & back & F & H)].
  - rewrite H, F. split; [intros e; split; intros [= ->]; done|].
    split; intros [? ?]; done.
  - destruct (H endpoint) as [v ->]. rewrite F. split; [intros e; split; discriminate|].
    split; intros _; eexists; done.
Qed.

(** The eight fields in front of the statistics, as the assembler computes
    them from what the fetcher returned. *)
Lemma extractFeatures_front_fields {num : Type} `{!JsNumber num}
    (encodeURIComponent : string -> string) (revisionUrl : RevisionUrl)
    (history : history_reply num) (diffReply : completion compare_payload)
    (endpoint : Z -> nat -> exchange (risk_payload num)) (features : object num) :
  extractFeatures encodeURIComponent revisionUrl history diffReply endpoint
  = Normal features ->
  exists pastRevisions thisRevision d score,
    fetchPastRevisions encodeURIComponent revisionUrl history diffReply
    = Normal pastRevisions /\
    pastRevisions !! 0 = Some thisRevision /\
    fetchDiffFromUrl revisionUrl diffReply = Normal d /\
    (fetchRevertRiskScore endpoint (userId thisRevision) 3).1 = Normal score /\
    map (fun k => obj_get k features) (take 8 feature_names)
    = [ VString (userName thisRevision);
        VNumber (num_of_nat (length pastRevisions));
        VNumber (calculateAverageTimeBetweenRevisions pastRevisions);
        VNumber (num_of_nat
                   (length (filter (fun revision => userId revision = userId thisRevision)
                                   pastRevisions)));
        score;
        VNumber (num_div
                   (num_of_nat
                      (length (filter (fun revision => userId revision = userId thisRevision)
                                      pastRevisions)))
                   (num_of_nat (length pastRevisions)));
        VNumber (calculateAverageTimeBetweenRevisions
                   (filter (fun revision => userId revision = userId thisRevision)
                           pastRevisions));
        VString d ].
Proof.
  unfold extractFeatures.
  destruct (fetchPastRevisions encodeURIComponent revisionUrl history diffReply)
    as [pastRevisions|e] eqn:F; [|done].
  destruct (fetchPastRevisions_first _ _ _ _ _ F) as (thisRevision & d & H0 & Hd & Hdiff).
  cbn [mbind completion_bind]. rewrite H0, Hdiff.
  unfold heap_alloc, extractDistributionStatistics. cbv beta iota zeta.
  destruct (fetchRevertRiskScore_normal endpoint (userId thisRevision) 3) as [v Hv].
  rewrite Hv. cbn [mbind completion_bind]. intros E. injection E as <-.
  exists pastRevisions, thisRevision, d, v.
  split; [done|]. split; [done|]. split; [done|]. split; [done|].
  apply feature_record_get.
Qed.



(** X20. Whenever the assembler returns, the [diffText] of the record is
    the diff retrieved for the locator (never null), the author name is that
    of the revision at index 0, and the score is what the risk scorer
    returned when asked with the user id of that revision. *)
Theorem extractFeatures_subject_fields {num : Type} `{!JsNumber num}
    (encodeURIComponent : string -> string) (revisionUrl : RevisionUrl)
    (history : history_reply num) (diffReply : completion compare_payload)
    (endpoint : Z -> nat -> exchange (risk_payload num)) (features : object num) :
  extractFeatures encodeURIComponent revisionUrl history diffReply endpoint
  = Normal features ->
  exists pastRevisions thisRevision d,
    fetchPastRevisions encodeURIComponent revisionUrl history diffReply
    = Normal pastRevisions /\
    pastRevisions !! 0 = Some thisRevision /\
    fetchDiffFromUrl revisionUrl diffReply = Normal d /\
    obj_get "diffText" features = VString d /\
    obj_get "authorUserName" features = VString (userName thisRevision) /\
    Normal (obj_get "revertRiskModelScore" features)
    = (fetchRevertRiskScore endpoint (userId thisRevision) 3).1.
Proof.
  intros E.
  destruct (extractFeatures_front_fields _ _ _ _ _ _ E)
    as (pastRevisions & thisRevision & d & score & F & H0 & Hd & Hscore & Hget).
  cbn [take map feature_names] in Hget.
  injection Hget as H1 _ _ _ H5 _ _ H8.
  exists pastRevisions, thisRevision, d. by rewrite H1, H5, H8, Hscore.
Qed.

(** A history of one revision by the user 7, behind an endpoint that
    delivers the score 0.25 at the third attempt. *)
Lemma extractFeatures_subject_fields_witness :
  exists features,
    extractFeatures (fun s => s) a_revision_url
      (HistoryPage (Some [mkApiRevision 1 "A" 7 100%float]) None)
      a_diff_reply late_endpoint = Normal features /\
    exists pastRevisions thisRevision d,
      fetchPastRevisions (fun s => s) a_revision_url
        (HistoryPage (Some [mkApiRevision 1 "A" 7 100%float]) None) a_diff_reply
      = Normal pastRevisions /\
      pastRevisions !! 0 = Some thisRevision /\
      fetchDiffFromUrl a_revision_url a_diff_reply = Normal d /\
      obj_get "diffText" features = VString d /\
      obj_get "authorUserName" features = VString (userName thisRevision) /\
      Normal (obj_get "revertRiskModelScore" features)
      = (fetchRevertRiskScore late_endpoint (userId thisRevision) 3).1.
Proof.
  eexists. split; [reflexivity|].
  apply (extractFeatures_subject_fields (fun s => s) a_revision_url
           (HistoryPage (Some [mkApiRevision 1 "A" 7 100%float]) None)
           a_diff_reply late_endpoint).
  reflexivity.
Defined.

(** ** Batches that fail, and batches of size 0 *)

Section BatchFailures.
Context {T R : Type}.
Variable fn : T -> completion R.

(** [Promise.all] rejects with the rejection of one of its promises, and
    resolves only when all of them resolve. *)
Lemma Promise_all_cases (batch : list T) :
  match Promise_all (map (fun t => fn t) batch) with
  | Normal values => Forall2 (fun t r => fn t = Normal r) batch values
  | Throw e => exists t, t ∈ batch /\ fn t = Throw e
  end.
Proof using Type.
  induction batch as [|t batch IH]; simpl; [constructor|].
  destruct (fn t) as [r|e] eqn:E; simpl; [|exists t; split; [by left|done]].
  destruct (Promise_all (map (fun t => fn t) batch)) as [values|e]; simpl.
  - by constructor.
  - destruct IH as (t' & Hin & Ht'). exists t'. split; [by right|done].
Qed.

(** The loop from index [i] on, when [fn] rejects on an input at index [i]
    or behind it. *)
Lemma doInBatches_loop_rejects (b : nat) (ts : list T) :
  0 < b ->
  forall fuel i result batches j t e,
    length ts - i < fuel ->
    i <= j -> ts !! j = Some t -> fn t = Throw e ->
    exists t' e',
      t' ∈ ts /\ fn t' = Throw e' /\
      doInBatches_loop fuel fn b ts i result batches = Rejects e'.
Proof using Type.
  intros Hb. induction fuel as [|fuel IH];
    intros i result batches j t e Hfuel Hij Hj Ht; [lia|].
  simpl. pose proof (lookup_lt_Some _ _ _ Hj) as Hlt.
  destruct (decide (i < length ts)) as [_|]; [|lia].
  pose proof (Promise_all_cases (take b (drop i ts))) as Hcases.
  destruct (Promise_all (map (fun t => fn t) (take b (drop i ts)))) as [values|e'].
  - apply (IH (i + b) _ _ j t e); try done; [lia|].
    destruct (decide (j < i + b)) as [Hin|]; [|lia]. exfalso.
    assert (take b (drop i ts) !! (j - i) = Some t) as Hbatch.
    { rewrite lookup_take_lt by lia. rewrite lookup_drop. rewrite <- Hj. f_equal. lia. }
    destruct (Forall2_lookup_l _ _ _ _ _ Hcases Hbatch) as (r & _ & Hr). congruence.
  - destruct Hcases as (t' & Hin & Ht'). exists t', e'. split; [|done].
    by eapply subseteq_drop, subseteq_take.
Qed.

End BatchFailures.

(** X21. One rejection fails the whole run: with a batch size of at least
    1, when [fn] rejects on some input, [doInBatches] rejects, with the
    rejection of [fn] on one of the inputs; it returns no partial result. *)
Theorem doInBatches_rejects {T R : Type} (fn : T -> completion R) (maxBatchSize : nat)
    (ts : list T) (t : T) (e : error) :
  0 < maxBatchSize ->
  t ∈ ts ->
  fn t = Throw e ->
  exists t' e',
    t' ∈ ts /\ fn t' = Throw e' /\
    doInBatches fn maxBatchSize ts = Rejects e'.
Proof.
  intros Hb Hin Ht. apply list_elem_of_lookup_1 in Hin as [j Hj].
  apply (doInBatches_loop_rejects fn maxBatchSize ts Hb (S (length ts)) 0 [] [] j t e);
    try done; lia.
Qed.

(** Twelve numbers in batches of five, the function rejecting on 7. *)
Lemma doInBatches_rejects_witness :
  exists t' e',
    t' ∈ seq 0 12 /\ square_but_7 t' = Throw e' /\
    doInBatches square_but_7 5 (seq 0 12) = Rejects e'.
Proof.
  apply (doInBatches_rejects square_but_7 5 (seq 0 12) 7 TransportError).
  - lia.
  - apply list_elem_of_In. simpl. tauto.
  - reflexivity.
Defined.

(** X22. The two edges of the batch size and of the input: an empty input
    returns the empty result without a call of [fn] and without a batch,
    whatever the batch size; and with a batch size of 0 a non-empty input
    keeps the loop at index 0 for ever: no amount of fuel ends it. *)
Theorem doInBatches_edges {T R : Type} (fn : T -> completion R) :
  (forall maxBatchSize, doInBatches fn maxBatchSize [] = Returns [] []) /\
  (forall ts fuel, ts <> [] -> doInBatches_loop fuel fn 0 ts 0 [] [] = Diverges) /\
  (forall ts, ts <> [] -> doInBatches fn 0 ts = Diverges).
Proof.
  split; [done|].
  assert (forall ts : list T, ts <> [] -> 0 < length ts) as Hpos
    by (intros [|? ?] ?; simpl; [done|lia]).
  split; intros; apply doInBatches_loop_size_0; auto.
Qed.

(** ** Training rows and evaluation *)

(** X23. From a record with the columns of the features file (the URL and
    the eighteen feature names), training and evaluation use four numbers
    and nothing else, in the order of the columns: the average time between
    revisions, the risk score, the share of the author and the average of
    the gaps; the empty name in [featureList] selects nothing. The labels
    are encoded one for one, by 1, -1 or 0. *)
Theorem mergeRevisionsAndLabels_rows {num : Type} `{!JsNumber num}
    (Number_of_string : string -> num) (revisions : list (object num))
    (labels : list string) :
  Forall (fun revision => obj_keys revision = "revisionUrl" :: feature_names) revisions ->
  (mergeRevisionsAndLabels Number_of_string revisions labels).1
  = map (fun revision =>
           map (fun key => Number Number_of_string (obj_get key revision))
               [ "averageTimeBetweenRevisions"; "revertRiskModelScore";
                 "percPastRevisionsAuthored"; "timeBetweenRevisionsAverage" ])
        revisions /\
  length (mergeRevisionsAndLabels Number_of_string revisions labels).2 = length labels /\
  Forall (fun l => l = 1 \/ l = -1 \/ l = 0)%Z
         (mergeRevisionsAndLabels Number_of_string revisions labels).2.
Proof.
  intros Hkeys. unfold mergeRevisionsAndLabels. cbn [fst snd].
  split; [|split; [apply length_map|]].
  - induction Hkeys as [|revision revisions Hk _ IH]; [done|].
    cbn [map]. rewrite IH, Hk. reflexivity.
  - apply Forall_forall. intros l Hl. apply list_elem_of_fmap in Hl as (label & -> & _).
    unfold label_number. repeat destruct (String.eqb _ _); auto.
Qed.

(** One record of the features file, every cell the empty string. *)
Lemma mergeRevisionsAndLabels_rows_witness :
  (mergeRevisionsAndLabels (fun _ => 0%float)
     [map (fun key => (key, VString "")) ("revisionUrl" :: feature_names)]
     ["INCREASES npov"]).1
  = [[0; 0; 0; 0]%float] /\
  length (mergeRevisionsAndLabels (fun _ => 0%float)
            [map (fun key => (key, VString "")) ("revisionUrl" :: feature_names)]
            ["INCREASES npov"]).2 = 1 /\
  Forall (fun l => l = 1 \/ l = -1 \/ l = 0)%Z
         (mergeRevisionsAndLabels (fun _ => 0%float)
            [map (fun key => (key, VString "")) ("revisionUrl" :: feature_names)]
            ["INCREASES npov"]).2.
Proof.
  apply (mergeRevisionsAndLabels_rows (fun _ => 0%float)
           [map (fun key => (key, VString "")) ("revisionUrl" :: feature_names)]
           ["INCREASES npov"]).
  by repeat constructor.
Defined.

Section ExactEvaluation.
Import Exact.


Lemma ratio_0 a b : ratio a b = 0%R <-> a = 0.
Proof.
  unfold ratio. destruct (decide (a = 0)) as [->|Hne]; [done|].
  assert (0 < INR a)%R by (apply lt_0_INR; lia).
  assert (0 < INR (a + b))%R by (apply lt_0_INR; lia).
  pose proof (Rdiv_lt_0_compat (INR a) (INR (a + b))). split; [lra|done].
Qed.

Lemma or_zero_ratio (a b : nat) :
  or_zero (num_div (num_of_nat a) (num_add (num_of_nat a) (num_of_nat b)))
  = Fin (ratio a b).
Proof.
  unfold or_zero, num_of_nat, ratio. cbn [num_of_Z num_add num_div exact xadd].
  rewrite <- !INR_IZR_INZ, <- plus_INR.
  destruct (decide (a = 0)) as [->|Hne].
  - change (INR 0) with 0%R. change (0 + b) with b. unfold xdiv.
    destruct (Req_dec_T (INR b) 0) as [_|Hb].
    + unfold inf_of_sign. destruct (Rlt_dec 0 0); [lra|]. done.
    + unfold num_truthy, exact_truthy.
      destruct (Req_dec_T (0 / INR b) 0) as [_|Hq]; [done|].
      exfalso. apply Hq. unfold Rdiv. lra.
  - assert (0 < INR a)%R by (apply lt_0_INR; lia).
    assert (0 < INR (a + b))%R by (apply lt_0_INR; lia).
    unfold xdiv. destruct (Req_dec_T (INR (a + b)) 0); [lra|].
    unfold num_truthy, exact_truthy.
    destruct (Req_dec_T (INR a / INR (a + b)) 0) as [Hq|]; [|done].
    pose proof (Rdiv_lt_0_compat (INR a) (INR (a + b))). lra.
Qed.


Lemma class_stats_exact classVal predictions numericalLabels :
  exists truePositives falsePositives falseNegatives : nat,
    class_counts classVal predictions numericalLabels
    = (truePositives, falsePositives, falseNegatives) /\
    class_stats classVal predictions numericalLabels
    = mkClassStats (Fin (ratio truePositives falsePositives))
        (Fin (ratio truePositives falseNegatives))
        (Fin (harmonic (ratio truePositives falsePositives)
                       (ratio truePositives falseNegatives))).
Proof.
  unfold class_stats.
  destruct (class_counts classVal predictions numericalLabels) as [[tp fp] fn].
  exists tp, fp, fn. split; [done|].
  rewrite !or_zero_ratio. unfold harmonic. simpl.
  destruct (Rlt_dec 0 (ratio tp fp + ratio tp fn)) as [Hs|_]; [|done].
  destruct (Req_dec_T (ratio tp fp + ratio tp fn) 0); [lra|]. done.
Qed.

Lemma evaluate_classStats (Number_of_string : string -> xreal) dt revisions labels classVal :
  classStats (evaluate Number_of_string dt revisions labels) !! classVal
  = if decide (classVal ∈ [1; -1; 0]%Z)
    then Some (class_stats classVal
                 (dt (mergeRevisionsAndLabels Number_of_string revisions labels).1)
                 (map label_number labels))
    else None.
Proof.
  unfold evaluate. cbn [mergeRevisionsAndLabels fst snd classStats fold_left].
  destruct (decide (classVal = 0%Z)) as [->|H0];
    [by rewrite lookup_insert_eq|rewrite lookup_insert_ne by done].
  destruct (decide (classVal = (-1)%Z)) as [->|H1];
    [by rewrite lookup_insert_eq|rewrite lookup_insert_ne by done].
  destruct (decide (classVal = 1%Z)) as [->|H2];
    [by rewrite lookup_insert_eq|rewrite lookup_insert_ne by done].
  rewrite lookup_empty. destruct (decide (classVal ∈ [1; -1; 0]%Z)) as [Hin|]; [|done].
  exfalso. apply list_elem_of_In in Hin. simpl in Hin. intuition congruence.
Qed.


End ExactEvaluation.


Section PerfectPredictions.
Import Exact.

Lemma class_counts_perfect (classVal : Z) (numericalLabels : list Z) :
  class_counts classVal numericalLabels numericalLabels
  = (length (filter (fun l => l = classVal) numericalLabels), 0, 0).
Proof.
  unfold class_counts.
  assert (forall n, n <= length numericalLabels ->
            fold_left
              (fun '(truePositives, falsePositives, falseNegatives) i =>
                 let truePositives :=
                   if decide (numericalLabels !! i = Some classVal /\
                              numericalLabels !! i = Some classVal)
                   then S truePositives else truePositives in
                 let falsePositives :=
                   if decide (numericalLabels !! i = Some classVal /\
                              numericalLabels !! i <> Some classVal)
                   then S falsePositives else falsePositives in
                 let falseNegatives :=
                   if decide (numericalLabels !! i <> Some classVal /\
                              numericalLabels !! i = Some classVal)
                   then S falseNegatives else falseNegatives in
                 (truePositives, falsePositives, falseNegatives))
              (seq 0 n) (0, 0, 0)
            = (length (filter (fun l => l = classVal) (take n numericalLabels)), 0, 0)) as H.
  { induction n as [|n IH]; intros Hn; [done|].
    rewrite seq_S, fold_left_app, IH by lia. cbn [fold_left Nat.add].
    destruct (numericalLabels !! n) as [x|] eqn:E;
      [|apply lookup_ge_None in E; lia].
    rewrite (take_S_r _ _ _ E), filter_app, length_app.
    destruct (decide (x = classVal)) as [->|Hne].
    - rewrite filter_cons_True by done.
      destruct (decide (Some classVal = Some classVal /\ Some classVal = Some classVal));
        [|tauto].
      destruct (decide (Some classVal = Some classVal /\ Some classVal <> Some classVal));
        [tauto|].
      destruct (decide (Some classVal <> Some classVal /\ Some classVal = Some classVal));
        [tauto|].
      simpl. f_equal. f_equal. lia.
    - rewrite filter_cons_False by done.
      destruct (decide (Some x = Some classVal /\ Some x = Some classVal))
        as [[[=] _]|]; [done|].
      destruct (decide (Some x = Some classVal /\ Some x <> Some classVal))
        as [[[=] _]|]; [done|].
      destruct (decide (Some x <> Some classVal /\ Some x = Some classVal))
        as [[_ [=]]|]; [done|].
      simpl. f_equal. f_equal. lia. }
  rewrite H by done. by rewrite firstn_all.
Qed.

Lemma count_correct_perfect (numericalLabels : list Z) :
  reduce_indexed
    (fun correct pred index =>
       if decide (Some pred = numericalLabels !! index) then S correct else correct)
    0 numericalLabels = length numericalLabels.
Proof.
  unfold reduce_indexed.
  assert (forall (l : list Z) k init,
            drop k numericalLabels = l ->
            fold_left
              (fun acc (ix : nat * Z) =>
                 if decide (Some ix.2 = numericalLabels !! ix.1) then S acc else acc)
              (zip (seq k (length l)) l) init = init + length l) as H.
  { induction l as [|x l IH]; intros k init Hdrop; simpl; [lia|].
    assert (numericalLabels !! k = Some x) as Hk.
    { rewrite <- (Nat.add_0_r k), <- lookup_drop, Hdrop. done. }
    rewrite Hk. destruct (decide (Some x = Some x)); [|done].
    rewrite (IH (S k)); [lia|].
    rewrite (drop_S _ _ _ Hk) in Hdrop. by injection Hdrop. }
  by rewrite (H numericalLabels 0 0).
Qed.

Lemma ratio_all (a : nat) : ratio a 0 = if decide (a = 0) then 0%R else 1%R.
Proof.
  unfold ratio. destruct (decide (a = 0)); [done|].
  rewrite Nat.add_0_r. apply Rdiv_diag. apply not_0_INR. lia.
Qed.

End PerfectPredictions.

(** X25. A tree that predicts every label gets full marks: with at least
    one label and predictions equal to the encoded labels, the overall
    accuracy is 1 on exact numbers, and precision, recall and F1 are 1 for
    each class that occurs among the labels and 0 for each class that does
    not. *)
Theorem evaluate_perfect_predictions (Number_of_string : string -> Exact.xreal)
    (dt : list (list Exact.xreal) -> list Z) (revisions : list (object Exact.xreal))
    (labels : list string) :
  labels <> [] ->
  dt (mergeRevisionsAndLabels Number_of_string revisions labels).1
  = map label_number labels ->
  overallAccuracy (evaluate Number_of_string dt revisions labels) = Exact.Fin 1 /\
  forall classVal, classVal ∈ [1; -1; 0]%Z ->
    classStats (evaluate Number_of_string dt revisions labels) !! classVal
    = Some (if decide (classVal ∈ map label_number labels)
            then mkClassStats (Exact.Fin 1) (Exact.Fin 1) (Exact.Fin 1)
            else mkClassStats (Exact.Fin 0) (Exact.Fin 0) (Exact.Fin 0)).
Proof.
  intros Hne Hdt. split.
  - unfold evaluate. cbn [mergeRevisionsAndLabels fst snd overallAccuracy].
    cbn [mergeRevisionsAndLabels fst snd] in Hdt. rewrite Hdt.
    rewrite count_correct_perfect.
    unfold num_of_nat at 1. cbn [num_of_Z Exact.exact]. rewrite <- INR_IZR_INZ.
    assert (length (map label_number labels) <> 0) as Hlen
      by (rewrite length_map; destruct labels; simpl; [done|lia]).
    rewrite exact_div_length by done. f_equal.
    apply Rdiv_diag. by apply not_0_INR.
  - intros classVal Hin. rewrite evaluate_classStats.
    destruct (decide (classVal ∈ [1; -1; 0]%Z)); [|done]. f_equal.
    rewrite Hdt.
    destruct (class_stats_exact classVal (map label_number labels)
                (map label_number labels)) as (tp & fp & fn & Hcounts & ->).
    rewrite class_counts_perfect in Hcounts. injection Hcounts as <- <- <-.
    rewrite !ratio_all.
    set (k := length (filter (fun l => l = classVal) (map label_number labels))).
    assert (k = 0 <-> classVal ∉ map label_number labels) as Hk.
    { unfold k. rewrite length_zero_iff_nil. split.
      - intros Hnil Hc.
        assert (classVal ∈ filter (fun l => l = classVal) (map label_number labels)) as Hf
          by (by apply list_elem_of_filter).
        rewrite Hnil in Hf. by apply elem_of_nil in Hf.
      - intros Hc. destruct (filter _ _) as [|x l] eqn:E; [done|]. exfalso.
        assert (x ∈ filter (fun l => l = classVal) (map label_number labels)) as Hf
          by (rewrite E; by left).
        apply list_elem_of_filter in Hf as [-> Hx]. done. }
    unfold harmonic.
    destruct (decide (k = 0)) as [Hz|Hz];
      destruct (decide (classVal ∈ map label_number labels)) as [Hc|Hc]; try tauto.
    + destruct (Rlt_dec 0 (0 + 0)); [lra|done].
    + destruct (Rlt_dec 0 (1 + 1)); [|lra]. do 2 f_equal. lra.
Qed.

(** Two labels, both predicted. *)
Lemma evaluate_perfect_predictions_witness :
  overallAccuracy
    (evaluate (fun _ => Exact.Fin 0) (fun _ => [1; 0]%Z) []
       ["INCREASES npov"; "DOES NOT AFFECT npov"]) = Exact.Fin 1 /\
  forall classVal, classVal ∈ [1; -1; 0]%Z ->
    classStats
      (evaluate (fun _ => Exact.Fin 0) (fun _ => [1; 0]%Z) []
         ["INCREASES npov"; "DOES NOT AFFECT npov"]) !! classVal
    = Some (if decide (classVal ∈ map label_number
                                   ["INCREASES npov"; "DOES NOT AFFECT npov"])
            then mkClassStats (Exact.Fin 1) (Exact.Fin 1) (Exact.Fin 1)
            else mkClassStats (Exact.Fin 0) (Exact.Fin 0) (Exact.Fin 0)).
Proof.
  apply (evaluate_perfect_predictions (fun _ => Exact.Fin 0) (fun _ => [1; 0]%Z) []
           ["INCREASES npov"; "DOES NOT AFFECT npov"]); [discriminate | reflexivity].
Defined.

(** ** The command line driver *)

Lemma string_app_assoc (a b c : string) : (a +:+ b) +:+ c = a +:+ (b +:+ c).
Proof.
  induction a as [|x a IH]; [done|].
  change (String x ((a +:+ b) +:+ c) = String x (a +:+ (b +:+ c))). by rewrite IH.
Qed.

Lemma string_app_nil_r (a : string) : a +:+ EmptyString = a.
Proof.
  induction a as [|x a IH]; [done|].
  change (String x (a +:+ EmptyString) = String x a). by rewrite IH.
Qed.

Lemma string_mem_app c (a b : string) :
  string_mem c (a +:+ b) = string_mem c a || string_mem c b.
Proof.
  induction a as [|x a IH]; [done|].
  change (Ascii.eqb c x || string_mem c (a +:+ b)
          = Ascii.eqb c x || string_mem c a || string_mem c b).
  rewrite IH. by rewrite orb_assoc.
Qed.

Lemma split_pop_from_spec (current s : string) :
  string_mem "/" current = false ->
  exists before,
    current +:+ s = before +:+ split_pop_from current s /\
    string_mem "/" (split_pop_from current s) = false /\
    (before = EmptyString \/ exists b, before = b +:+ "/").
Proof.
  revert current. induction s as [|c s IH]; intros current Hcur.
  - exists EmptyString. simpl. rewrite string_app_nil_r. auto.
  - cbn [split_pop_from]. destruct (Ascii.eqb c "/") eqn:Ec.
    + apply Ascii.eqb_eq in Ec as ->.
      destruct (IH EmptyString eq_refl) as (before & Heq & Hmem & Hend).
      exists (current +:+ "/" +:+ before). split; [|split; [done|]].
      * change (EmptyString +:+ s) with s in Heq.
        rewrite string_app_assoc. f_equal.
        change (String "/" s = String "/" (before +:+ split_pop_from EmptyString s)).
        by rewrite <- Heq.
      * right. destruct Hend as [->|[b ->]].
        -- exists current. by rewrite string_app_nil_r.
        -- exists (current +:+ "/" +:+ b). by rewrite !string_app_assoc.
    + destruct (IH (current +:+ String c EmptyString)) as (before & Heq & Hmem & Hend).
      { rewrite string_mem_app, Hcur.
        change (string_mem "/" (String c EmptyString)) with (Ascii.eqb "/" c || false).
        rewrite Ascii.eqb_sym, Ec. done. }
      exists before. split; [|done].
      rewrite <- Heq, string_app_assoc. done.
Qed.

(** X26. [fetchRevisions] never throws. From a reply that lists revisions
    it makes one row for each of them, in order, with the article URL as it
    was given; the row of the last listed revision has no diff URL, and every
    other row has the URL of the diff against the revision listed next. A
    rejected request and a reply without pages or without a revision list
    give no row at all. The page title in these URLs is what follows the
    last slash of the article URL: it holds no slash itself, so a title with
    a slash in it is cut and a URL that ends with a slash gives the empty
    title. *)
Theorem fetchRevisions_rows (articleUrl : string) :
  (forall revisions : list Z,
     length (fetchRevisions articleUrl (Normal (Some revisions))) = length revisions /\
     forall i revid_, revisions !! i = Some revid_ ->
       exists row,
         fetchRevisions articleUrl (Normal (Some revisions)) !! i = Some row /\
         Cli.articleUrl row = articleUrl /\
         Cli.revisionUrl row
         = "https://en.wikipedia.org/w/index.php?title=" +:+ split_pop articleUrl
           +:+ "&oldid=" +:+ pretty revid_ /\
         (S i = length revisions -> Cli.diffUrl row = "") /\
         (forall prev, revisions !! S i = Some prev -> prev <> 0%Z ->
            Cli.diffUrl row
            = "https://en.wikipedia.org/w/index.php?title=" +:+ split_pop articleUrl
              +:+ "&type=revision&diff=" +:+ pretty revid_
              +:+ "&oldid=" +:+ pretty prev)) /\
  (forall e, fetchRevisions articleUrl (Throw e) = []) /\
  fetchRevisions articleUrl (Normal None) = [] /\
  exists before,
    articleUrl = before +:+ split_pop articleUrl /\
    string_mem "/" (split_pop articleUrl) = false /\
    (before = EmptyString \/ exists b, before = b +:+ "/").
Proof.
  split; [|split; [done|split; [done|]]].
  - intros revisions. unfold fetchRevisions. split; [apply length_imap|].
    intros i revid_ Hi. rewrite list_lookup_imap, Hi. eexists. split; [reflexivity|].
    cbn [Cli.articleUrl Cli.revisionUrl Cli.diffUrl]. split; [done|]. split; [done|].
    rewrite Nat.add_1_r. split.
    + intros Hlast. rewrite (proj2 (lookup_ge_None revisions (S i))) by lia. done.
    + intros prev -> Hprev. apply Z.eqb_neq in Hprev. by rewrite Hprev.
  - apply (split_pop_from_spec EmptyString articleUrl). done.
Qed.

(** ** Substantial random articles *)

Section RandomArticleFacts.
Variable random_reply : nat -> completion (list string).
Variable fetchArticleMetadata : nat -> string -> option Cli.ArticleMetadata.

Lemma scan_random_articles_collected n minLength randomArticles articles m :
  collected n minLength articles ->
  collected n minLength
    (scan_random_articles fetchArticleMetadata n minLength randomArticles articles m).1 /\
  length articles
  <= length (scan_random_articles fetchArticleMetadata n minLength randomArticles
               articles m).1.
Proof using Type.
  revert articles m. induction randomArticles as [|article randomArticles IH];
    intros articles m Hc; simpl; [done|].
  destruct (decide (n <= Z.of_nat (length articles))%Z) as [|Hlt]; [done|].
  destruct (fetchArticleMetadata m article) as [found|] eqn:E; simpl; [|by apply IH].
  destruct (Cli.length found) as [articleLength|] eqn:El; [|by apply IH].
  destruct (minLength <=? articleLength)%Z eqn:Hlen; [|by apply IH].
  apply Z.leb_le in Hlen.
  destruct (IH (articles ++ [found]) (S m)) as [Hc' Hle].
  { destruct Hc as [Hall Hn]. split.
    - apply Forall_app. split; [done|]. constructor; [|done]. by exists articleLength.
    - rewrite length_app. simpl. lia. }
  split; [done|]. rewrite length_app in Hle. simpl in Hle. lia.
Qed.

Lemma fetchSubstantialRandomArticles_loop_collected fuel n minLength articles k m result :
  collected n minLength articles ->
  fetchSubstantialRandomArticles_loop random_reply fetchArticleMetadata fuel n minLength
    articles k m = Some result ->
  collected n minLength result /\
  ((forall j, exists randomArticles, random_reply j = Normal randomArticles) ->
   (n <= Z.of_nat (length result))%Z).
Proof using Type.
  revert articles k m. induction fuel as [|fuel IH]; intros articles k m Hc; simpl; [done|].
  destruct (decide (Z.of_nat (length articles) < n)%Z) as [Hlt|Hge].
  - destruct (random_reply k) as [randomArticles|e] eqn:Ek.
    + destruct (scan_random_articles fetchArticleMetadata n minLength randomArticles
                  articles m) as [articles' m'] eqn:Escan.
      intros Hrun. apply (IH articles' (S k) m'); [|done].
      pose proof (scan_random_articles_collected n minLength randomArticles articles m Hc)
        as [Hc' _].
      by rewrite Escan in Hc'.
    + intros [= <-]. split; [done|]. intros Hall.
      destruct (Hall k) as [l Hl]. congruence.
  - intros [= <-]. split; [done|]. intros _. lia.
Qed.

(** A reply that lists a title whose article is substantial at every call
    brings one more article, unless enough are collected. *)
Lemma scan_random_articles_progress n minLength randomArticles articles m title :
  title ∈ randomArticles ->
  (forall m', substantial minLength (fetchArticleMetadata m' title) = true) ->
  (Z.of_nat (length articles) < n)%Z ->
  length articles
  < length (scan_random_articles fetchArticleMetadata n minLength randomArticles
              articles m).1.
Proof using Type.
  intros Hin Hsub. revert articles m.
  induction randomArticles as [|article randomArticles IH]; intros articles m Hlt;
    [by apply elem_of_nil in Hin|].
  simpl. destruct (decide (n <= Z.of_nat (length articles))%Z) as [|_]; [lia|].
  assert (forall articles' m',
            length articles < length articles' ->
            length articles
            < length (scan_random_articles fetchArticleMetadata n minLength
                        randomArticles articles' m').1) as Hmono.
  { intros articles' m' Hlen.
    assert (length articles'
            <= length (scan_random_articles fetchArticleMetadata n minLength
                         randomArticles articles' m').1); [|lia].
    clear. revert articles' m'.
    induction randomArticles as [|a l IHl]; intros articles' m'; simpl; [done|].
    destruct (decide _); [done|].
    destruct (fetchArticleMetadata m' a) as [found|]; simpl; [|apply IHl].
    destruct (Cli.length found) as [len|]; [|apply IHl].
    destruct (minLength <=? len)%Z; [|apply IHl].
    etrans; [|apply IHl]. rewrite length_app. simpl. lia. }
  apply list_elem_of_In in Hin. destruct Hin as [->|Hin].
  - pose proof (Hsub m) as Hs. unfold substantial in Hs.
    destruct (fetchArticleMetadata m title) as [found|]; [|done]. simpl.
    destruct (Cli.length found) as [len|]; [|done]. rewrite Hs.
    apply Hmono. rewrite length_app. simpl. lia.
  - apply list_elem_of_In in Hin.
    destruct (fetchArticleMetadata m article) as [found|]; simpl; [|by apply IH].
    destruct (Cli.length found) as [len|]; [|by apply IH].
    destruct (minLength <=? len)%Z; [|by apply IH].
    apply Hmono. rewrite length_app. simpl. lia.
Qed.

Lemma fetchSubstantialRandomArticles_loop_returns n minLength :
  (forall k, exists randomArticles title,
     random_reply k = Normal randomArticles /\ title ∈ randomArticles /\
     forall m, substantial minLength (fetchArticleMetadata m title) = true) ->
  forall fuel articles k m,
    Z.to_nat n - length articles < fuel ->
    exists result,
      fetchSubstantialRandomArticles_loop random_reply fetchArticleMetadata fuel n
        minLength articles k m = Some result.
Proof using Type.
  intros Hsupply. induction fuel as [|fuel IH]; intros articles k m Hfuel; [lia|].
  simpl. destruct (decide (Z.of_nat (length articles) < n)%Z) as [Hlt|]; [|by eexists].
  destruct (Hsupply k) as (randomArticles & title & -> & Hin & Hsub).
  pose proof (scan_random_articles_progress n minLength randomArticles articles m title
                Hin Hsub Hlt) as Hprog.
  destruct (scan_random_articles fetchArticleMetadata n minLength randomArticles
              articles m) as [articles' m'].
  apply IH. simpl in Hprog. lia.
Qed.

(** A failed request ends the loop. *)
Lemma fetchSubstantialRandomArticles_loop_fails n minLength e :
  forall K articles k m,
    random_reply (k + K) = Throw e ->
    exists result,
      fetchSubstantialRandomArticles_loop random_reply fetchArticleMetadata (S K) n
        minLength articles k m = Some result.
Proof using Type.
  induction K as [|K IH]; intros articles k m HK;
    cbn [fetchSubstantialRandomArticles_loop];
    (destruct (decide (Z.of_nat (length articles) < n)%Z); [|by eexists]).
  - rewrite Nat.add_0_r in HK. rewrite HK. by eexists.
  - destruct (random_reply k) as [randomArticles|e']; [|by eexists].
    destruct (scan_random_articles fetchArticleMetadata n minLength randomArticles
                articles m) as [articles' m'].
    apply IH. rewrite <- HK. f_equal. lia.
Qed.

End RandomArticleFacts.

(** X27. Whatever the supply of random articles is, what
    [fetchSubstantialRandomArticles] returns holds only articles whose length
    is known and at least [minLength], and never more than [n] of them; and
    when no request for random articles failed, it holds exactly [n]. *)
Theorem fetchSubstantialRandomArticles_only_substantial
    (random_reply : nat -> completion (list string))
    (fetchArticleMetadata : nat -> string -> option Cli.ArticleMetadata)
    (fuel : nat) (n minLength : Z) (result : list Cli.ArticleMetadata) :
  fetchSubstantialRandomArticles random_reply fetchArticleMetadata fuel n minLength
  = Some result ->
  Forall (fun article => exists articleLength,
            Cli.length article = Some articleLength /\ (minLength <= articleLength)%Z)
         result /\
  (Z.of_nat (length result) <= Z.max 0 n)%Z /\
  ((forall k, exists randomArticles, random_reply k = Normal randomArticles) ->
   length result = Z.to_nat n).
Proof.
  intros Hrun.
  destruct (fetchSubstantialRandomArticles_loop_collected random_reply fetchArticleMetadata
              fuel n minLength [] 0 0 result) as [[Hall Hn] Hfull]; [|done|].
  { split; [constructor|]. simpl. lia. }
  split; [done|]. split; [done|]. intros Hok. specialize (Hfull Hok). lia.
Qed.

(** Two articles asked for, one substantial article in every reply. *)
Lemma fetchSubstantialRandomArticles_only_substantial_witness :
  exists result,
    fetchSubstantialRandomArticles two_random_articles metadata_by_title 3 2 20000
    = Some result /\
    Forall (fun article => exists articleLength,
              Cli.length article = Some articleLength /\ (20000 <= articleLength)%Z)
           result /\
    (Z.of_nat (length result) <= Z.max 0 2)%Z /\
    ((forall k, exists randomArticles, two_random_articles k = Normal randomArticles) ->
     length result = Z.to_nat 2).
Proof.
  eexists. split; [reflexivity|].
  apply (fetchSubstantialRandomArticles_only_substantial two_random_articles
           metadata_by_title 3 2 20000).
  reflexivity.
Defined.

(** X28. The search ends. When every reply lists at least one article that
    is substantial, [n + 1] turns of the loop are enough for any [n], and
    the result holds [n] articles; when [n] is 0 or negative the first turn
    returns the empty array, with no request at all; and a failed request
    for random articles ends the search at that turn at the latest. *)
Theorem fetchSubstantialRandomArticles_returns
    (random_reply : nat -> completion (list string))
    (fetchArticleMetadata : nat -> string -> option Cli.ArticleMetadata)
    (n minLength : Z) :
  ((forall k, exists randomArticles title,
      random_reply k = Normal randomArticles /\ title ∈ randomArticles /\
      forall m, substantial minLength (fetchArticleMetadata m title) = true) ->
   exists result,
     fetchSubstantialRandomArticles random_reply fetchArticleMetadata (S (Z.to_nat n)) n
       minLength = Some result /\
     length result = Z.to_nat n) /\
  ((n <= 0)%Z ->
   forall fuel,
     fetchSubstantialRandomArticles random_reply fetchArticleMetadata (S fuel) n minLength
     = Some []) /\
  (forall K e,
     random_reply K = Throw e ->
     exists result,
       fetchSubstantialRandomArticles random_reply fetchArticleMetadata (S K) n minLength
       = Some result).
Proof.
  split; [|split].
  - intros Hsupply.
    destruct (fetchSubstantialRandomArticles_loop_returns random_reply fetchArticleMetadata
                n minLength Hsupply (S (Z.to_nat n)) [] 0 0) as [result Hrun];
      [simpl; lia|].
    exists result. split; [exact Hrun|].
    destruct (fetchSubstantialRandomArticles_loop_collected random_reply
                fetchArticleMetadata (S (Z.to_nat n)) n minLength [] 0 0 result)
      as [[_ Hn] Hfull]; [|done|].
    { split; [constructor|]. simpl. lia. }
    assert (n <= Z.of_nat (length result))%Z; [|lia].
    apply Hfull. intros k. destruct (Hsupply k) as (l & _ & -> & _). by exists l.
  - intros Hn fuel. unfold fetchSubstantialRandomArticles.
    cbn [fetchSubstantialRandomArticles_loop].
    destruct (decide _) as [Hlt|]; [simpl in Hlt; lia|done].
  - intros K e HK. unfold fetchSubstantialRandomArticles.
    apply (fetchSubstantialRandomArticles_loop_fails random_reply fetchArticleMetadata
             n minLength e K [] 0 0). exact HK.
Qed.

(** One substantial article in every reply, two articles asked for. *)
Lemma fetchSubstantialRandomArticles_returns_witness :
  exists result,
    fetchSubstantialRandomArticles two_random_articles metadata_by_title 3 2 20000
    = Some result /\
    length result = 2.
Proof.
  apply (proj1 (fetchSubstantialRandomArticles_returns two_random_articles
                  metadata_by_title 2 20000)).
  intros k. exists ["B"; "A"], "A". split; [reflexivity|]. split; [|reflexivity].
  apply list_elem_of_In. simpl. tauto.
Defined.

(** ** The features file *)

Section CompletionLists.
Context {A B : Type}.

Lemma mapM_Normal (f : A -> completion B) (g : A -> B) (l : list A) :
  (forall x, x ∈ l -> f x = Normal (g x)) -> mapM f l = Normal (map g l).
Proof using Type.
  induction l as [|x l IH]; intros H; [done|].
  cbn [mapM]. rewrite (H x) by left. cbn [mbind completion_bind].
  rewrite IH by (intros y Hy; apply H; by right). done.
Qed.

End CompletionLists.

Section FeatureTableFacts.
Context {num : Type} `{!JsNumber num} `{!JsTruthy num}.
Variables (fn : string -> completion (object num)) (g : string -> object num).

(** The [Map] of the feature sets, once every extraction resolved. *)
Lemma features_in_batches (revisions : list string) :
  forall l k (features : gmap (option string) (object num)),
    drop k revisions = l ->
    (fold_left
       (fun '(features, ind) featureSet =>
          (<[revisions !! ind := featureSet]> features, S ind))
       (map g l) (features, k)).1
    = fold_left (fun features revision => <[Some revision := g revision]> features)
        l features.
Proof using Type.
  induction l as [|u l IH]; intros k features Hdrop; [done|].
  assert (revisions !! k = Some u) as Hk.
  { rewrite <- (Nat.add_0_r k), <- lookup_drop, Hdrop. done. }
  cbn [map fold_left]. rewrite Hk. apply IH.
  rewrite (drop_S _ _ _ Hk) in Hdrop. by injection Hdrop.
Qed.

Lemma features_one_by_one (revisions : list string) :
  (forall u, u ∈ revisions -> fn u = Normal (g u)) ->
  forall features : gmap (option string) (object num),
    fold_left
      (fun acc revision =>
         features ← acc;
         featureSet ← fn revision;
         Normal (<[Some revision := featureSet]> features))
      revisions (Normal features)
    = Normal (fold_left (fun features revision => <[Some revision := g revision]> features)
                revisions features).
Proof using Type.
  induction revisions as [|u revisions IH]; intros Hfn features; [done|].
  cbn [fold_left mbind completion_bind]. rewrite (Hfn u) by left.
  cbn [mbind completion_bind]. apply IH. intros u' Hu'. apply Hfn. by right.
Qed.

Lemma features_lookup (revisions : list string) (u : string) :
  u ∈ revisions ->
  fold_left (fun features revision => <[Some revision := g revision]> features)
    revisions (∅ : gmap (option string) (object num)) !! Some u
  = Some (g u).
Proof using Type.
  induction revisions as [|x revisions IH] using rev_ind; intros Hin;
    [by apply elem_of_nil in Hin|].
  rewrite fold_left_app. cbn [fold_left].
  destruct (decide (x = u)) as [->|Hne]; [apply lookup_insert_eq|].
  rewrite lookup_insert_ne by congruence. apply IH.
  apply elem_of_app in Hin as [Hin|Hin]; [done|].
  apply list_elem_of_singleton in Hin. congruence.
Qed.

(** The table of a [Map] that holds the feature set of every revision. *)
Lemma features_table_resolved (first : string) (rest : list string) :
  features_table (first :: rest)
    (fold_left (fun features revision => <[Some revision := g revision]> features)
       (first :: rest) ∅)
  = Normal
      ((VString "revisionUrl" :: map VString (obj_keys (g first)))
       :: map (fun revision =>
                 VString revision
                 :: map (fun featureName => or_empty (obj_get featureName (g revision)))
                        (obj_keys (g first)))
              (first :: rest)).
Proof using Type.
  unfold features_table.
  change ((first :: rest) !! 0) with (Some first).
  rewrite features_lookup by left.
  rewrite (mapM_Normal _
             (fun revision =>
                VString revision
                :: map (fun featureName => or_empty (obj_get featureName (g revision)))
                       (obj_keys (g first)))); [done|].
  intros u Hu. rewrite features_lookup by done.
  by rewrite (mapM_Normal _ (fun featureName => or_empty (obj_get featureName (g u)))).
Qed.

Lemma extract_features_in_batches_resolved (revisions : list string) :
  (forall u, u ∈ revisions -> fn u = Normal (g u)) ->
  extract_features_in_batches fn revisions
  = Some (features_table revisions
            (fold_left (fun features revision => <[Some revision := g revision]> features)
               revisions ∅)).
Proof using Type.
  intros Hfn. unfold extract_features_in_batches, doInBatches.
  destruct (doInBatches_loop_returns fn g 5 revisions ltac:(lia) Hfn
              (S (length revisions)) 0 [] [] ltac:(lia)) as (bs & -> & _ & _).
  rewrite drop_0. cbn [app].
  pose proof (features_in_batches revisions revisions 0 ∅ (drop_0 _)) as H.
  destruct (fold_left _ (map g revisions) (∅, 0)) as [features ind].
  simpl in H. by rewrite H.
Qed.

End FeatureTableFacts.

(** On binary64 the falsy numbers are 0, -0 and NaN and no other: a number
    is truthy exactly when it is below 0 or above 0. *)
Lemma binary64_truthy_spec (f : float) :
  num_truthy f = (PrimFloat.ltb f 0 || PrimFloat.ltb 0 f).
Proof.
  unfold num_truthy, binary64_truthy, PrimFloat.is_nan.
  rewrite !FloatAxioms.eqb_spec, !FloatAxioms.ltb_spec.
  change (FloatOps.Prim2SF 0) with (SpecFloat.S754_zero false).
  change (FloatOps.Prim2SF PrimFloat.zero) with (SpecFloat.S754_zero false).
  destruct (FloatOps.Prim2SF f) as [s|s| |s m e]; [by destruct s|by destruct s|done|].
  unfold SpecFloat.SFeqb, SpecFloat.SFltb, SpecFloat.SFcompare.
  destruct s; rewrite ?Z.compare_refl, ?Pos.compare_cont_refl; done.
Qed.

(** What [v || ''] is, value by value. *)
Lemma or_empty_cases {num : Type} `{!JsTruthy num} (v : value num) :
  or_empty v
  = match v with
    | VUndefined | VNull => VString ""
    | VString s => VString s
    | VNumber n => if num_truthy n then VNumber n else VString ""
    end.
Proof.
  destruct v as [| |n|s]; try done.
  unfold or_empty, value_truthy. by destruct (String.eqb_spec s "") as [->|].
Qed.

(** X29. When every extraction resolves, the handler of [extract-features]
    returns a table with one row for each revision URL, in the order of the
    input, below a header that is [revisionUrl] and the field names of the
    record of the first URL; the row of a URL holds the URL and, for each of
    these names, the cell of the field in the record of that URL. The cell
    of a string is the string; the cell of a number is the number when it is
    truthy and the empty string when it is falsy; the cell of undefined and
    of null is the empty string. On binary64 the falsy numbers are 0, -0
    and NaN and no other (the infinities and every number below or above 0
    are written as they are); on exact numbers they are 0 and NaN. Batching
    does not mix up the rows. *)
Theorem extract_features_table {num : Type} `{!JsNumber num} `{!JsTruthy num}
    (fn : string -> completion (object num)) (g : string -> object num)
    (first : string) (rest : list string) :
  (forall u, u ∈ first :: rest -> fn u = Normal (g u)) ->
  extract_features_in_batches fn (first :: rest)
  = Some (Normal
            ((VString "revisionUrl" :: map VString (obj_keys (g first)))
             :: map (fun revision =>
                       VString revision
                       :: map (fun featureName =>
                                 match obj_get featureName (g revision) with
                                 | VUndefined | VNull => VString ""
                                 | VString s => VString s
                                 | VNumber n =>
                                     if num_truthy n then VNumber n else VString ""
                                 end)
                              (obj_keys (g first)))
                    (first :: rest))) /\
  (forall f : float, num_truthy f = (PrimFloat.ltb f 0 || PrimFloat.ltb 0 f)) /\
  (num_truthy 0%float = false /\ num_truthy (-0)%float = false /\
   num_truthy PrimFloat.nan = false /\ num_truthy PrimFloat.infinity = true /\
   num_truthy PrimFloat.neg_infinity = true) /\
  (forall r : R, num_truthy (Exact.Fin r) = false <-> r = 0%R) /\
  (num_truthy Exact.NaN = false /\ num_truthy Exact.PInf = true /\
   num_truthy Exact.NInf = true).
Proof.
  intros Hfn. split; [|split; [exact binary64_truthy_spec|]].
  - rewrite (extract_features_in_batches_resolved fn g) by done.
    rewrite features_table_resolved. do 3 f_equal.
    apply map_ext. intros revision. f_equal.
    apply map_ext. intros featureName. apply or_empty_cases.
  - split; [repeat split|]. split; [|repeat split].
    intros r. unfold num_truthy, exact_truthy.
    destruct (Req_dec_T r 0); split; intros; done.
Qed.

(** Seven URLs, two batches. The field [a], the length of the URL, is
    written as it is; the field [b] is 0 and is written as the empty
    string. *)
Lemma extract_features_table_witness :
  extract_features_in_batches (fun u => Normal (length_features u))
    ["u1"; "u2"; "u3"; "u4"; "u5"; "u6"; "u77"]
  = Some (Normal
            [ [VString "revisionUrl"; VString "a"; VString "b"];
              [VString "u1"; VNumber 2%float; VString ""];
              [VString "u2"; VNumber 2%float; VString ""];
              [VString "u3"; VNumber 2%float; VString ""];
              [VString "u4"; VNumber 2%float; VString ""];
              [VString "u5"; VNumber 2%float; VString ""];
              [VString "u6"; VNumber 2%float; VString ""];
              [VString "u77"; VNumber 3%float; VString ""] ]).
Proof.
  rewrite (proj1 (extract_features_table (fun u => Normal (length_features u))
                    length_features
                    "u1" ["u2"; "u3"; "u4"; "u5"; "u6"; "u77"]
                    ltac:(reflexivity))).
  vm_compute. reflexivity.
Defined.

(** X30. The two versions of the handler agree: when every extraction
    resolves, running them in batches of 5 gives the table that running
    them one after the other gives; and on an empty input both throw a type
    error, at the field names of a first record that is not there, before
    any extraction. *)
Theorem extract_features_handlers_agree {num : Type} `{!JsNumber num} `{!JsTruthy num}
    (fn : string -> completion (object num)) (g : string -> object num)
    (revisions : list string) :
  (forall u, u ∈ revisions -> fn u = Normal (g u)) ->
  extract_features_in_batches fn revisions
  = Some (extract_features_one_by_one fn revisions) /\
  (revisions = [] -> extract_features_one_by_one fn revisions = Throw TypeError).
Proof.
  intros Hfn. rewrite (extract_features_in_batches_resolved fn g) by done.
  unfold extract_features_one_by_one.
  rewrite (features_one_by_one fn g) by done. split; [done|].
  by intros ->.
Qed.

(** Seven URLs, two batches against seven extractions in a row. *)
Lemma extract_features_handlers_agree_witness :
  (forall u, u ∈ ["u1"; "u2"; "u3"; "u4"; "u5"; "u6"; "u77"] ->
     (fun u => Normal (length_features u)) u = Normal (length_features u)) /\
  extract_features_in_batches (fun u => Normal (length_features u))
    ["u1"; "u2"; "u3"; "u4"; "u5"; "u6"; "u77"]
  = Some (extract_features_one_by_one (fun u => Normal (length_features u))
            ["u1"; "u2"; "u3"; "u4"; "u5"; "u6"; "u77"]) /\
  (["u1"; "u2"; "u3"; "u4"; "u5"; "u6"; "u77"] = [] ->
   extract_features_one_by_one (fun u => Normal (length_features u))
     ["u1"; "u2"; "u3"; "u4"; "u5"; "u6"; "u77"] = Throw TypeError).
Proof.
  split; [reflexivity|].
  apply (extract_features_handlers_agree (fun u => Normal (length_features u))
           length_features ["u1"; "u2"; "u3"; "u4"; "u5"; "u6"; "u77"]).
  reflexivity.
Defined.

(** ** Evaluations on binary64 *)

Example F64_stats :
  extractDistributionStatistics "t" 0 [[150; 100]%float]
  = ([("tAverage", VNumber 125%float); ("tMedian", VNumber 150%float);
      ("tQ1", VNumber 100%float); ("tQ3", VNumber 150%float);
      ("tStdDev", VNumber 25%float)], [[100; 150]%float]).
Proof. vm_compute. reflexivity. Qed.

Example F64_differences :
  differences [0; 100; 250]%float = [100; 150]%float.
Proof. reflexivity. Qed.

Example F64_empty_sample :
  extractDistributionStatistics "t" 0 [[]]
  = ([("tAverage", VNumber PrimFloat.nan); ("tMedian", VUndefined);
      ("tQ1", VUndefined); ("tQ3", VUndefined);
      ("tStdDev", VNumber PrimFloat.nan)], [[]] : heap float).
Proof. vm_compute. reflexivity. Qed.

Example F64_sample_of_one :
  extractDistributionStatistics "t" 0 [[42]%float]
  = ([("tAverage", VNumber 42%float); ("tMedian", VNumber 42%float);
      ("tQ1", VNumber 42%float); ("tQ3", VNumber 42%float);
      ("tStdDev", VNumber 0%float)], [[42]%float]).
Proof. vm_compute. reflexivity. Qed.

(** The caller's array is sorted, its neighbour is not touched. *)
Example F64_sorts_in_place :
  (extractDistributionStatistics "t" 0 [[3; 1; 2]%float; [9; 8]%float]).2
  = [[1; 2; 3]%float; [9; 8]%float].
Proof. vm_compute. reflexivity. Qed.

Example count_matches_example : count_matches "<pre>" "a<pre>b</pre>c<pre>" = 2.
Proof. reflexivity. Qed.

Example fetchDiffFromRevId_example :
  fetchDiffFromRevId (Normal (Compare (Some "<div><pre>-a
+b</pre></div>")))
  = Normal "-a
+b".
Proof. reflexivity. Qed.

Example batches_12_5 :
  doInBatches (fun t : nat => Normal (t * t)) 5 (seq 0 12)
  = Returns (map (fun t => t * t) (seq 0 12))
      [[0; 1; 2; 3; 4]; [5; 6; 7; 8; 9]; [10; 11]].
Proof. reflexivity. Qed.
